(** * multimxrun: a process pool for McXtrace simulations

    Shallow embedding of [multimxrun.py]: the progress-line parser
    ([Program.process_output]), the job life cycle ([ProcManager]), the
    monitor loop, the per-tick summary, the set-up of the pool and the final
    clean-up pass, followed by the properties proved about them.

    Conventions of the model.
    - Text is a [string] of code points below 256; the character classes of
      Python's [re] are written out on that range.
    - Python [float] values are IEEE binary64 numbers, the [spec_float] of
      the standard library at precision 53 and exponent bound 1024: sums,
      differences, products and quotients are rounded to nearest, ties to
      even, and overflow to infinity. An attribute that starts as the [int] 0
      and later holds a [float] is a [float] from the start (0 is +0.0: both
      are false, add and print alike).
    - Python [int] values are [Z].
    - The operating system is an explicit part of the state: what a spawn
      does, what each [poll] and [readline] of a child returns, what the file
      system answers and does.
    - An exception nothing catches ends the function it is raised in: such a
      function returns a [Failure] in place of its result. *)

From Stdlib Require Import List String Ascii ZArith QArith Bool Lia Arith.
From Stdlib Require Import DecimalString DecimalPos DecimalZ SpecFloat.
Import ListNotations.
Close Scope Q_scope.
Open Scope string_scope.
Open Scope Z_scope.

(** ** Regular expressions, as far as the two patterns of the script need them *)

Module Re.

(** The character sets of the two patterns. *)
Inductive cset : Type :=
| Chr (c : ascii)   (* a literal character *)
| Digit             (* \d *)
| Word              (* \w *)
| Space             (* \s *)
| Dot.              (* .  *)

Definition code (c : ascii) : N := N_of_ascii c.

Definition between (lo hi : N) (c : ascii) : bool :=
  (lo <=? code c)%N && (code c <=? hi)%N.

(** [\d] on a [str] pattern: the decimal digits; below 256 these are 0-9. *)
Definition is_digit (c : ascii) : bool := between 48 57 c.

(** [\w] on a [str] pattern: alphanumeric code points and the underscore. *)
Definition is_word (c : ascii) : bool :=
  is_digit c || between 65 90 c || between 97 122 c || (code c =? 95)%N
  || (code c =? 170)%N || (code c =? 178)%N || (code c =? 179)%N
  || (code c =? 181)%N || (code c =? 185)%N || (code c =? 186)%N
  || between 188 190 c || between 192 214 c || between 216 246 c
  || between 248 255 c.

(** [\s] on a [str] pattern. *)
Definition is_space (c : ascii) : bool :=
  between 9 13 c || between 28 32 c || (code c =? 133)%N || (code c =? 160)%N.

Definition newline : ascii := ascii_of_N 10.

(** [.] without DOTALL: anything but a newline. *)
Definition is_dot (c : ascii) : bool := negb (code c =? 10)%N.

Definition cset_match (p : cset) (c : ascii) : bool :=
  match p with
  | Chr a => Ascii.eqb a c
  | Digit => is_digit c
  | Word => is_word c
  | Space => is_space c
  | Dot => is_dot c
  end.

(** Patterns: repetition is only ever applied to a character set. *)
Inductive regex : Type :=
| Bol                               (* ^ *)
| Eol                               (* $ *)
| One (p : cset)
| Star (p : cset)                   (* p*, greedy *)
| Plus (p : cset)                   (* p+, greedy *)
| Opt (p : cset)                    (* p?, greedy *)
| Seq (r1 r2 : regex)
| Named (name : string) (r : regex) (* (?P<name>r) *).

(** A literal piece of a pattern. *)
Fixpoint Lit (s : string) (rest : regex) : regex :=
  match s with
  | EmptyString => rest
  | String c s' => Seq (One (Chr c)) (Lit s' rest)
  end.

Definition groups : Type := list (string * string).

(** What is left to match: position in the subject, rest of the subject,
    groups closed so far. *)
Definition cont : Type := nat -> string -> groups -> option groups.

(** The first [n] characters of [s]. *)
Fixpoint take (n : nat) (s : string) : string :=
  match n, s with
  | S n', String c s' => String c (take n' s')
  | _, _ => EmptyString
  end.

(** Greedy repetition: take one more character when possible, and come back
    to the shorter match only when the rest fails. *)
Fixpoint star (p : cset) (pos : nat) (s : string) (g : groups) (k : cont)
  : option groups :=
  match s with
  | String c s' =>
      if cset_match p c then
        match star p (S pos) s' g k with
        | Some r => Some r
        | None => k pos s g
        end
      else k pos s g
  | EmptyString => k pos s g
  end.

(** Backtracking matcher in continuation-passing style; the first success in
    the order of the [sre] engine is the result. *)
Fixpoint run (r : regex) (pos : nat) (s : string) (g : groups) (k : cont)
  : option groups :=
  match r with
  | Bol => if Nat.eqb pos 0 then k pos s g else None
  | Eol =>
      match s with
      | EmptyString => k pos s g
      | String c EmptyString => if Ascii.eqb c newline then k pos s g else None
      | _ => None
      end
  | One p =>
      match s with
      | String c s' => if cset_match p c then k (S pos) s' g else None
      | EmptyString => None
      end
  | Star p => star p pos s g k
  | Plus p =>
      match s with
      | String c s' => if cset_match p c then star p (S pos) s' g k else None
      | EmptyString => None
      end
  | Opt p =>
      match s with
      | String c s' =>
          if cset_match p c then
            match k (S pos) s' g with
            | Some r => Some r
            | None => k pos s g
            end
          else k pos s g
      | EmptyString => k pos s g
      end
  | Seq r1 r2 => run r1 pos s g (fun pos' s' g' => run r2 pos' s' g' k)
  | Named name r1 =>
      run r1 pos s g
          (fun pos' s' g' => k pos' s' ((name, take (pos' - pos)%nat s) :: g'))
  end.

(** [re.match(pattern, subject)]: anchored at the start, not at the end. *)
Definition re_match (r : regex) (subject : string) : option groups :=
  run r 0 subject [] (fun _ _ g => Some g).

(** [result.group(name)]. *)
Fixpoint group (g : groups) (name : string) : string :=
  match g with
  | [] => EmptyString
  | (n, v) :: g' => if String.eqb n name then v else group g' name
  end.

End Re.

(** ** Conversions of matched text *)

(** Value of a run of decimal digits, with accumulator. *)
Fixpoint digits_to_Z (s : string) (acc : Z) : Z :=
  match s with
  | EmptyString => acc
  | String c s' => digits_to_Z s' (10 * acc + (Z.of_N (N_of_ascii c) - 48))
  end.

(** [int(s)] on a run of decimal digits. *)
Definition py_int (s : string) : Z := digits_to_Z s 0.

(** Splits at the first ['.']: the text before it and the text after it. *)
Fixpoint split_dot (s : string) : string * string :=
  match s with
  | EmptyString => (EmptyString, EmptyString)
  | String c s' =>
      if Ascii.eqb c "."%char then (EmptyString, s')
      else let (a, b) := split_dot s' in (String c a, b)
  end.

Fixpoint pow10 (n : nat) : positive :=
  match n with
  | O => 1%positive
  | S n' => (10 * pow10 n')%positive
  end.

(** ** Numbers *)

(** How a function stops early: [sys.exit(msg)], or an exception nothing
    catches, named by its class. *)
Inductive Failure : Type :=
| SysExit (msg : string)
| Raised (what : string).

(** Python's [float]. *)
Definition float : Type := spec_float.

Definition fadd : float -> float -> float := SFadd 53 1024.
Definition fsub : float -> float -> float := SFsub 53 1024.
Definition fmul : float -> float -> float := SFmul 53 1024.
Definition fdiv : float -> float -> float := SFdiv 53 1024.

Definition fzero : float := S754_zero false.

(** [float(n)] for an integer within the range of the type. *)
Definition of_int (n : Z) : float := binary_normalize 53 1024 n 0 false.

(** The integer [n] as an unrounded mantissa, for the operations that round
    a quotient of integers once. *)
Definition exact (n : Z) : float :=
  match n with
  | Z0 => S754_zero false
  | Zpos p => S754_finite false p 0
  | Zneg p => S754_finite true p 0
  end.

(** Truth value of a float: false for 0.0 and -0.0 only. *)
Definition truthy_float (x : float) : bool :=
  match x with
  | S754_zero _ => false
  | _ => true
  end.

(** The rational a finite float stands for (0 for the others). *)
Definition value (x : float) : Q :=
  match x with
  | S754_finite s m e =>
      let v := if 0 <=? e then inject_Z (Zpos m * 2 ^ e)
               else Qmake (Zpos m) (Z.to_pos (2 ^ (- e))) in
      if s then Qopp v else v
  | _ => 0%Q
  end.

(** [float(s)] on text of the form digits, optional point, digits: the
    float nearest to the decimal number, infinity beyond the range. *)
Definition py_float (s : string) : float :=
  let (ip, fp) := split_dot s in
  fdiv (exact (py_int (ip ++ fp))) (exact (Zpos (pow10 (String.length fp)))).

(** [a / b] on integers: the float nearest to the quotient. *)
Definition truediv (a b : Z) : Failure + float :=
  if b =? 0 then inl (Raised "ZeroDivisionError")
  else
    match fdiv (exact a) (exact b) with
    | S754_infinity _ => inl (Raised "OverflowError")
    | q => inr q
    end.

(** The integer nearest to m * 2^e, ties to even. *)
Definition round_half_even (m : positive) (e : Z) : Z :=
  if 0 <=? e then Zpos m * 2 ^ e
  else
    let d := 2 ^ (- e) in
    let q := Zpos m / d in
    match 2 * (Zpos m mod d) ?= d with
    | Lt => q
    | Gt => q + 1
    | Eq => if Z.even q then q else q + 1
    end.

(** [round(x)] on a float. *)
Definition py_round (x : float) : Failure + Z :=
  match x with
  | S754_zero _ => inr 0
  | S754_infinity _ => inl (Raised "OverflowError")
  | S754_nan => inl (Raised "ValueError")
  | S754_finite s m e =>
      inr (if s then - round_half_even m e else round_half_even m e)
  end.

(** [timedelta(seconds=n)]: the days must stay within 999999999. *)
Definition timedelta (seconds : Z) : Failure + Z :=
  if (-86399999913600 <=? seconds) && (seconds <? 86400000000000)
  then inr seconds
  else inl (Raised "OverflowError").

(** [timedelta(seconds=round(x))], as the status line shows a duration. *)
Definition duration (x : float) : Failure + Z :=
  match py_round x with
  | inl why => inl why
  | inr n => timedelta n
  end.

(** m * 2^e against the integer n. *)
Definition compare_scaled (m : positive) (e : Z) (n : Z) : comparison :=
  if 0 <=? e then Zpos m * 2 ^ e ?= n else Zpos m ?= n * 2 ^ (- e).

(** [sleep(secs)]: what it raises, if anything. The interval is brought to
    nanoseconds in floating point and must fit a signed 64-bit count; a
    negative count is refused, and so is the count 2^63, which wraps to a
    negative one. The kernel refuses a sleep that would end 9223372036
    seconds or more after the start of its monotonic clock; that clock is
    taken to start with the sleep. *)
Definition sleep (secs : float) : option Failure :=
  match secs with
  | S754_nan => Some (Raised "ValueError")
  | _ =>
      match fmul secs (of_int 1000000000) with
      | S754_nan => Some (Raised "ValueError")
      | S754_infinity _ => Some (Raised "OverflowError")
      | S754_zero _ => None
      | S754_finite s m e =>
          match compare_scaled m e (2 ^ 63) with
          | Gt => Some (Raised "OverflowError")
          | Eq => Some (Raised "ValueError")
          | Lt =>
              if s then Some (Raised "ValueError")
              else
                match compare_scaled m e (9223372036 * 1000000000) with
                | Lt => None
                | _ => Some (Raised "OSError")
                end
          end
      end
  end.

(** ** Job states and child processes *)

Inductive State : Type := WAITING | RUNNING | FINISH | ERROR.

Definition State_eqb (a b : State) : bool :=
  match a, b with
  | WAITING, WAITING | RUNNING, RUNNING | FINISH, FINISH | ERROR, ERROR => true
  | _, _ => false
  end.

(** A child process as the pool sees it: [exits_after] is the number of
    [poll] calls that still answer [None] before the exit code shows
    ([None]: the child never exits); [stdout] is the sequence of results the
    coming [readline] calls give, the empty text standing for "nothing
    available now", and the end of the list for end of file. *)
Inductive Read : Type :=
| Text (s : string)   (* bytes that decode to [s] *)
| Undecodable.        (* bytes that are not valid UTF-8 *)

Record Popen : Type := mkPopen {
  exits_after : option nat;
  returncode : Z;
  stdout : list Read
}.

(** [process.poll()]. *)
Definition poll (p : Popen) : option Z * Popen :=
  match exits_after p with
  | Some O => (Some (returncode p), p)
  | Some (S n) => (None, mkPopen (Some n) (returncode p) (stdout p))
  | None => (None, p)
  end.

(** One job: the attributes of a [Program] instance, and [spawn], what
    building the command and [Popen] do for it ([None]: one of them raises). *)
Record Program : Type := mkProgram {
  process : option Popen;
  status : State;
  time : float;
  params : string;
  filename : string;
  dir_ : string;
  running_eta : float;
  running_perc : Z;
  spawn : option Popen
}.

Definition set_process (self : Program) (v : option Popen) : Program :=
  mkProgram v (status self) (time self) (params self) (filename self)
            (dir_ self) (running_eta self) (running_perc self) (spawn self).

Definition set_status (self : Program) (v : State) : Program :=
  mkProgram (process self) v (time self) (params self) (filename self)
            (dir_ self) (running_eta self) (running_perc self) (spawn self).

Definition set_time (self : Program) (v : float) : Program :=
  mkProgram (process self) (status self) v (params self) (filename self)
            (dir_ self) (running_eta self) (running_perc self) (spawn self).

Definition set_running_eta (self : Program) (v : float) : Program :=
  mkProgram (process self) (status self) (time self) (params self)
            (filename self) (dir_ self) v (running_perc self) (spawn self).

Definition set_running_perc (self : Program) (v : Z) : Program :=
  mkProgram (process self) (status self) (time self) (params self)
            (filename self) (dir_ self) (running_eta self) v (spawn self).

(** [Program.__init__(params, filename, dir_)]. *)
Definition Program_init (params filename dir_ : string) (spawn : option Popen)
  : Program :=
  mkProgram None WAITING fzero params filename dir_ fzero 0 spawn.

(** ** The progress parser *)

Import Re.

(** The pattern of a trace line, atom by atom:
    ^ Trace ETA (?P<time> \d+ \.? \d* ) \[ (?P<unit> \w+ ) \] % .* (?P<percent> \d+ ) \s* $
    with one blank after ETA, after the time, after the unit's bracket and
    before the percent. *)
Definition trace_re : regex :=
  Seq Bol
   (Lit "Trace ETA "
    (Seq (Named "time" (Seq (Plus Digit) (Seq (Opt (Chr ".")) (Star Digit))))
     (Lit " ["
      (Seq (Named "unit" (Plus Word))
       (Lit "] %"
        (Seq (Star Dot)
         (Lit " "
          (Seq (Named "percent" (Plus Digit))
           (Seq (Star Space) Eol))))))))).

(** The pattern of a bare percent line: ^ (?P<percent> \d+ ) blank $ *)
Definition percent_re : regex :=
  Seq Bol (Seq (Named "percent" (Plus Digit)) (Lit " " Eol)).

(** [Program.process_output]. *)
Definition process_output (self : Program) (output : string) : Program :=
  let self :=
    match re_match trace_re output with
    | Some result =>
        let time := fzero in
        let time := if ("s" =? group result "unit")%string
                    then py_float (group result "time") else time in
        let time := if ("min" =? group result "unit")%string
                    then fmul (of_int 60) (py_float (group result "time"))
                    else time in
        let time := if ("h" =? group result "unit")%string
                    then fmul (of_int (60 * 60)) (py_float (group result "time"))
                    else time in
        set_running_perc (set_running_eta self time)
                         (py_int (group result "percent"))
    | None => self
    end in
  match re_match percent_re output with
  | Some result => set_running_perc self (py_int (group result "percent"))
  | None => self
  end.

(** ** The job runner *)

(** [ProcManager.invoke_process], called at clock reading [now]; the result
    of the call is the [process] attribute of the job it returns. *)
Definition invoke_process (self : Program) (now : float) : Program :=
  match spawn self with
  | None => set_status (set_process self None) ERROR
  | Some child => set_time (set_status (set_process self (Some child)) RUNNING) now
  end.

(** The [readline] loop of [check_status_and_process_output]: every line
    read is decoded and parsed, until [readline] gives nothing. What is left
    of the stream is returned with the job, and the exception of
    [output.decode()] when the loop ended in it. *)
Fixpoint drain (self : Program) (out : list Read)
  : Program * list Read * option Failure :=
  match out with
  | [] => (self, [], None)
  | Text output :: rest =>
      if (output =? "")%string then (self, rest, None)
      else drain (process_output self output) rest
  | Undecodable :: rest => (self, rest, Some (Raised "UnicodeDecodeError"))
  end.

(** [ProcManager.check_status_and_process_output], at clock reading [now]:
    the job as the call leaves it, and the exception that ended the call, if
    any. A RUNNING job has its handle ([invoke_process] sets both); without
    one, [self.process.poll()] raises. *)
Definition check_status_and_process_output (self : Program) (now : float)
  : Program * option Failure :=
  match status self with
  | RUNNING =>
      match process self with
      | Some child =>
          let (code, child) := poll child in
          let self :=
            match code with
            | Some _ => set_time (set_status self FINISH) (fsub now (time self))
            | None => self
            end in
          let '(self, rest, raised) := drain self (stdout child) in
          (set_process self
             (Some (mkPopen (exits_after child) (returncode child) rest)),
           raised)
      | None => (self, Some (Raised "AttributeError"))
      end
  | _ => (self, None)
  end.

(** The job after its poll step. *)
Definition polled (now : float) (self : Program) : Program :=
  fst (check_status_and_process_output self now).

(** ** The pool *)

(** What [print_output_summary] puts on the status line. *)
Record Summary : Type := mkSummary {
  waiting : Z;
  running : Z;
  running_perc_avg : float;
  running_eta_avg : float;
  finished : Z;
  finished_avg : float;
  error : Z
}.

(** The class-level attributes of [ProcManager] and [Program], the clock,
    and the status lines printed so far (latest first). [_proc], the
    generator over [procs], is the index of the job it yields next. *)
Record Pool : Type := mkPool {
  procs : list Program;
  _proc : nat;
  n_process : Z;
  t_process : Z;
  sleep_sec : float;
  clock : float;
  csv : option string;
  output_file : option string;
  final_dir : option string;
  remove : bool;
  console : list Summary
}.

(** How set-up, and the monitor loop, end: with a pool, or early. *)
Inductive Outcome : Type :=
| Ok (st : Pool)
| Stopped (why : Failure).

Definition set_procs (st : Pool) (v : list Program) : Pool :=
  mkPool v (_proc st) (n_process st) (t_process st) (sleep_sec st) (clock st)
         (csv st) (output_file st) (final_dir st) (remove st) (console st).

Definition set__proc (st : Pool) (v : nat) : Pool :=
  mkPool (procs st) v (n_process st) (t_process st) (sleep_sec st) (clock st)
         (csv st) (output_file st) (final_dir st) (remove st) (console st).

Definition set_clock (st : Pool) (v : float) : Pool :=
  mkPool (procs st) (_proc st) (n_process st) (t_process st) (sleep_sec st) v
         (csv st) (output_file st) (final_dir st) (remove st) (console st).

Definition set_console (st : Pool) (v : list Summary) : Pool :=
  mkPool (procs st) (_proc st) (n_process st) (t_process st) (sleep_sec st)
         (clock st) (csv st) (output_file st) (final_dir st) (remove st) v.

(** Assignment to the [i]-th element of a list; nothing happens out of
    range (the pool never writes there). *)
Fixpoint set_nth {A : Type} (i : nat) (x : A) (l : list A) : list A :=
  match l, i with
  | [], _ => []
  | _ :: l', O => x :: l'
  | y :: l', S i' => y :: set_nth i' x l'
  end.

(** [ProcManager._next_proc]: the next job of the generator is launched;
    [(False, count)] when the generator is exhausted. *)
Definition _next_proc (count : Z) (st : Pool) : (bool * Z) * Pool :=
  match nth_error (procs st) (_proc st) with
  | None => ((false, count), st)
  | Some job =>
      let job := invoke_process job (clock st) in
      let st := set__proc (set_procs st (set_nth (_proc st) job (procs st)))
                          (S (_proc st)) in
      match process job with
      | Some _ => ((true, count + 1), st)
      | None => ((true, count), st)
      end
  end.

(** The admission loop shared by [gen_init_processes] and
    [monitor_output_loop]:
    [while count<n_process: (procs_remaining,count) = _next_proc(count);
     if not procs_remaining: break]. *)
Fixpoint fill_loop (fuel : nat) (count : Z) (st : Pool) : option (Z * Pool) :=
  if count <? n_process st then
    match fuel with
    | O => None
    | S fuel' =>
        let '((procs_remaining, count), st) := _next_proc count st in
        if procs_remaining then fill_loop fuel' count st else Some (count, st)
    end
  else Some (count, st).

(** Every round but the last moves the generator on, so this much fuel
    is enough (see [fill_loop_total]). *)
Definition fill_fuel (st : Pool) : nat := S (List.length (procs st) - _proc st)%nat.

Definition fill_slots (count : Z) (st : Pool) : Z * Pool :=
  match fill_loop (fill_fuel st) count st with
  | Some r => r
  | None => (count, st)
  end.

(** [ProcManager.gen_init_processes]. *)
Definition gen_init_processes (st : Pool) : Pool := snd (fill_slots 0 st).

(** The [for proc in cls.procs] loop of [monitor_output_loop]; an
    exception in the poll step of a job ends it. *)
Fixpoint poll_all (ps : list Program) (now : float) (p_remain : bool) (count : Z)
  : Failure + (list Program * bool * Z) :=
  match ps with
  | [] => inr ([], p_remain, count)
  | proc :: rest =>
      match check_status_and_process_output proc now with
      | (_, Some why) => inl why
      | (proc, None) =>
          let s := status proc in
          let p_remain :=
            if State_eqb WAITING s || State_eqb RUNNING s then true else p_remain in
          let count := if State_eqb RUNNING s then count + 1 else count in
          match poll_all rest now p_remain count with
          | inl why => inl why
          | inr (rest, p_remain, count) => inr (proc :: rest, p_remain, count)
          end
      end
  end.

(** The accumulators of the loop of [print_output_summary]. *)
Record Tally : Type := mkTally {
  finish_time : float;
  running_perc_sum : Z;
  running_eta_sum : float;
  running_eta_c : Z;
  n_finished : Z;
  n_waiting : Z;
  n_running : Z;
  n_error : Z
}.

Definition tally_step (t : Tally) (proc : Program) : Tally :=
  match status proc with
  | FINISH =>
      mkTally (fadd (finish_time t) (time proc)) (running_perc_sum t)
              (running_eta_sum t) (running_eta_c t) (n_finished t + 1)
              (n_waiting t) (n_running t) (n_error t)
  | WAITING =>
      mkTally (finish_time t) (running_perc_sum t) (running_eta_sum t)
              (running_eta_c t) (n_finished t) (n_waiting t + 1) (n_running t)
              (n_error t)
  | RUNNING =>
      if truthy_float (running_eta proc) then
        mkTally (finish_time t) (running_perc_sum t + running_perc proc)
                (fadd (running_eta_sum t) (running_eta proc))
                (running_eta_c t + 1) (n_finished t) (n_waiting t)
                (n_running t + 1) (n_error t)
      else
        mkTally (finish_time t) (running_perc_sum t + running_perc proc)
                (running_eta_sum t) (running_eta_c t) (n_finished t)
                (n_waiting t) (n_running t + 1) (n_error t)
  | ERROR =>
      mkTally (finish_time t) (running_perc_sum t) (running_eta_sum t)
              (running_eta_c t) (n_finished t) (n_waiting t) (n_running t)
              (n_error t + 1)
  end.

Definition tally (ps : list Program) : Tally :=
  fold_left tally_step ps (mkTally fzero 0 fzero 0 0 0 0 0).

(** The numbers on the status line, in its order: waiting, running, percent,
    ETA in seconds, finished, elapsed seconds, errors. The averages are
    shown rounded, the two times as durations; the first of these that
    cannot be shown raises. *)
Definition status_line (s : Summary) : Failure + list Z :=
  match py_round (running_perc_avg s) with
  | inl why => inl why
  | inr perc =>
      match duration (running_eta_avg s) with
      | inl why => inl why
      | inr eta =>
          match duration (finished_avg s) with
          | inl why => inl why
          | inr elapsed =>
              inr [waiting s; running s; perc; eta; finished s; elapsed; error s]
          end
      end
  end.

(** [Program.print_output_summary]: the values the status line is
    formatted from, when it can be formatted. *)
Definition print_output_summary (ps : list Program) : Failure + Summary :=
  let t := tally ps in
  match (if n_running t =? 0 then inr fzero
         else truediv (running_perc_sum t) (n_running t)) with
  | inl why => inl why
  | inr running_perc_avg =>
      let s :=
        mkSummary
          (n_waiting t)
          (n_running t)
          running_perc_avg
          (if running_eta_c t =? 0 then fzero
           else fdiv (running_eta_sum t) (of_int (running_eta_c t)))
          (n_finished t)
          (if n_finished t =? 0 then fzero
           else fdiv (finish_time t) (of_int (n_finished t)))
          (n_error t) in
      match status_line s with
      | inl why => inl why
      | inr _ => inr s
      end
  end.

(** One round of the [while (p_remain)] loop of [monitor_output_loop]: the
    exception that ends it, or [p_remain] and the pool at its end. *)
Definition tick (st : Pool) : Failure + (bool * Pool) :=
  match sleep (sleep_sec st) with
  | Some why => inl why
  | None =>
      let st := set_clock st (fadd (clock st) (sleep_sec st)) in
      match poll_all (procs st) (clock st) false 0 with
      | inl why => inl why
      | inr (ps, p_remain, count) =>
          let st := set_procs st ps in
          let (_, st) := fill_slots count st in
          match print_output_summary (procs st) with
          | inl why => inl why
          | inr s => inr (p_remain, set_console st (s :: console st))
          end
      end
  end.

(** [ProcManager.monitor_output_loop]: how it ends; [None] when the fuel
    runs out before it does. *)
Fixpoint monitor_output_loop (fuel : nat) (st : Pool) : option Outcome :=
  match fuel with
  | O => None
  | S fuel' =>
      match tick st with
      | inl why => Some (Stopped why)
      | inr (p_remain, st) =>
          if p_remain then monitor_output_loop fuel' st else Some (Ok st)
      end
  end.

(** ** Setting the pool up *)

(** The parsed command line. *)
Module Args.
Record t : Type := mk {
  sim_file : string;
  n_events : Z;
  dir : option string;
  remove : bool;
  output : option string;
  additional : option string;
  csv_input : option string;
  t_process : option Z;
  n_process : option Z;
  sleep_sec : float;
  verbose : bool
}.
End Args.

(** What the machine answers during set-up: [os.cpu_count()], the rows
    [csv.DictReader] gives for the CSV file (each row its items in order;
    [None]: the file cannot be opened), whether [mcxtrace] and [gcc] both
    succeed, and what launching the job with a given file name will do. *)
Record Host : Type := mkHost {
  cpu_count : option Z;
  csv_rows : option (list (list (string * string)));
  compile_ok : bool;
  launch : string -> option Popen
}.

(** Truth value of an optional string, an optional integer. *)
Definition truthy (o : option string) : bool :=
  match o with
  | Some v => negb (v =? "")%string
  | None => false
  end.

Definition truthy_int (o : option Z) : bool :=
  match o with
  | Some v => negb (v =? 0)
  | None => false
  end.

(** [str(n)] for an integer. *)
Definition py_str (n : Z) : string := NilZero.string_of_int (Z.to_int n).

(** [s.replace('.', '_')]. *)
Fixpoint replace_dot (s : string) : string :=
  match s with
  | EmptyString => EmptyString
  | String c s' =>
      String (if Ascii.eqb c "."%char then "_"%char else c) (replace_dot s')
  end.

(** The inner loop over the items of one CSV row: the parameter string, the
    file name and the list of file names seen; [None] on a repeated name. *)
Fixpoint csv_row (items : list (string * string)) (params : string)
    (filename : option string) (filename_list : list string)
  : option (string * option string * list string) :=
  match items with
  | [] => Some (params, filename, filename_list)
  | (key, value) :: items' =>
      if (key =? "filename")%string then
        if existsb (String.eqb value) filename_list then None
        else csv_row items' params (Some value) (filename_list ++ [value])%list
      else csv_row items' (params ++ key ++ "=" ++ value ++ " ")%string
                   filename filename_list
  end.

(** The loop over the rows of the CSV file. *)
Fixpoint csv_jobs (host : Host) (rows : list (list (string * string)))
    (filename_list : list string) (acc : list Program) (count : Z)
  : Failure + (list Program * Z) :=
  match rows with
  | [] => inr (acc, count)
  | row :: rows' =>
      match csv_row row " " None filename_list with
      | None =>
          inl (SysExit "error: you must specify unique filenames for each row in the CSV file")
      | Some (params, filename, filename_list) =>
          match filename with
          | Some (String c f' as f) =>
              csv_jobs host rows' filename_list
                (acc ++ [Program_init params f (replace_dot f) (launch host f)])%list
                (count + 1)
          | _ =>
              inl (SysExit "error: you must provide a 'filename' header in the CSV file")
          end
      end
  end.

(** The jobs of the mode without a CSV file: [range(t_process)]. *)
Definition flat_jobs (host : Host) (t_process : Z) : list Program :=
  map (fun i : nat =>
         let filename := ("sim_data_" ++ py_str (Z.of_nat i + 1) ++ ".dat")%string in
         Program_init "" filename (replace_dot filename) (launch host filename))
      (seq 0 (Z.to_nat t_process)).

(** [args.n_process if args.n_process else os.cpu_count()]: the limit the
    user configured. *)
Definition configured_limit (args : Args.t) (host : Host) : option Z :=
  if truthy_int (Args.n_process args) then Args.n_process args
  else cpu_count host.

(** [Program.setup_proc], with [ProcManager.setup_proc] inlined at its
    start. [ceil(log10(n))] raises for [n <= 0]; its value only pads the
    status line. *)
Definition setup_proc (args : Args.t) (host : Host) : Outcome :=
  match configured_limit args host with
  | None => Stopped (Raised "TypeError")
  | Some n_process =>
      if n_process <? 1 then Stopped (SysExit "error: n_process<1")
      else
        let sleep_sec :=
          if truthy_float (Args.sleep_sec args) then Args.sleep_sec args
          else of_int 1 in
        let jobs :=
          if truthy (Args.csv_input args) then
            if truthy_int (Args.t_process args) then
              inl (SysExit "error: cannot specify CSV file and t_process at same time")
            else
              match csv_rows host with
              | None => inl (Raised "OSError")
              | Some rows => csv_jobs host rows [] [] 0
              end
          else
            let t_process :=
              match Args.t_process args with
              | Some v => if v =? 0 then n_process else v
              | None => n_process
              end in
            inr (flat_jobs host t_process, t_process) in
        match jobs with
        | inl why => Stopped why
        | inr (procs, t_process) =>
            let n_process :=
              if t_process <? n_process then t_process else n_process in
            if (n_process <=? 0) || (t_process <=? 0) then Stopped (Raised "ValueError")
            else if compile_ok host then
              Ok (mkPool procs 0 n_process t_process sleep_sec fzero
                    (if truthy (Args.csv_input args) then Args.csv_input args
                     else None)
                    (if truthy (Args.output args) then Args.output args else None)
                    (if truthy (Args.dir args) then Args.dir args else None)
                    (Args.remove args) [])
            else Stopped (SysExit "error: when compiling")
        end
  end.

(** ** Cleaning up *)

(** The file system as the clean-up pass meets it: a state [W] of the world,
    what the two existence tests answer in it, and what each file operation
    of the pass makes of it, the next state or an exception. Closing a file
    is part of the operation that used it. *)
Record OS (W : Type) : Type := mkOS {
  (* os.path.isfile(path) *)
  isfile : W -> string -> bool;
  (* os.path.isdir(path) *)
  isdir : W -> string -> bool;
  (* open(path, 'wb') *)
  open_wb : W -> string -> Failure + W;
  (* open(src, 'rb') and copyfileobj(fd, wfd), wfd the file opened at dst *)
  copyfileobj : W -> string -> string -> Failure + W;
  (* os.makedirs(path, exist_ok=True) *)
  makedirs : W -> string -> Failure + W;
  (* shutil.copy(src, dst) *)
  copy : W -> string -> string -> Failure + W;
  (* shutil.rmtree(path) *)
  rmtree : W -> string -> Failure + W
}.

Arguments isfile {W} _ _ _.
Arguments isdir {W} _ _ _.
Arguments open_wb {W} _ _ _.
Arguments copyfileobj {W} _ _ _ _.
Arguments makedirs {W} _ _ _.
Arguments copy {W} _ _ _ _.
Arguments rmtree {W} _ _ _.

Fixpoint ends_with_slash (s : string) : bool :=
  match s with
  | EmptyString => false
  | String c EmptyString => Ascii.eqb c "/"%char
  | String _ s' => ends_with_slash s'
  end.

(** [os.path.join(a, b)] on POSIX. *)
Definition path_join (a b : string) : string :=
  match b with
  | String "/"%char _ => b
  | _ => if (a =? "")%string || ends_with_slash a then (a ++ b)%string
         else (a ++ "/" ++ b)%string
  end.

(** The artifact a job is expected to leave. *)
Definition artifact (proc : Program) : string :=
  path_join (dir_ proc) (filename proc).

(** [Program.remove_dir(state)] from the world [w]: the world it leaves,
    the directories it removed, in order, and the exception that ended it,
    if any. *)
Fixpoint remove_dir {W : Type} (os : OS W) (state : State) (ps : list Program)
    (w : W) : W * list string * option Failure :=
  match ps with
  | [] => (w, [], None)
  | proc :: rest =>
      if State_eqb state (status proc) && isdir os w (dir_ proc) then
        match rmtree os w (dir_ proc) with
        | inl why => (w, [], Some why)
        | inr w =>
            let '(w, gone, raised) := remove_dir os state rest w in
            (w, dir_ proc :: gone, raised)
        end
      else remove_dir os state rest w
  end.

(** The loop over the jobs that the concatenation and the copy share:
    [op] is applied to the artifact of every FINISH job whose artifact is a
    file when its turn comes. The world it leaves, the artifacts it handled,
    in order, and the exception that ended it, if any. *)
Fixpoint transfer {W : Type} (os : OS W) (op : W -> string -> Failure + W)
    (ps : list Program) (w : W) : W * list string * option Failure :=
  match ps with
  | [] => (w, [], None)
  | proc :: rest =>
      if State_eqb FINISH (status proc) && isfile os w (artifact proc) then
        match op w (artifact proc) with
        | inl why => (w, [], Some why)
        | inr w =>
            let '(w, done, raised) := transfer os op rest w in
            (w, artifact proc :: done, raised)
        end
      else transfer os op rest w
  end.

(** The [if cls.output_file:] block of [check_and_cleanup]: the artifacts
    written to the output file ([None]: the file was not opened). *)
Definition concatenate {W : Type} (os : OS W) (st : Pool) (w : W)
  : W * option (list string) * option Failure :=
  match output_file st with
  | Some out =>
      if truthy (output_file st) then
        match open_wb os w out with
        | inl why => (w, None, Some why)
        | inr w =>
            let '(w, done, raised) :=
              transfer os (fun w src => copyfileobj os w src out) (procs st) w in
            (w, Some done, raised)
        end
      else (w, None, None)
  | None => (w, None, None)
  end.

(** The [if cls.final_dir:] block: the artifacts copied to the final
    directory ([None]: the directory was not made). *)
Definition copy_all {W : Type} (os : OS W) (st : Pool) (w : W)
  : W * option (list string) * option Failure :=
  match final_dir st with
  | Some d =>
      if truthy (final_dir st) then
        match makedirs os w d with
        | inl why => (w, None, Some why)
        | inr w =>
            let '(w, done, raised) :=
              transfer os (fun w src => copy os w src d) (procs st) w in
            (w, Some done, raised)
        end
      else (w, None, None)
  | None => (w, None, None)
  end.

(** What the clean-up pass did: the integrity errors printed, the artifacts
    written to the output file, the artifacts copied to the final directory,
    the directories removed, the exception that ended the pass, if any, and
    the world it left. *)
Record Cleanup (W : Type) : Type := mkCleanup {
  errors : list string;
  concatenated : option (list string);
  copied : option (list string);
  removed : list string;
  raised : option Failure;
  world : W
}.

Arguments mkCleanup {W} _ _ _ _ _ _.
Arguments errors {W} _.
Arguments concatenated {W} _.
Arguments copied {W} _.
Arguments removed {W} _.
Arguments raised {W} _.
Arguments world {W} _.

(** The block of [check_and_cleanup] under [if not (cls.csv and errors)]:
    concatenation, copy, removal, each if it was asked for, up to the first
    exception. *)
Definition passes {W : Type} (os : OS W) (st : Pool) (w : W)
    (errors : list string) : Cleanup W :=
  match concatenate os st w with
  | (w, concatenated, Some why) =>
      mkCleanup errors concatenated None [] (Some why) w
  | (w, concatenated, None) =>
      match copy_all os st w with
      | (w, copied, Some why) =>
          mkCleanup errors concatenated copied [] (Some why) w
      | (w, copied, None) =>
          if remove st then
            let '(w, gone, raised) := remove_dir os FINISH (procs st) w in
            mkCleanup errors concatenated copied gone raised w
          else mkCleanup errors concatenated copied [] None w
      end
  end.

(** [Program.check_and_cleanup], from the world [w]. *)
Definition check_and_cleanup {W : Type} (os : OS W) (st : Pool) (w : W)
  : Cleanup W :=
  if truthy (output_file st) || truthy (final_dir st) || remove st then
    let errors :=
      map artifact
          (filter (fun proc => State_eqb FINISH (status proc)
                               && negb (isfile os w (artifact proc)))
                  (procs st)) in
    if negb (truthy (csv st) && negb (match errors with [] => true | _ => false end))
    then passes os st w errors
    else mkCleanup errors None None [] None w
  else mkCleanup [] None None [] None w.

(** ** Vocabulary of the properties *)

(** Every character of [s] is in the class [p]. *)
Fixpoint all (p : ascii -> bool) (s : string) : bool :=
  match s with
  | EmptyString => true
  | String c s' => p c && all p s'
  end.

(** A non-empty run of decimal digits. *)
Definition is_number (s : string) : Prop :=
  s <> "" /\ all is_digit s = true.

(** The fraction of a decimal number: nothing, or a point and digits. *)
Definition is_fraction (s : string) : Prop :=
  s = "" \/ exists fp, s = String "."%char fp /\ all is_digit fp = true.

(** A non-empty run of word characters. *)
Definition is_unit_word (s : string) : Prop :=
  s <> "" /\ all is_word s = true.

(** The number [x] of a trace line, brought to seconds: as it is for s,
    times 60 for min, times 3600 for h, in floating point. *)
Definition to_seconds (unit : string) (x : float) : float :=
  if (unit =? "s")%string then x
  else if (unit =? "min")%string then fmul (of_int 60) x
  else if (unit =? "h")%string then fmul (of_int 3600) x
  else fzero.


(** The line [Trace ETA <time> [<unit>] %<mid> <percent><ws>]. *)
Definition trace_line (time unit mid percent ws : string) : string :=
  ("Trace ETA " ++ time ++ " [" ++ unit ++ "] %" ++ mid ++ " " ++ percent ++ ws)%string.

(** [b] does not go on with a character of [p]. *)
Definition stops (p : cset) (b : string) : bool :=
  match b with
  | EmptyString => true
  | String c _ => negb (cset_match p c)
  end.

(** What follows the progress marks: blank, percent, white space, end. *)
Definition tail_re : regex :=
  Lit " " (Seq (Named "percent" (Plus Digit)) (Seq (Star Space) Eol)).

(** A job to try the parser on. *)
Definition sample_job : Program :=
  Program_init "" "sim_data_1.dat" "sim_data_1_dat" None.

(** Number of jobs of [ps] in state [s]. *)
Definition count_state (s : State) (ps : list Program) : Z :=
  Z.of_nat (List.length (filter (fun proc => State_eqb s (status proc)) ps)).

(** A pool before the first launch: the generator at its start and every
    job WAITING. *)
Definition initial (st : Pool) : Prop :=
  _proc st = 0%nat /\ Forall (fun proc => status proc = WAITING) (procs st).

(** The states of a run that starts in [st0]: the state after the initial
    batch, and the state at the end of each round of the monitor loop. *)
Inductive reachable (st0 : Pool) : Pool -> Prop :=
| reach_init : reachable st0 (gen_init_processes st0)
| reach_tick st p_remain st' :
    reachable st0 st -> tick st = inr (p_remain, st') -> reachable st0 st'.

(** The pool after the sleep, the poll steps and the refill of a round. *)
Definition refilled (st : Pool) : Pool :=
  let now := fadd (clock st) (sleep_sec st) in
  let ps := map (polled now) (procs st) in
  snd (fill_slots (count_state RUNNING ps) (set_procs (set_clock st now) ps)).

(** Where the exception that ends a round comes from: the [sleep], the
    poll step of a job, or the status line. *)
Definition round_raises (st : Pool) (why : Failure) : Prop :=
  sleep (sleep_sec st) = Some why
  \/ (exists proc,
        In proc (procs st)
        /\ snd (check_status_and_process_output proc
                  (fadd (clock st) (sleep_sec st))) = Some why)
  \/ print_output_summary (procs (refilled st)) = inl why.

(** The pool after one more round, when the round ends without exception. *)
Definition after_tick (st : Pool) : Pool :=
  match tick st with
  | inr (_, st') => st'
  | inl _ => st
  end.

(** A job in a final state. *)
Definition terminal (proc : Program) : Prop :=
  status proc = FINISH \/ status proc = ERROR.

(** The child of a job exits after finitely many polls. *)
Definition exits (child : Popen) : Prop := exits_after child <> None.

(** Every child the pool may spawn exits. *)
Definition children_exit (st : Pool) : Prop :=
  Forall (fun proc => forall child, spawn proc = Some child -> exits child)
         (procs st).

(** A job that keeps the monitor loop going. *)
Definition active (proc : Program) : bool :=
  State_eqb WAITING (status proc) || State_eqb RUNNING (status proc).

(** A pool to try admission on: four jobs for two slots; the first launch
    fails, the others work. *)
Definition sample_pool : Pool :=
  mkPool [Program_init "" "a.dat" "a_dat" None;
          Program_init "" "b.dat" "b_dat" (Some (mkPopen (Some 1%nat) 0 []));
          Program_init "" "c.dat" "c_dat" (Some (mkPopen (Some 0%nat) 3 [Text "55 "]));
          Program_init "" "d.dat" "d_dat" (Some (mkPopen (Some 2%nat) 0 []))]
         0 2 4 (of_int 1) fzero None None None false [].

(** Polls a child still answers [None] to. *)
Definition life (child : Popen) : nat :=
  match exits_after child with
  | Some n => n
  | None => 0%nat
  end.

(** Rounds of the monitor loop a job can still take part in. *)
Definition work (proc : Program) : nat :=
  match status proc with
  | WAITING =>
      match spawn proc with
      | Some child => (life child + 2)%nat
      | None => 1%nat
      end
  | RUNNING =>
      match process proc with
      | Some child => (life child + 1)%nat
      | None => 0%nat
      end
  | _ => 0%nat
  end.

Definition work_left (ps : list Program) : nat := list_sum (map work ps).

(** A job whose children, the one it may spawn and the one it runs, exit. *)
Definition healthy (proc : Program) : Prop :=
  (forall child, spawn proc = Some child -> exits child)
  /\ (status proc = RUNNING ->
      exists child, process proc = Some child /\ exits child).

(** The pool while it runs: the jobs before the generator's position are
    the ones that left WAITING, every job is healthy, and there is a slot. *)
Definition sound (st : Pool) : Prop :=
  (forall i proc, nth_error (procs st) i = Some proc ->
     (status proc = WAITING <-> (_proc st <= i)%nat))
  /\ Forall healthy (procs st)
  /\ 1 <= n_process st.

(** Sum and mean of a list of floats, added up from 0 in the order of the
    list; the mean of no number is 0. *)
Definition fsum (xs : list float) : float := fold_left fadd xs fzero.

Definition fmean (xs : list float) : float :=
  match xs with
  | [] => fzero
  | _ => fdiv (fsum xs) (of_int (Z.of_nat (List.length xs)))
  end.

(** Sum and mean of a list of integers; the mean is a float, or the
    exception of the division. *)
Definition isum (ns : list Z) : Z := fold_left Z.add ns 0.

Definition imean (ns : list Z) : Failure + float :=
  match ns with
  | [] => inr fzero
  | _ => truediv (isum ns) (Z.of_nat (List.length ns))
  end.

(** The jobs in state [s]. *)
Definition in_state (s : State) (ps : list Program) : list Program :=
  filter (fun proc => State_eqb s (status proc)) ps.

(** The RUNNING jobs that report an ETA. *)
Definition reporting (ps : list Program) : list Program :=
  filter (fun proc => truthy_float (running_eta proc)) (in_state RUNNING ps).

(** The summary by populations: the four counts, the given average
    percent, the mean ETA of the RUNNING jobs that report one, the mean time
    of the FINISH jobs. *)
Definition summary_by_state (ps : list Program) (perc : float) : Summary :=
  mkSummary (count_state WAITING ps) (count_state RUNNING ps) perc
            (fmean (map running_eta (reporting ps)))
            (count_state FINISH ps)
            (fmean (map time (in_state FINISH ps)))
            (count_state ERROR ps).

(** A RUNNING job with a given percent and ETA. *)
Definition running_job (perc : Z) (eta : float) : Program :=
  mkProgram (Some (mkPopen None 0 [])) RUNNING fzero "" "a.dat" "a_dat" eta perc
            (Some (mkPopen None 0 [])).

(** The summary sentence, read with both averages over the same jobs: the
    average percent taken, like the average ETA, over the RUNNING jobs with a
    nonzero ETA. *)
Definition summary_as_claimed : Prop :=
  forall ps s,
    print_output_summary ps = inr s ->
    inr (running_perc_avg s) = imean (map running_perc (reporting ps)).

(** A FINISH job named [name]. *)
Definition finished_job (name : string) : Program :=
  mkProgram None FINISH (of_int 1) "" (name ++ ".dat") (name ++ "_dat") fzero 0
            None.

(** A pool after its run, set up from a CSV file, with an output file asked
    for: two FINISH jobs. *)
Definition csv_pool : Pool :=
  mkPool [finished_job "a"; finished_job "b"] 2 2 2 (of_int 1) (of_int 3)
         (Some "jobs.csv") (Some "all.dat") None false [].

(** A small file system to try the pass on: the files and the directories
    that exist, and the paths nothing can be written to. *)
Record Disk : Type := mkDisk {
  files : list string;
  dirs : list string;
  locked : list string
}.

Definition mem (x : string) (l : list string) : bool :=
  existsb (String.eqb x) l.

(** The last component of a path; [acc] is the component read so far. *)
Fixpoint basename_from (acc s : string) : string :=
  match s with
  | EmptyString => acc
  | String c s' =>
      if Ascii.eqb c "/"%char then basename_from "" s'
      else basename_from (acc ++ String c "") s'
  end.

Definition basename (s : string) : string := basename_from "" s.

(** The directory part of a path: what comes before its last slash;
    [seen] is the path read so far, [dir] the directory part found so far. *)
Fixpoint dirname_from (seen dir s : string) : string :=
  match s with
  | EmptyString => dir
  | String c s' =>
      if Ascii.eqb c "/"%char then dirname_from (seen ++ "/") seen s'
      else dirname_from (seen ++ String c "") dir s'
  end.

Definition dirname (s : string) : string := dirname_from "" "" s.

(** [path] is [d] or lies below it. *)
Definition below (d path : string) : bool :=
  (path =? d)%string || String.prefix (d ++ "/") path.

(** A file can be created at [path]: it is not locked, it is not a
    directory, and its directory is the current one or exists. *)
Definition writable (w : Disk) (path : string) : option Failure :=
  if mem path (locked w) then Some (Raised "PermissionError")
  else if mem path (dirs w) then Some (Raised "IsADirectoryError")
  else if negb ((dirname path =? "")%string || mem (dirname path) (dirs w))
  then Some (Raised "FileNotFoundError")
  else None.

(** What the operations do on it. Writing needs a writable path, reading a
    file that is there; [copy] writes into the directory it is given, or to
    the path itself when that is no directory, and refuses to copy a file
    onto itself; [makedirs] accepts a directory that is there and refuses a
    file; [rmtree] takes the directory and all below it away. *)
Definition disk : OS Disk :=
  mkOS Disk
    (fun w path => mem path (files w))
    (fun w path => mem path (dirs w))
    (fun w path =>
       match writable w path with
       | Some why => inl why
       | None => inr (mkDisk (path :: files w) (dirs w) (locked w))
       end)
    (fun w src dst =>
       if mem src (files w) then inr w else inl (Raised "FileNotFoundError"))
    (fun w path =>
       if mem path (files w) then inl (Raised "FileExistsError")
       else if mem path (dirs w) then inr w
       else if mem path (locked w) then inl (Raised "PermissionError")
       else inr (mkDisk (files w) (path :: dirs w) (locked w)))
    (fun w src dst =>
       let target := if mem dst (dirs w)
                     then (dst ++ "/" ++ basename src)%string else dst in
       if negb (mem src (files w)) then inl (Raised "FileNotFoundError")
       else if (target =? src)%string then inl (Raised "SameFileError")
       else
         match writable w target with
         | Some why => inl why
         | None => inr (mkDisk (target :: files w) (dirs w) (locked w))
         end)
    (fun w path =>
       if negb (mem path (dirs w)) then inl (Raised "FileNotFoundError")
       else if mem path (locked w) then inl (Raised "PermissionError")
       else inr (mkDisk (filter (fun f => negb (below path f)) (files w))
                        (filter (fun d => negb (below path d)) (dirs w))
                        (locked w))).

(** A world where the artifact of job a is there, the one of job b is not,
    and both job directories exist. *)
Definition only_a : Disk :=
  mkDisk ["a_dat/a.dat"] ["a_dat"; "b_dat"] [].

(** A FINISH job whose artifact is there, in the world [w]. *)
Definition verified {W : Type} (os : OS W) (w : W) (proc : Program) : bool :=
  State_eqb FINISH (status proc) && isfile os w (artifact proc).

(** The clean-up sentence as it is worded: every missing artifact of a
    FINISH job is reported and left out, and every verified artifact is still
    concatenated and copied where that was asked for. *)
Definition cleanup_as_claimed : Prop :=
  forall st w missing kept,
    In missing (procs st) -> status missing = FINISH ->
    isfile disk w (artifact missing) = false ->
    In kept (procs st) -> verified disk w kept = true ->
    let r := check_and_cleanup disk st w in
    In (artifact missing) (errors r)
    /\ (truthy (output_file st) = true ->
        exists l, concatenated r = Some l
                  /\ In (artifact kept) l /\ ~ In (artifact missing) l)
    /\ (truthy (final_dir st) = true ->
        exists l, copied r = Some l
                  /\ In (artifact kept) l /\ ~ In (artifact missing) l).

(** One file operation of the concatenation or of the copy of the pass on
    [st]: from the world [w] to the world [w']. *)
Inductive pass_step {W : Type} (os : OS W) (st : Pool) (w w' : W) : Prop :=
| step_open out :
    output_file st = Some out -> open_wb os w out = inr w' ->
    pass_step os st w w'
| step_append out src :
    output_file st = Some out -> copyfileobj os w src out = inr w' ->
    pass_step os st w w'
| step_makedirs d :
    final_dir st = Some d -> makedirs os w d = inr w' ->
    pass_step os st w w'
| step_copy d src :
    final_dir st = Some d -> copy os w src d = inr w' ->
    pass_step os st w w'.

(** From [w] to [w'] no artifact of the jobs [ps] appears or disappears. *)
Definition keeps {W : Type} (os : OS W) (ps : list Program) (w w' : W) : Prop :=
  forall proc,
    In proc ps -> isfile os w' (artifact proc) = isfile os w (artifact proc).

(** The pass does not disturb what it reads: none of its file operations
    creates or deletes the artifact of a job. It does when, say, the output
    file is itself the artifact of a job. *)
Definition undisturbed {W : Type} (os : OS W) (st : Pool) : Prop :=
  forall w w', pass_step os st w w' -> keeps os (procs st) w w'.

(** Removing a tree leaves no directory at its root and creates none. *)
Definition removes_trees {W : Type} (os : OS W) : Prop :=
  forall w d w',
    rmtree os w d = inr w' ->
    isdir os w' d = false
    /\ (forall d', isdir os w' d' = true -> isdir os w d' = true).

(** [l] is the beginning of [l']. *)
Definition starts {A : Type} (l l' : list A) : Prop :=
  exists rest, l' = (l ++ rest)%list.

(** The same pool set up without a CSV file. *)
Definition flat_pool : Pool :=
  mkPool [finished_job "a"; finished_job "b"] 2 2 2 (of_int 1) (of_int 3)
         None (Some "all.dat") (Some "final") true [].

(** The same pool with the output file asked for at the place of the
    missing artifact. *)
Definition clash_pool : Pool :=
  mkPool [finished_job "a"; finished_job "b"] 2 2 2 (of_int 1) (of_int 3)
         None (Some "b_dat/b.dat") (Some "final") false [].

(** A world where the output file cannot be written. *)
Definition locked_output : Disk :=
  mkDisk ["a_dat/a.dat"] ["a_dat"; "b_dat"] ["all.dat"].

(** A command line asking for eight slots and three jobs, and a machine
    that compiles the instrument and launches every job. *)
Definition sample_args : Args.t :=
  Args.mk "sim.instr" 1000 None false None None None (Some 3) (Some 8)
          (of_int 1) false.

Definition sample_host : Host :=
  mkHost (Some 4) None true (fun _ => Some (mkPopen (Some 1%nat) 0 [])).

(** A command line with a CSV file, and a machine where that file has two
    rows with the same file name. *)
Definition csv_args : Args.t :=
  Args.mk "sim.instr" 1000 None false None None (Some "jobs.csv") None (Some 2)
          (of_int 1) false.

Definition duplicate_rows : Host :=
  mkHost (Some 4)
         (Some [[("filename", "foo.dat"); ("source_x", "0.1")];
                [("filename", "foo.dat"); ("source_x", "0.2")]])
         true (fun _ => Some (mkPopen (Some 1%nat) 0 [])).

Definition two_rows : Host :=
  mkHost (Some 4)
         (Some [[("filename", "foo.dat"); ("source_x", "0.1")];
                [("source_x", "0.2"); ("filename", "bar.dat")]])
         true (fun _ => Some (mkPopen (Some 1%nat) 0 [])).

(** ** The console *)

(** [ConsolePrint]: the flag [_nl] and, as [screen], everything written to
    the terminal so far. A message ends with a line feed, a status with a
    carriage return. *)
Module ConsolePrint.

Record t : Type := mk {
  _nl : bool;
  screen : string
}.

Definition line_feed : string := String newline "".
Definition carriage_return : string := String (ascii_of_N 13) "".

(** What [print( *args)] writes before its [end]: the arguments, separated
    by blanks. *)
Fixpoint joined (args_ : list string) : string :=
  match args_ with
  | [] => ""
  | [a] => a
  | a :: rest => (a ++ " " ++ joined rest)%string
  end.

(** [ConsolePrint()]. *)
Definition init : t := mk true "".

(** [ConsolePrint.newline]. *)
Definition newline (self : t) : t :=
  if negb (_nl self) then mk true (screen self ++ line_feed) else self.

(** [ConsolePrint.print]. *)
Definition print (self : t) (args_ : list string) : t :=
  let self := newline self in
  mk (_nl self) (screen self ++ joined args_ ++ line_feed).

(** [ConsolePrint.status]. *)
Definition status (self : t) (args_ : list string) : t :=
  let self := if _nl self then mk false (screen self) else self in
  mk (_nl self) (screen self ++ joined args_ ++ carriage_return).

(** The calls a program makes on its console. *)
Inductive call : Type :=
| Newline
| Print (args_ : list string)
| Status (args_ : list string).

Definition step (self : t) (c : call) : t :=
  match c with
  | Newline => newline self
  | Print args_ => print self args_
  | Status args_ => status self args_
  end.

(** The console after a sequence of calls, from a fresh one. *)
Definition after (calls : list call) : t := fold_left step calls init.

(** [s] ends with the character [c]. *)
Fixpoint ends_with (c : ascii) (s : string) : bool :=
  match s with
  | EmptyString => false
  | String a EmptyString => Ascii.eqb a c
  | String _ s' => ends_with c s'
  end.

(** The cursor is at the start of an empty line. *)
Definition fresh_line (s : string) : Prop :=
  s = "" \/ ends_with Re.newline s = true.

End ConsolePrint.

(** ** Names derived from the simulation file *)

(** [s.replace(old, new)] for a non-empty [old]: the occurrences are taken
    from the left and do not overlap. [skip] characters of a replaced
    occurrence are still to be passed over. *)
Fixpoint replace_go (old new : string) (skip : nat) (s : string) : string :=
  match s with
  | EmptyString => EmptyString
  | String c s' =>
      match skip with
      | S skip' => replace_go old new skip' s'
      | O =>
          if String.prefix old s
          then (new ++ replace_go old new (String.length old - 1) s')%string
          else String c (replace_go old new 0 s')
      end
  end.

Definition py_replace (s old new : string) : string := replace_go old new 0 s.

(** [cls.sim_file_c] and [cls.sim_file_out] of [Program.setup_proc]: the
    two files set-up deletes, when they exist, before it compiles. *)
Definition sim_file_c (args : Args.t) : string :=
  py_replace (Args.sim_file args) ".instr" ".c".

Definition sim_file_out (args : Args.t) : string :=
  py_replace (Args.sim_file args) ".instr" ".out".

(** [Program.gen_command], with the class attributes it reads as
    arguments. *)
Definition gen_command (sim_file : string) (n_events : Z) (self : Program)
  : string :=
  ("./" ++ py_replace sim_file ".instr" ".out" ++ " -n " ++ py_str n_events
   ++ " -d " ++ dir_ self ++ " filename=" ++ path_join (dir_ self) (filename self)
   ++ params self)%string.

(** [old] occurs in [s]. *)
Fixpoint occurs (old s : string) : bool :=
  match s with
  | EmptyString => String.prefix old s
  | String _ s' => String.prefix old s || occurs old s'
  end.

(** ** The whole program *)

(** How [main] ends: it returns, after the clean-up pass and the line with
    the total time (in seconds here), or [sys.exit] or an exception ends it. *)
Inductive Exit (W : Type) : Type :=
| Done (st : Pool) (report : Cleanup W) (elapsed : Z)
| Failed (why : Failure).

Arguments Done {W} _ _ _.
Arguments Failed {W} _.

(** [main], with the world [w] the clean-up pass finds; [None] when the
    fuel runs out in the monitor loop. *)
Definition main {W : Type} (fuel : nat) (args : Args.t) (host : Host)
    (os : OS W) (w : W) : option (Exit W) :=
  match setup_proc args host with
  | Stopped why => Some (Failed why)
  | Ok st0 =>
      match monitor_output_loop fuel (gen_init_processes st0) with
      | None => None
      | Some (Stopped why) => Some (Failed why)
      | Some (Ok st) =>
          let report := check_and_cleanup os st w in
          match raised report with
          | Some why => Some (Failed why)
          | None =>
              match duration (fsub (clock st) (clock st0)) with
              | inl why => Some (Failed why)
              | inr elapsed => Some (Done st report elapsed)
              end
          end
      end
  end.

(** ** More vocabulary *)

(** The jobs still WAITING are the ones the generator has not yielded. *)
Definition ordered (st : Pool) : Prop :=
  forall i proc, nth_error (procs st) i = Some proc ->
    (status proc = WAITING <-> (_proc st <= i)%nat).

(** The moves of a job within one round. *)
Definition legal (a b : State) : Prop :=
  a = b
  \/ (a = WAITING /\ (b = RUNNING \/ b = ERROR))
  \/ (a = RUNNING /\ b = FINISH).

(** What a job is given when it is created. *)
Definition descriptor (proc : Program) : string * string * string * option Popen :=
  (params proc, filename proc, dir_ proc, spawn proc).

(** A RUNNING job whose child never exits. *)
Definition hung (proc : Program) : Prop :=
  status proc = RUNNING
  /\ exists child, process proc = Some child /\ exits_after child = None.

(** The command line with another [t_process], [n_process], [sleep_sec]. *)
Definition with_t_process (args : Args.t) (v : option Z) : Args.t :=
  Args.mk (Args.sim_file args) (Args.n_events args) (Args.dir args)
          (Args.remove args) (Args.output args) (Args.additional args)
          (Args.csv_input args) v (Args.n_process args) (Args.sleep_sec args)
          (Args.verbose args).

Definition with_n_process (args : Args.t) (v : option Z) : Args.t :=
  Args.mk (Args.sim_file args) (Args.n_events args) (Args.dir args)
          (Args.remove args) (Args.output args) (Args.additional args)
          (Args.csv_input args) (Args.t_process args) v (Args.sleep_sec args)
          (Args.verbose args).

Definition with_sleep_sec (args : Args.t) (v : float) : Args.t :=
  Args.mk (Args.sim_file args) (Args.n_events args) (Args.dir args)
          (Args.remove args) (Args.output args) (Args.additional args)
          (Args.csv_input args) (Args.t_process args) (Args.n_process args) v
          (Args.verbose args).

(** What a round may do to one job: poll it, or launch it from WAITING. *)
Definition moved (now : float) (before after : Program) : Prop :=
  after = polled now before
  \/ (status before = WAITING /\ after = invoke_process before now).

(** What set-up makes of a job's file name. *)
Definition well_named (host : Host) (proc : Program) : Prop :=
  filename proc <> ""
  /\ dir_ proc = replace_dot (filename proc)
  /\ spawn proc = launch host (filename proc).

(** A CSV file whose two file names differ only by a point. *)
Definition point_rows : Host :=
  mkHost (Some 4)
         (Some [[("filename", "a.b")]; [("filename", "a_b")]])
         true (fun _ => Some (mkPopen (Some 1%nat) 0 [])).

(** The invariant of the console: the flag says whether the cursor is at
    the start of an empty line or behind a status. *)
Definition console_inv (c : ConsolePrint.t) : Prop :=
  if ConsolePrint._nl c then ConsolePrint.fresh_line (ConsolePrint.screen c)
  else ConsolePrint.ends_with (ascii_of_N 13) (ConsolePrint.screen c) = true.

(** No point in [s]. *)
Definition pointless (s : string) : bool :=
  all (fun c => negb (Ascii.eqb c "."%char)) s.

(** A pool with no slot left and a child that never exits. *)
Definition hung_pool : Pool :=
  mkPool [mkProgram (Some (mkPopen None 0 [])) RUNNING fzero "" "a.dat" "a_dat"
                    fzero 0 (Some (mkPopen None 0 []))]
         1 1 1 (of_int 1) fzero None None None false [].

(** The sample pool with another interval between two rounds. *)
Definition sample_pool_sleeping (secs : float) : Pool :=
  mkPool (procs sample_pool) 0 2 4 secs fzero None None None false [].

(** A float that is a number: a zero or a finite one. *)
Definition finite (x : float) : bool :=
  match x with
  | S754_zero _ | S754_finite _ _ _ => true
  | _ => false
  end.

(** The mantissa of a shift record stays within [N], and below it once
    something was shifted out. *)
Definition within (N : Z) (mrs : shr_record) : Prop :=
  0 <= shr_m mrs <= N /\ (shr_r mrs || shr_s mrs = true -> shr_m mrs < N).

(** The liveness sentence as it is worded: when every child exits, the loop
    returns, with every job in a final state. *)
Definition loop_as_claimed : Prop :=
  forall st0,
    initial st0 -> 1 <= n_process st0 -> children_exit st0 ->
    exists fuel st,
      monitor_output_loop fuel (gen_init_processes st0) = Some (Ok st)
      /\ Forall terminal (procs st).

(** ** The matcher on the two patterns *)

Lemma append_assoc (a b c : string) : ((a ++ b) ++ c = a ++ (b ++ c))%string.
Proof. induction a as [|x a IH]; simpl; [reflexivity | now rewrite IH]. Qed.

Lemma append_nil_r (a : string) : (a ++ "")%string = a.
Proof. induction a as [|x a IH]; simpl; [reflexivity | now rewrite IH]. Qed.

Lemma length_append (a b : string) :
  String.length (a ++ b) = (String.length a + String.length b)%nat.
Proof. induction a as [|x a IH]; simpl; [reflexivity | now rewrite IH]. Qed.

Lemma take_append (a b : string) : take (String.length a) (a ++ b) = a.
Proof. induction a as [|x a IH]; simpl; [now destruct b | now rewrite IH]. Qed.

Lemma all_append p (a b : string) :
  all p (a ++ b) = all p a && all p b.
Proof.
  induction a as [|x a IH]; simpl; [reflexivity|].
  now rewrite IH, andb_assoc.
Qed.

Lemma star_stops p pos b g k :
  stops p b = true -> star p pos b g k = k pos b g.
Proof.
  destruct b as [|c b]; simpl; [reflexivity|].
  intros H. apply negb_true_iff in H. now rewrite H.
Qed.

(** A success further on is the result of the greedy repetition. *)
Lemma star_append p a : forall pos b g k r,
  all (cset_match p) a = true ->
  star p (pos + String.length a) b g k = Some r ->
  star p pos (a ++ b) g k = Some r.
Proof.
  induction a as [|x a IH]; intros pos b g k r Ha Hr; simpl in *.
  - now rewrite Nat.add_0_r in Hr.
  - apply andb_true_iff in Ha as [Hx Ha]. rewrite Hx.
    rewrite (IH (S pos) b g k r Ha); [reflexivity|].
    now rewrite <- Nat.add_succ_comm in Hr.
Qed.

Lemma star_commit p a pos b g k r :
  all (cset_match p) a = true ->
  stops p b = true ->
  k (pos + String.length a)%nat b g = Some r ->
  star p pos (a ++ b) g k = Some r.
Proof.
  intros Ha Hb Hr. apply star_append; [assumption|].
  now rewrite star_stops.
Qed.

(** When the rest fails at every longer repetition, the repetition is empty. *)
Lemma star_fallback p : forall b pos g k,
  (forall b1 b2, b = (b1 ++ b2)%string -> b1 <> "" ->
     k (pos + String.length b1)%nat b2 g = None) ->
  star p pos b g k = k pos b g.
Proof.
  induction b as [|c b IH]; intros pos g k H; simpl; [reflexivity|].
  destruct (cset_match p c); [|reflexivity].
  rewrite IH.
  - specialize (H (String c "") b eq_refl). simpl in H.
    rewrite Nat.add_1_r in H. rewrite H; [reflexivity | discriminate].
  - intros b1 b2 E Hne.
    specialize (H (String c b1) b2). simpl in H.
    rewrite Nat.add_succ_r in H. apply H; [now rewrite E | discriminate].
Qed.

Lemma run_Lit l : forall r pos s g k,
  run (Lit l r) pos (l ++ s) g k = run r (pos + String.length l) s g k.
Proof.
  induction l as [|c l IH]; intros r pos s g k; simpl.
  - now rewrite Nat.add_0_r.
  - rewrite Ascii.eqb_refl, IH. now rewrite Nat.add_succ_comm.
Qed.

Lemma run_Seq r1 r2 pos s g k :
  run (Seq r1 r2) pos s g k
  = run r1 pos s g (fun pos' s' g' => run r2 pos' s' g' k).
Proof. reflexivity. Qed.

Lemma run_Bol s g k : run Bol 0 s g k = k 0%nat s g.
Proof. reflexivity. Qed.

Lemma space_not_digit c : is_space c = true -> is_digit c = false.
Proof.
  destruct c as [[] [] [] [] [] [] [] []]; vm_compute; congruence.
Qed.

Lemma run_Plus p a b pos g k r :
  a <> "" -> all (cset_match p) a = true -> stops p b = true ->
  k (pos + String.length a)%nat b g = Some r ->
  run (Plus p) pos (a ++ b) g k = Some r.
Proof.
  intros Hne Ha Hb Hk. destruct a as [|c a]; [congruence|].
  simpl in *. apply andb_true_iff in Ha as [Hc Ha]. rewrite Hc.
  apply star_commit; try assumption.
  now rewrite <- Nat.add_succ_comm in Hk.
Qed.

(** A group around a pattern that matches exactly [a] captures [a]. *)
Lemma run_Named name r1 a b pos g k r :
  (forall k' r', k' (pos + String.length a)%nat b g = Some r' ->
                 run r1 pos (a ++ b) g k' = Some r') ->
  k (pos + String.length a)%nat b ((name, a) :: g) = Some r ->
  run (Named name r1) pos (a ++ b) g k = Some r.
Proof.
  intros H Hk. cbn [run]. apply H.
  replace (pos + String.length a - pos)%nat with (String.length a) by lia.
  now rewrite take_append.
Qed.

(** The number of a trace line: digits, optional point, digits. *)
Lemma run_number ip frac rest pos g k r :
  is_number ip -> is_fraction frac ->
  k (pos + String.length (ip ++ frac))%nat (String " " rest) g = Some r ->
  run (Seq (Plus Digit) (Seq (Opt (Chr ".")) (Star Digit)))
      pos ((ip ++ frac) ++ String " " rest) g k = Some r.
Proof.
  intros [Hne Hd] Hf Hk. cbn [run]. rewrite append_assoc.
  rewrite length_append in Hk.
  destruct Hf as [-> | (fp & -> & Hfp)].
  - apply run_Plus; try assumption; [reflexivity|].
    simpl. simpl in Hk. now rewrite Nat.add_0_r in Hk.
  - apply run_Plus; try assumption; [reflexivity|].
    simpl.
    rewrite (star_commit Digit fp _ (String " " rest) g _ r);
      [reflexivity | assumption | reflexivity |].
    simpl in Hk. rewrite <- Hk. f_equal. lia.
Qed.

Lemma ws_stops_digit ws : all is_space ws = true -> stops Digit ws = true.
Proof.
  destruct ws as [|c ws]; simpl; [reflexivity|].
  intros H. apply andb_true_iff in H as [H _].
  now rewrite (space_not_digit c H).
Qed.

Lemma run_tail pct ws pos g k r :
  is_number pct -> all is_space ws = true ->
  k (pos + 1 + String.length pct + String.length ws)%nat "" (("percent", pct) :: g)
    = Some r ->
  run tail_re pos (String " " (pct ++ ws)) g k = Some r.
Proof.
  intros [Hne Hd] Hws Hk. unfold tail_re.
  change (String " " (pct ++ ws)) with (" " ++ (pct ++ ws))%string.
  rewrite run_Lit, run_Seq.
  apply (run_Named "percent" (Plus Digit) pct ws).
  - intros k' r' Hk'. apply run_Plus; try assumption.
    now apply ws_stops_digit.
  - rewrite run_Seq. cbn [run].
    rewrite <- (append_nil_r ws) at 1.
    apply star_commit; [assumption | reflexivity |].
    exact Hk.
Qed.

Lemma digit_not_blank d : is_digit d = true -> Ascii.eqb " " d = false.
Proof.
  intros H. destruct (Ascii.eqb_spec " "%char d) as [<-|]; [discriminate | reflexivity].
Qed.

Lemma tail_fails_ws b pos g k :
  all is_space b = true -> run tail_re pos b g k = None.
Proof.
  intros H. destruct b as [|c b]; [reflexivity|].
  unfold tail_re. cbn [Lit]. rewrite run_Seq. cbn [run cset_match].
  destruct (Ascii.eqb " " c); [|reflexivity].
  destruct b as [|d b]; [reflexivity|].
  simpl in H. apply andb_true_iff in H as [_ H].
  apply andb_true_iff in H as [H _].
  cbn [run cset_match]. now rewrite (space_not_digit d H).
Qed.

Lemma tail_fails_suffix pct : forall ws b1 b2 pos g k,
  all is_digit pct = true -> all is_space ws = true ->
  (b1 ++ b2)%string = (pct ++ ws)%string ->
  run tail_re pos b2 g k = None.
Proof.
  induction pct as [|d pct IH]; intros ws b1 b2 pos g k Hd Hws E.
  - simpl in E. apply tail_fails_ws.
    rewrite <- E, all_append in Hws. now apply andb_true_iff in Hws as [_ ?].
  - simpl in Hd. apply andb_true_iff in Hd as [Hd Hpct].
    destruct b1 as [|c b1]; simpl in E.
    + subst b2. unfold tail_re. cbn [Lit]. rewrite run_Seq.
      cbn [run cset_match append]. now rewrite (digit_not_blank d Hd).
    + injection E as _ E. now apply (IH ws b1).
Qed.

Lemma trace_re_match ip frac unit mid pct ws :
  is_number ip -> is_fraction frac -> is_unit_word unit ->
  all is_dot mid = true -> is_number pct -> all is_space ws = true ->
  re_match trace_re (trace_line (ip ++ frac) unit mid pct ws)
  = Some [("percent", pct); ("unit", unit); ("time", (ip ++ frac)%string)].
Proof.
  intros Hip Hfrac [Hu1 Hu2] Hmid Hp Hws.
  unfold re_match, trace_line, trace_re.
  rewrite run_Seq. cbn [run Nat.eqb].
  rewrite run_Lit, run_Seq.
  apply (run_Named "time" _ (ip ++ frac)).
  { intros k' r' Hk'. now apply run_number. }
  rewrite run_Lit, run_Seq.
  apply (run_Named "unit" (Plus Word) unit).
  { intros k' r' Hk'. now apply run_Plus. }
  rewrite run_Lit, run_Seq. cbn [run].
  apply star_append; [assumption|].
  rewrite star_fallback.
  - apply (run_tail pct ws); try assumption. reflexivity.
  - intros b1 b2 E Hne. destruct b1 as [|c b1]; [congruence|].
    simpl in E. injection E as _ E. symmetry in E.
    destruct Hp as [_ Hp].
    exact (tail_fails_suffix pct ws b1 b2 _ _ _ Hp Hws E).
Qed.

Lemma percent_re_trace_none time unit mid pct ws :
  re_match percent_re (trace_line time unit mid pct ws) = None.
Proof. reflexivity. Qed.

Lemma percent_re_match pct ws :
  is_number pct -> ws = "" \/ ws = String newline "" ->
  re_match percent_re (pct ++ String " " ws)
  = Some [("percent", pct)].
Proof.
  intros Hp Hws. unfold re_match, percent_re.
  rewrite run_Seq, run_Bol. cbv beta. rewrite run_Seq.
  apply (run_Named "percent" (Plus Digit) pct).
  - intros k' r' Hk'. destruct Hp. now apply run_Plus.
  - destruct Hws as [-> | ->]; reflexivity.
Qed.

Lemma digit_not_T d : is_digit d = true -> Ascii.eqb "T" d = false.
Proof.
  intros H. destruct (Ascii.eqb_spec "T"%char d) as [<-|]; [discriminate | reflexivity].
Qed.

Lemma trace_re_digit_none pct rest :
  is_number pct -> re_match trace_re (pct ++ rest) = None.
Proof.
  intros [Hne Hd]. destruct pct as [|d pct]; [congruence|].
  simpl in Hd. apply andb_true_iff in Hd as [Hd _].
  unfold re_match, trace_re. rewrite run_Seq, run_Bol. cbv beta.
  cbn [Lit]. rewrite run_Seq. cbn [run cset_match append].
  now rewrite (digit_not_T d Hd).
Qed.

(** ** The progress parser: properties *)

(** C5. A trace line with unit s, min or h stores the number, brought to
    seconds (as it is, times 60, times 3600, in the floating point of the
    program), as the ETA, and the last integer of the line as the percent;
    the other attributes of the job stay. The two sample lines give 432.0
    with 42, and 5601.996 with 0. *)
Theorem trace_line_sets_eta_and_percent (self : Program) :
  (forall ip frac unit mid pct ws,
     is_number ip -> is_fraction frac ->
     unit = "s" \/ unit = "min" \/ unit = "h" ->
     all is_dot mid = true -> is_number pct -> all is_space ws = true ->
     let self' := process_output self (trace_line (ip ++ frac) unit mid pct ws) in
     running_eta self' = to_seconds unit (py_float (ip ++ frac))
     /\ running_perc self' = py_int pct
     /\ self' = set_running_perc (set_running_eta self (running_eta self'))
                                 (py_int pct))
  /\ (let self' := process_output self "Trace ETA 7.2 [min] % 2 12 22 32 42" in
      running_eta self' = py_float "432.0"
      /\ (value (running_eta self') == 432)%Q
      /\ running_perc self' = 42)
  /\ (let self' := process_output self "Trace ETA 1.55611 [h] % 0" in
      running_eta self' = py_float "5601.996" /\ running_perc self' = 0).
Proof.
  split; [|split; [repeat split; vm_compute; reflexivity
                  | split; vm_compute; reflexivity]].
  intros ip frac unit mid pct ws Hip Hfrac Hunit Hmid Hpct Hws self'.
  assert (Hw : is_unit_word unit)
    by (destruct Hunit as [-> | [-> | ->]]; split; (discriminate || reflexivity)).
  subst self'. unfold process_output.
  rewrite (trace_re_match ip frac unit mid pct ws Hip Hfrac Hw Hmid Hpct Hws).
  rewrite percent_re_trace_none.
  cbn [group String.eqb Ascii.eqb Bool.eqb].
  unfold to_seconds.
  destruct Hunit as [-> | [-> | ->]];
    cbn [String.eqb Ascii.eqb Bool.eqb running_eta running_perc
         set_running_eta set_running_perc];
    repeat split; reflexivity.
Qed.

Lemma trace_line_sets_eta_and_percent_witness :
  is_number "7" /\ is_fraction ".2" /\ all is_dot " 2 12 22 32" = true
  /\ is_number "42" /\ all is_space (String newline "") = true
  /\ (let self' :=
        process_output sample_job
          (trace_line ("7" ++ ".2") "min" " 2 12 22 32" "42" (String newline "")) in
      running_eta self' = to_seconds "min" (py_float ("7" ++ ".2"))
      /\ running_perc self' = py_int "42"
      /\ self' = set_running_perc (set_running_eta sample_job (running_eta self'))
                                  (py_int "42")).
Proof.
  assert (H7 : is_number "7") by (split; [discriminate | reflexivity]).
  assert (Hf : is_fraction ".2") by (right; exists "2"; split; reflexivity).
  assert (H42 : is_number "42") by (split; [discriminate | reflexivity]).
  repeat (split; [assumption || reflexivity|]).
  apply (proj1 (trace_line_sets_eta_and_percent sample_job)
           "7" ".2" "min" " 2 12 22 32" "42" (String newline "")); auto.
Defined.

(** The arithmetic is the one of the program: 1.025 min is stored as the
    float below 61.5 that the product in binary64 gives, and shown as 61
    seconds; a number beyond the range of the type is stored as infinity. *)
Example trace_eta_is_rounded :
  (let self' := process_output sample_job "Trace ETA 1.025 [min] % 5" in
   running_eta self' = py_float "61.49999999999999"
   /\ running_eta self' = S754_finite false 8655355533852671 (-47)
   /\ py_round (running_eta self') = inr 61)
  /\ (let big := String.concat "" (repeat "9" 309) in
      let self' := process_output sample_job (trace_line big "s" "" "5" "") in
      running_eta self' = S754_infinity false
      /\ py_round (running_eta self') = inl (Raised "OverflowError")).
Proof. repeat split; vm_compute; reflexivity. Qed.

(** C10. A trace line whose unit is a word other than s, min and h is
    still recognised: the percent is stored, and the ETA becomes 0, whatever
    it was. *)
Theorem trace_line_unknown_unit (self : Program) ip frac unit mid pct ws :
  is_number ip -> is_fraction frac -> is_unit_word unit ->
  unit <> "s" -> unit <> "min" -> unit <> "h" ->
  all is_dot mid = true -> is_number pct -> all is_space ws = true ->
  let self' := process_output self (trace_line (ip ++ frac) unit mid pct ws) in
  re_match trace_re (trace_line (ip ++ frac) unit mid pct ws) <> None
  /\ running_perc self' = py_int pct
  /\ running_eta self' = fzero
  /\ self' = set_running_perc (set_running_eta self fzero) (py_int pct).
Proof.
  intros Hip Hfrac Hw Hs Hmin Hh Hmid Hpct Hws self'. subst self'.
  pose proof (trace_re_match ip frac unit mid pct ws Hip Hfrac Hw Hmid Hpct Hws) as M.
  split; [now rewrite M|].
  unfold process_output. rewrite M, percent_re_trace_none.
  change (group [("percent", pct); ("unit", unit); ("time", (ip ++ frac)%string)] "unit")
    with unit.
  change (group [("percent", pct); ("unit", unit); ("time", (ip ++ frac)%string)] "percent")
    with pct.
  rewrite (proj2 (String.eqb_neq "s" unit)) by congruence.
  rewrite (proj2 (String.eqb_neq "min" unit)) by congruence.
  rewrite (proj2 (String.eqb_neq "h" unit)) by congruence.
  repeat split; reflexivity.
Qed.

Lemma trace_line_unknown_unit_witness :
  is_number "53" /\ is_fraction "" /\ is_unit_word "days"
  /\ (let self' :=
        process_output (set_running_perc (set_running_eta sample_job (of_int 7)) 9)
          (trace_line ("53" ++ "") "days" " 20 30" "40" (String newline "")) in
      running_perc self' = 40
      /\ running_eta self' = fzero
      /\ running_eta (set_running_perc (set_running_eta sample_job (of_int 7)) 9)
         <> fzero).
Proof.
  assert (H53 : is_number "53") by (split; [discriminate | reflexivity]).
  assert (Hf : is_fraction "") by (left; reflexivity).
  assert (Hd : is_unit_word "days") by (split; [discriminate | reflexivity]).
  assert (H40 : is_number "40") by (split; [discriminate | reflexivity]).
  repeat (split; [assumption|]).
  destruct (trace_line_unknown_unit
              (set_running_perc (set_running_eta sample_job (of_int 7)) 9)
              "53" "" "days" " 20 30" "40" (String newline ""))
    as (_ & Hp & He & _); auto; try discriminate.
  split; [exact Hp|]. split; [exact He|]. vm_compute. discriminate.
Defined.

(** C6. A line made of an integer and one blank (with or without the
    newline [readline] leaves at its end) changes the stored percent only:
    the ETA and every other attribute keep their values; "55 " stores 55.
    What the parser carries from line to line is the two stored values and
    nothing else: no other attribute changes, and the new values depend on
    the line and the old two only. *)
Theorem percent_line_sets_percent_only (self : Program) :
  (forall pct ws,
     is_number pct -> ws = "" \/ ws = String newline "" ->
     process_output self (pct ++ String " " ws)
     = set_running_perc self (py_int pct))
  /\ (let self' := process_output self "55 " in
      running_perc self' = 55 /\ running_eta self' = running_eta self)
  /\ (forall output,
        let self' := process_output self output in
        self' = set_running_perc (set_running_eta self (running_eta self'))
                                 (running_perc self'))
  /\ (forall other output,
        running_eta other = running_eta self ->
        running_perc other = running_perc self ->
        running_eta (process_output other output)
        = running_eta (process_output self output)
        /\ running_perc (process_output other output)
           = running_perc (process_output self output)).
Proof.
  split; [|split; [|split]].
  - intros pct ws Hp Hws. unfold process_output.
    rewrite (trace_re_digit_none pct _ Hp), (percent_re_match pct ws Hp Hws).
    reflexivity.
  - split; reflexivity.
  - intros output self'. subst self'. unfold process_output.
    destruct (re_match trace_re output), (re_match percent_re output);
      destruct self; reflexivity.
  - intros other output He Hp. unfold process_output.
    destruct (re_match trace_re output), (re_match percent_re output);
      cbn [running_eta running_perc set_running_eta set_running_perc];
      auto.
Qed.

Lemma percent_line_sets_percent_only_witness :
  is_number "55"
  /\ process_output (set_running_eta sample_job (of_int 432))
       ("55" ++ String " " (String newline ""))
     = set_running_perc (set_running_eta sample_job (of_int 432)) 55.
Proof.
  assert (H : is_number "55") by (split; [discriminate | reflexivity]).
  split; [assumption|].
  apply (proj1 (percent_line_sets_percent_only (set_running_eta sample_job (of_int 432)))
           "55" (String newline "")); auto.
Defined.

(** ** The job runner: properties *)

Lemma process_output_frame self output :
  process (process_output self output) = process self
  /\ status (process_output self output) = status self
  /\ time (process_output self output) = time self
  /\ spawn (process_output self output) = spawn self.
Proof.
  unfold process_output.
  destruct (re_match trace_re output), (re_match percent_re output);
    repeat split; reflexivity.
Qed.

Lemma drain_frame out : forall self,
  process (fst (fst (drain self out))) = process self
  /\ status (fst (fst (drain self out))) = status self
  /\ time (fst (fst (drain self out))) = time self
  /\ spawn (fst (fst (drain self out))) = spawn self.
Proof.
  induction out as [|[output|] out IH]; intros self; cbn [drain fst]; [auto | | auto].
  destruct (output =? "")%string; cbn [fst]; [auto|].
  destruct (IH (process_output self output)) as (P & S & T & W).
  destruct (process_output_frame self output) as (P' & S' & T' & W').
  repeat split; congruence.
Qed.

(** The poll step of a RUNNING job with its handle, written out. *)
Lemma check_status_running_eq self now child :
  status self = RUNNING -> process self = Some child ->
  check_status_and_process_output self now
  = (let self1 :=
       match fst (poll child) with
       | Some _ => set_time (set_status self FINISH) (fsub now (time self))
       | None => self
       end in
     let r := drain self1 (stdout (snd (poll child))) in
     (set_process (fst (fst r))
        (Some (mkPopen (exits_after (snd (poll child)))
                       (returncode (snd (poll child))) (snd (fst r)))),
      snd r)).
Proof.
  intros S P. unfold check_status_and_process_output. rewrite S, P.
  destruct (poll child) as [code child']. cbn [fst snd]. cbv zeta.
  match goal with |- context [drain ?j ?o] => destruct (drain j o) as [[j' rest] r] end.
  reflexivity.
Qed.

(** The state of a job after its poll step, by cases on what it was. *)
Lemma check_status_cases self now :
  match status self, process self with
  | RUNNING, Some child =>
      status (polled now self)
      = match fst (poll child) with Some _ => FINISH | None => RUNNING end
  | _, _ => polled now self = self
  end.
Proof.
  unfold polled.
  destruct (status self) eqn:S;
    try (unfold check_status_and_process_output; rewrite S; reflexivity).
  destruct (process self) as [child|] eqn:P;
    [|unfold check_status_and_process_output; rewrite S, P; reflexivity].
  rewrite (check_status_running_eq self now child S P). cbv zeta. cbn [fst status set_process].
  match goal with
  | |- context [drain ?j ?o] => destruct (drain_frame o j) as (_ & -> & _)
  end.
  destruct (fst (poll child)); [reflexivity | exact S].
Qed.

(** C4. A RUNNING job whose child has exited becomes FINISH at its poll
    step, whatever the exit code: zero or not, the state is FINISH, and the
    time of the job becomes the time it ran. This is so even when the output
    read in the same step cannot be decoded. *)
Theorem exit_gives_FINISH_whatever_the_code self now child code :
  status self = RUNNING -> process self = Some child ->
  fst (poll child) = Some code ->
  status (fst (check_status_and_process_output self now)) = FINISH
  /\ time (fst (check_status_and_process_output self now)) = fsub now (time self).
Proof.
  intros S P E. split.
  - pose proof (check_status_cases self now) as H.
    rewrite S, P, E in H. exact H.
  - rewrite (check_status_running_eq self now child S P). cbv zeta.
    cbn [fst time set_process]. rewrite E.
    match goal with
    | |- context [drain ?j ?o] => destruct (drain_frame o j) as (_ & _ & -> & _)
    end.
    reflexivity.
Qed.

Lemma exit_gives_FINISH_whatever_the_code_witness :
  let failed := mkPopen (Some 0%nat) 1 [Text "Trace ETA 53 [s] % 20"; Text "55 "] in
  let self := invoke_process (Program_init "" "a.dat" "a_dat" (Some failed)) fzero in
  status self = RUNNING /\ fst (poll failed) = Some 1
  /\ status (fst (check_status_and_process_output self (of_int 2))) = FINISH.
Proof.
  cbv zeta. split; [reflexivity|]. split; [reflexivity|].
  apply (exit_gives_FINISH_whatever_the_code _ (of_int 2)
           (mkPopen (Some 0%nat) 1 [Text "Trace ETA 53 [s] % 20"; Text "55 "]) 1);
    reflexivity.
Defined.

(** ** The pool: admission *)

Lemma length_set_nth {A} (x : A) : forall l i,
  List.length (set_nth i x l) = List.length l.
Proof.
  induction l as [|y l IH]; intros [|i]; simpl; auto.
Qed.

Lemma nth_error_set_nth_eq {A} (x : A) : forall l i y,
  nth_error l i = Some y -> nth_error (set_nth i x l) i = Some x.
Proof.
  induction l as [|z l IH]; intros [|i] y H; simpl in *; try discriminate; eauto.
Qed.

Lemma nth_error_set_nth_neq {A} (x : A) : forall l i j,
  i <> j -> nth_error (set_nth i x l) j = nth_error l j.
Proof.
  induction l as [|z l IH]; intros [|i] [|j] H; simpl; auto; congruence.
Qed.

Lemma count_state_cons s proc ps :
  count_state s (proc :: ps)
  = (if State_eqb s (status proc) then 1 else 0) + count_state s ps.
Proof.
  unfold count_state. cbn [filter].
  destruct (State_eqb s (status proc)); cbn [List.length]; lia.
Qed.

Lemma count_state_nonneg s ps : 0 <= count_state s ps.
Proof. unfold count_state. lia. Qed.

Lemma count_state_set_nth s x : forall l i y,
  nth_error l i = Some y ->
  count_state s (set_nth i x l)
  = count_state s l - (if State_eqb s (status y) then 1 else 0)
    + (if State_eqb s (status x) then 1 else 0).
Proof.
  induction l as [|z l IH]; intros [|i] y H; simpl in *; try discriminate.
  - injection H as ->. rewrite !count_state_cons. lia.
  - rewrite !count_state_cons, (IH i y H). lia.
Qed.

Lemma State_eqb_eq a b : State_eqb a b = true <-> a = b.
Proof. destruct a, b; simpl; split; congruence. Qed.

(** A launch leaves the job RUNNING with its handle, or in ERROR without. *)
Lemma invoke_process_cases self now :
  match spawn self with
  | Some child =>
      status (invoke_process self now) = RUNNING
      /\ process (invoke_process self now) = Some child
  | None =>
      invoke_process self now = set_status (set_process self None) ERROR
  end.
Proof. unfold invoke_process. destruct (spawn self); auto. Qed.

(** The state after one call of [_next_proc] that found a job. *)
Lemma next_proc_some count st job :
  nth_error (procs st) (_proc st) = Some job ->
  _next_proc count st
  = ((true, match spawn job with Some _ => count + 1 | None => count end),
     set__proc (set_procs st (set_nth (_proc st) (invoke_process job (clock st))
                                      (procs st)))
               (S (_proc st))).
Proof.
  intros H. unfold _next_proc. rewrite H.
  pose proof (invoke_process_cases job (clock st)) as C.
  destruct (spawn job) as [child|].
  - destruct C as [_ ->]. reflexivity.
  - rewrite C. reflexivity.
Qed.

Lemma next_proc_none count st :
  nth_error (procs st) (_proc st) = None ->
  _next_proc count st = ((false, count), st).
Proof. intros H. unfold _next_proc. now rewrite H. Qed.

(** The admission loop always comes to an end. *)
Lemma fill_loop_total : forall fuel count st,
  (List.length (procs st) - _proc st < fuel)%nat ->
  exists r, fill_loop fuel count st = Some r.
Proof.
  induction fuel as [|fuel IH]; intros count st Hf; [lia|].
  simpl. destruct (count <? n_process st); [|eauto].
  destruct (nth_error (procs st) (_proc st)) as [job|] eqn:E.
  - rewrite (next_proc_some count st job E).
    apply IH. cbn [procs _proc set__proc set_procs].
    rewrite length_set_nth.
    assert (_proc st < List.length (procs st))%nat
      by (apply nth_error_Some; congruence).
    lia.
  - rewrite (next_proc_none count st E). eauto.
Qed.

Lemma fill_slots_spec count st :
  fill_loop (fill_fuel st) count st = Some (fill_slots count st).
Proof.
  unfold fill_slots.
  destruct (fill_loop_total (fill_fuel st) count st) as [r ->];
    [unfold fill_fuel; lia | reflexivity].
Qed.

(** C3. When the launch of the job the generator yields fails, the job is
    in ERROR without a handle, the count of running jobs that [_next_proc]
    returns is the one it was given, the other jobs are untouched, the
    admission loop goes on from the next job with the same count as long as
    a slot is free, and the loop ends normally. *)
Theorem launch_failure_is_isolated st count job :
  nth_error (procs st) (_proc st) = Some job -> spawn job = None ->
  let st' := snd (_next_proc count st) in
  fst (_next_proc count st) = (true, count)
  /\ (exists job', nth_error (procs st') (_proc st) = Some job'
                   /\ status job' = ERROR /\ process job' = None)
  /\ (forall j, j <> _proc st -> nth_error (procs st') j = nth_error (procs st) j)
  /\ _proc st' = S (_proc st)
  /\ n_process st' = n_process st
  /\ (forall fuel, count < n_process st ->
        fill_loop (S fuel) count st = fill_loop fuel count st')
  /\ (exists r, fill_loop (fill_fuel st) count st = Some r).
Proof.
  intros E W st'. subst st'.
  rewrite (next_proc_some count st job E), W. cbn [fst snd].
  cbn [procs _proc n_process set__proc set_procs].
  split; [reflexivity|]. split.
  { exists (invoke_process job (clock st)). split.
    - exact (nth_error_set_nth_eq _ _ _ _ E).
    - unfold invoke_process. rewrite W. split; reflexivity. }
  split; [intros j Hj; now apply nth_error_set_nth_neq|].
  split; [reflexivity|]. split; [reflexivity|]. split.
  - intros fuel Hc. simpl. apply Z.ltb_lt in Hc. rewrite Hc.
    rewrite (next_proc_some count st job E), W. reflexivity.
  - eexists. apply fill_slots_spec.
Qed.

Lemma launch_failure_is_isolated_witness :
  nth_error (procs sample_pool) (_proc sample_pool)
  = Some (Program_init "" "a.dat" "a_dat" None)
  /\ fst (_next_proc 0 sample_pool) = (true, 0)
  /\ map status (procs (gen_init_processes sample_pool))
     = [ERROR; RUNNING; RUNNING; WAITING].
Proof.
  split; [reflexivity|]. split; [|reflexivity].
  exact (proj1 (launch_failure_is_isolated sample_pool 0
                  (Program_init "" "a.dat" "a_dat" None) eq_refl eq_refl)).
Defined.

(** ** The pool: the bound on running jobs *)

Lemma poll_all_spec now : forall ps p_remain count r,
  poll_all ps now p_remain count = inr r ->
  r = (map (polled now) ps,
       p_remain || existsb active (map (polled now) ps),
       count + count_state RUNNING (map (polled now) ps)).
Proof.
  induction ps as [|proc ps IH]; intros p_remain count r H.
  - cbn in H. injection H as <-. cbn. now rewrite orb_false_r, Z.add_0_r.
  - cbn [poll_all] in H. cbn [map existsb].
    assert (Hp : polled now proc = fst (check_status_and_process_output proc now))
      by reflexivity.
    destruct (check_status_and_process_output proc now) as [proc' [why|]];
      [discriminate|].
    cbn [fst] in Hp. rewrite Hp.
    match type of H with
    | match poll_all ps now ?p ?c with _ => _ end = _ =>
        destruct (poll_all ps now p c) as [why|[[rest p'] c']] eqn:E;
          [discriminate|]; apply IH in E
    end.
    injection E as -> -> ->. injection H as <-.
    rewrite count_state_cons. unfold active.
    destruct (status proc'); cbn [State_eqb orb];
      rewrite ?orb_true_r, ?orb_false_r; f_equal; try lia;
      f_equal; now destruct p_remain.
Qed.

(** The poll step starts no job. *)
Lemma check_status_running self now :
  status (polled now self) = RUNNING ->
  status self = RUNNING.
Proof.
  intros H. pose proof (check_status_cases self now) as C.
  destruct (status self) eqn:S; try reflexivity;
    destruct (process self); rewrite C in H; congruence.
Qed.

Lemma count_running_polled now ps :
  count_state RUNNING
    (map (polled now) ps)
  <= count_state RUNNING ps.
Proof.
  induction ps as [|proc ps IH]; [reflexivity|].
  cbn [map]. rewrite !count_state_cons.
  destruct (State_eqb RUNNING (status (polled now proc)))
    eqn:E.
  - apply State_eqb_eq in E. symmetry in E. apply check_status_running in E.
    rewrite E. cbn [State_eqb]. lia.
  - destruct (State_eqb RUNNING (status proc)); lia.
Qed.

(** The admission loop keeps the running jobs within its count, and its
    count within the limit. *)
Lemma fill_loop_bound : forall fuel count st count' st',
  count_state RUNNING (procs st) <= count ->
  fill_loop fuel count st = Some (count', st') ->
  count_state RUNNING (procs st') <= count'
  /\ count' <= Z.max count (n_process st)
  /\ n_process st' = n_process st.
Proof.
  induction fuel as [|fuel IH]; intros count st count' st' Hc H; simpl in H.
  - destruct (count <? n_process st); [discriminate|].
    injection H as <- <-. lia.
  - destruct (count <? n_process st) eqn:L;
      [|injection H as <- <-; lia].
    apply Z.ltb_lt in L.
    destruct (nth_error (procs st) (_proc st)) as [job|] eqn:E.
    + rewrite (next_proc_some count st job E) in H.
      apply IH in H.
      * cbn [n_process set__proc set_procs] in H.
        destruct (spawn job); lia.
      * cbn [procs set__proc set_procs].
        rewrite (count_state_set_nth RUNNING _ _ _ job E).
        pose proof (invoke_process_cases job (clock st)) as C.
        destruct (spawn job) as [child|].
        -- destruct C as [-> _]. destruct (status job); cbn [State_eqb]; lia.
        -- rewrite C. cbn [status set_status].
           destruct (status job); cbn [State_eqb]; lia.
    + rewrite (next_proc_none count st E) in H. injection H as <- <-. lia.
Qed.

Lemma count_running_initial st :
  initial st -> count_state RUNNING (procs st) = 0.
Proof.
  intros [_ H]. induction H as [|proc ps Hp _ IH]; [reflexivity|].
  rewrite count_state_cons, Hp, IH. reflexivity.
Qed.

Lemma gen_init_bound st :
  initial st -> 0 <= n_process st ->
  count_state RUNNING (procs (gen_init_processes st)) <= n_process st
  /\ n_process (gen_init_processes st) = n_process st.
Proof.
  intros Hi Hn. unfold gen_init_processes.
  pose proof (fill_slots_spec 0 st) as A.
  destruct (fill_slots 0 st) as [count' st'].
  apply fill_loop_bound in A; [|rewrite (count_running_initial st Hi); lia].
  cbn [snd]. lia.
Qed.

(** One round of the monitor loop that ends without exception, with the
    loop over the jobs written as a map. *)
Lemma tick_spec st p_remain st' :
  tick st = inr (p_remain, st') ->
  p_remain
  = existsb active (map (polled (fadd (clock st) (sleep_sec st))) (procs st))
  /\ exists s,
       print_output_summary (procs (refilled st)) = inr s
       /\ st' = set_console (refilled st) (s :: console (refilled st)).
Proof.
  unfold tick, refilled. destruct (sleep (sleep_sec st)); [discriminate|].
  cbn [procs clock set_clock]. cbv zeta.
  destruct (poll_all (procs st) (fadd (clock st) (sleep_sec st)) false 0)
    as [why|[[ps p] count]] eqn:E; [discriminate|].
  apply poll_all_spec in E. injection E as -> -> ->.
  cbn [orb Z.add].
  destruct (fill_slots _ _) as [c st1]. cbn [snd].
  destruct (print_output_summary (procs st1)) as [why|s]; [discriminate|].
  intros H. injection H as <- <-. split; [reflexivity|]. eauto.
Qed.

Lemma refilled_bound st :
  count_state RUNNING (procs st) <= n_process st ->
  count_state RUNNING (procs (refilled st)) <= n_process st
  /\ n_process (refilled st) = n_process st.
Proof.
  intros H. unfold refilled. cbv zeta.
  set (now := fadd (clock st) (sleep_sec st)).
  set (ps := map (polled now) (procs st)).
  pose proof (fill_slots_spec (count_state RUNNING ps) (set_procs (set_clock st now) ps)) as A.
  destruct (fill_slots _ _) as [count' st'].
  apply fill_loop_bound in A; [|reflexivity].
  cbn [snd n_process procs set_procs set_clock] in *.
  pose proof (count_running_polled now (procs st)) as C. fold ps in C. lia.
Qed.

Lemma tick_bound st p_remain st' :
  tick st = inr (p_remain, st') ->
  count_state RUNNING (procs st) <= n_process st ->
  count_state RUNNING (procs st') <= n_process st
  /\ n_process st' = n_process st.
Proof.
  intros T H. destruct (tick_spec _ _ _ T) as (_ & s & _ & ->).
  cbn [procs n_process set_console]. now apply refilled_bound.
Qed.

Lemma reachable_bound st0 st :
  initial st0 -> 0 <= n_process st0 -> reachable st0 st ->
  count_state RUNNING (procs st) <= n_process st0
  /\ n_process st = n_process st0.
Proof.
  intros Hi Hn R. induction R as [|st p st' R [IH1 IH2] T].
  - now apply gen_init_bound.
  - rewrite <- IH2 in IH1. destruct (tick_bound st p st' T IH1) as [B1 B2]. lia.
Qed.

(** A round that ends leads from a state of the run to the next. *)
Lemma reach_after st0 st :
  reachable st0 st -> reachable st0 (after_tick st).
Proof.
  intros R. unfold after_tick. destruct (tick st) as [why|[p st']] eqn:T;
    [exact R | exact (reach_tick st0 st p st' R T)].
Qed.

(** C1. After the initial batch and at the end of every round of the
    monitor loop, the number of RUNNING jobs is at most the limit
    [n_process], which stays what it was. *)
Theorem running_never_exceeds_limit st0 st :
  initial st0 -> 0 <= n_process st0 -> reachable st0 st ->
  count_state RUNNING (procs st) <= n_process st0
  /\ n_process st = n_process st0.
Proof.
  intros Hi Hn R. induction R as [|st p st' R [IH1 IH2] T].
  - now apply gen_init_bound.
  - rewrite <- IH2 in IH1. destruct (tick_bound st p st' T IH1) as [B1 B2].
    split; [rewrite <- IH2; exact B1 | now rewrite B2].
Qed.

Lemma running_never_exceeds_limit_witness :
  initial sample_pool /\ 0 <= n_process sample_pool
  /\ map status (procs (after_tick (after_tick (gen_init_processes sample_pool))))
     = [ERROR; FINISH; FINISH; RUNNING]
  /\ count_state RUNNING
       (procs (after_tick (after_tick (gen_init_processes sample_pool))))
     <= n_process sample_pool.
Proof.
  assert (Hi : initial sample_pool) by (split; [reflexivity | repeat constructor]).
  assert (Hn : 0 <= n_process sample_pool) by (simpl; lia).
  split; [exact Hi|]. split; [exact Hn|]. split; [vm_compute; reflexivity|].
  exact (proj1 (running_never_exceeds_limit sample_pool _ Hi Hn
                  (reach_after _ _ (reach_after _ _ (reach_init _))))).
Defined.

(** ** The pool: the monitor loop ends *)

(** What the poll step does to a RUNNING job. *)
Lemma check_status_running_job self now child :
  status self = RUNNING -> process self = Some child ->
  status (polled now self)
  = match fst (poll child) with Some _ => FINISH | None => RUNNING end
  /\ (exists rest,
        process (polled now self)
        = Some (mkPopen (exits_after (snd (poll child)))
                        (returncode (snd (poll child))) rest))
  /\ spawn (polled now self) = spawn self.
Proof.
  intros S P. split.
  { pose proof (check_status_cases self now) as C. now rewrite S, P in C. }
  unfold polled. rewrite (check_status_running_eq self now child S P). cbv zeta.
  cbn [fst process spawn set_process]. split; [eauto|].
  match goal with
  | |- context [drain ?j ?o] => destruct (drain_frame o j) as (_ & _ & _ & ->)
  end.
  now destruct (fst (poll child)).
Qed.

Lemma check_status_idle self now :
  status self <> RUNNING -> polled now self = self.
Proof.
  intros H. unfold polled, check_status_and_process_output.
  destruct (status self); try reflexivity. congruence.
Qed.

Lemma poll_life child :
  exits child ->
  match fst (poll child) with
  | Some _ => True
  | None => (life (snd (poll child)) < life child)%nat
  end
  /\ exits (snd (poll child)).
Proof.
  unfold exits, poll, life. destruct (exits_after child) as [[|n]|] eqn:E;
    cbn [fst snd exits_after]; rewrite ?E; intros H; split;
    try congruence; auto; lia.
Qed.

(** The poll step keeps a job healthy, never adds work, and takes some
    away from a RUNNING job; it moves no job into or out of WAITING. *)
Lemma check_status_work self now :
  healthy self ->
  healthy (polled now self)
  /\ (work (polled now self) <= work self)%nat
  /\ (status self = RUNNING ->
      (work (polled now self) < work self)%nat)
  /\ (status (polled now self) = WAITING
      <-> status self = WAITING).
Proof.
  intros [Hs Hr].
  destruct (State_eqb RUNNING (status self)) eqn:E.
  - apply State_eqb_eq in E. symmetry in E.
    destruct (Hr E) as (child & P & X).
    destruct (check_status_running_job self now child E P) as (S' & (rest & P') & W').
    destruct (poll_life child X) as [L X'].
    assert (Hw : (work (polled now self) < work self)%nat).
    { unfold work at 1. rewrite S'. unfold work. rewrite E, P.
      destruct (fst (poll child)); [lia|].
      rewrite P'. unfold life in *. cbn [exits_after]. lia. }
    repeat split.
    + intros c. rewrite W'. apply Hs.
    + intros _. exists (mkPopen (exits_after (snd (poll child)))
                               (returncode (snd (poll child))) rest).
      split; [exact P' | exact X'].
    + lia.
    + intros _. exact Hw.
    + rewrite S'. destruct (fst (poll child)); discriminate.
    + congruence.
  - assert (N : status self <> RUNNING).
    { intros H. rewrite H in E. discriminate. }
    rewrite (check_status_idle self now N).
    repeat split; auto; congruence.
Qed.

(** A launch keeps a job healthy, takes work away and ends its wait. *)
Lemma invoke_process_work self now :
  healthy self -> status self = WAITING ->
  healthy (invoke_process self now)
  /\ (work (invoke_process self now) < work self)%nat
  /\ status (invoke_process self now) <> WAITING.
Proof.
  intros [Hs _] S. unfold invoke_process, work at 2. rewrite S.
  destruct (spawn self) as [child|] eqn:W.
  - repeat split.
    + cbn [spawn set_time set_status set_process]. rewrite W.
      intros c Hc. apply Hs. exact Hc.
    + intros _. exists child. split; [reflexivity|]. now apply Hs.
    + unfold work. cbn [status process set_time set_status set_process]. lia.
    + discriminate.
  - repeat split.
    + cbn [spawn set_status set_process]. rewrite W. discriminate.
    + discriminate.
    + unfold work. cbn [status set_status set_process]. lia.
    + discriminate.
Qed.

Lemma Forall_set_nth {A} (P : A -> Prop) x : forall l i,
  Forall P l -> P x -> Forall P (set_nth i x l).
Proof.
  induction l as [|y l IH]; intros [|i] H Hx; simpl; auto;
    inversion H; subst; constructor; auto.
Qed.

Lemma work_left_cons proc ps :
  work_left (proc :: ps) = (work proc + work_left ps)%nat.
Proof. reflexivity. Qed.

Lemma work_left_set_nth x : forall l i y,
  nth_error l i = Some y ->
  (work_left (set_nth i x l) + work y = work_left l + work x)%nat.
Proof.
  induction l as [|z l IH]; intros [|i] y H; cbn [set_nth nth_error] in *;
    try discriminate; rewrite !work_left_cons.
  - injection H as ->. lia.
  - specialize (IH i y H). lia.
Qed.

(** The loop over the jobs: work never grows, and shrinks when a job is
    still RUNNING after it. *)
Lemma polled_work now : forall ps,
  Forall healthy ps ->
  let ps' := map (polled now) ps in
  Forall healthy ps'
  /\ (work_left ps' <= work_left ps)%nat
  /\ (0 < count_state RUNNING ps' -> (work_left ps' < work_left ps)%nat).
Proof.
  induction ps as [|proc ps IH]; intros H; cbv zeta.
  - repeat split; [constructor | reflexivity | cbn; lia].
  - inversion H as [|? ? Hp Hps]; subst.
    destruct (IH Hps) as (F & Le & Lt).
    destruct (check_status_work proc now Hp) as (Hh & Hle & Hlt & _).
    cbn [map]. rewrite count_state_cons, !work_left_cons.
    repeat split; [constructor; assumption | lia |].
    intros Hc.
    destruct (State_eqb RUNNING (status (polled now proc)))
      eqn:E.
    + apply State_eqb_eq in E. symmetry in E. apply check_status_running in E.
      specialize (Hlt E). lia.
    + specialize (Lt ltac:(lia)). lia.
Qed.

(** One launch by [_next_proc] keeps the pool sound and takes work away. *)
Lemma next_proc_sound st job now :
  sound st -> nth_error (procs st) (_proc st) = Some job ->
  let st' := set__proc (set_procs st (set_nth (_proc st) (invoke_process job now)
                                             (procs st)))
                       (S (_proc st)) in
  sound st' /\ (work_left (procs st') < work_left (procs st))%nat.
Proof.
  intros (Ha & Hb & Hc) E st'. subst st'. unfold sound.
  cbn [procs _proc n_process set__proc set_procs].
  assert (S0 : status job = WAITING) by (apply (Ha _ _ E); lia).
  assert (Hj : healthy job) by (rewrite Forall_forall in Hb; eapply Hb, nth_error_In, E).
  destruct (invoke_process_work job now Hj S0) as (Hh & Hw & Hn).
  split; [split; [|split]|].
  - intros i proc Hi. destruct (Nat.eq_dec (_proc st) i) as [Eq|Ne].
    + subst i. rewrite (nth_error_set_nth_eq _ _ _ _ E) in Hi. injection Hi as <-.
      split; [congruence | lia].
    + rewrite nth_error_set_nth_neq in Hi by assumption.
      rewrite (Ha i proc Hi). lia.
  - now apply Forall_set_nth.
  - exact Hc.
  - pose proof (work_left_set_nth (invoke_process job now) _ _ _ E). lia.
Qed.

(** The admission loop keeps the pool sound, adds no work, takes some away
    when there is a free slot and a job left to launch, and leaves the jobs
    alone when there is none left. *)
Lemma fill_loop_work : forall fuel count st count' st',
  sound st -> fill_loop fuel count st = Some (count', st') ->
  sound st'
  /\ (work_left (procs st') <= work_left (procs st))%nat
  /\ (count < n_process st -> (_proc st < List.length (procs st))%nat ->
      (work_left (procs st') < work_left (procs st))%nat)
  /\ ((List.length (procs st) <= _proc st)%nat -> procs st' = procs st).
Proof.
  induction fuel as [|fuel IH]; intros count st count' st' Hs H; simpl in H.
  - destruct (count <? n_process st) eqn:L; [discriminate|].
    injection H as <- <-. apply Z.ltb_ge in L.
    split; [exact Hs|]. split; [lia|]. split; [lia | reflexivity].
  - destruct (count <? n_process st) eqn:L.
    + destruct (nth_error (procs st) (_proc st)) as [job|] eqn:E.
      * rewrite (next_proc_some count st job E) in H.
        destruct (next_proc_sound st job (clock st) Hs E) as [Hs' Hw].
        cbv zeta in Hs', Hw.
        destruct (IH _ _ _ _ Hs' H) as (Hs'' & Hle & _ & _).
        split; [exact Hs''|]. split; [lia|]. split; [lia|].
        intros Hlen. apply nth_error_None in Hlen. congruence.
      * rewrite (next_proc_none count st E) in H. injection H as <- <-.
        apply nth_error_None in E.
        split; [exact Hs|]. split; [lia|]. split; [lia | reflexivity].
    + injection H as <- <-. apply Z.ltb_ge in L.
      split; [exact Hs|]. split; [lia|]. split; [lia | reflexivity].
Qed.

Lemma initial_sound st :
  initial st -> children_exit st -> 1 <= n_process st -> sound st.
Proof.
  intros [Hc Hw] Hx Hn. split; [|split; [|exact Hn]].
  - intros i proc Hi. rewrite Hc. rewrite Forall_forall in Hw.
    split; [lia|]. intros _. eapply Hw, nth_error_In, Hi.
  - unfold children_exit in Hx. rewrite Forall_forall in *.
    intros proc Hin. split; [apply Hx, Hin|].
    rewrite (Hw proc Hin). discriminate.
Qed.

Lemma gen_init_sound st :
  initial st -> children_exit st -> 1 <= n_process st ->
  sound (gen_init_processes st).
Proof.
  intros Hi Hx Hn. unfold gen_init_processes.
  pose proof (fill_slots_spec 0 st) as A. destruct (fill_slots 0 st) as [c st'].
  now apply (fill_loop_work _ _ _ _ _ (initial_sound st Hi Hx Hn) A).
Qed.

Lemma existsb_active_false ps :
  existsb active ps = false -> Forall terminal ps.
Proof.
  induction ps as [|proc ps IH]; cbn [existsb]; intros H; constructor.
  - apply orb_false_iff in H as [H _]. unfold active, terminal in *.
    destruct (status proc); simpl in H; auto; discriminate.
  - apply IH. now apply orb_false_iff in H as [_ H].
Qed.

Lemma existsb_active_true ps :
  existsb active ps = true ->
  0 < count_state RUNNING ps
  \/ exists i proc, nth_error ps i = Some proc /\ status proc = WAITING.
Proof.
  induction ps as [|proc ps IH]; cbn [existsb]; intros H; [discriminate|].
  rewrite count_state_cons. pose proof (count_state_nonneg RUNNING ps).
  destruct (status proc) eqn:St.
  - right. exists 0%nat, proc. auto.
  - left. cbn [State_eqb]. lia.
  - unfold active in H. rewrite St in H. cbn in H.
    destruct (IH H) as [?|(i & q & ? & ?)]; [left; cbn [State_eqb]; lia|].
    right. exists (S i), q. auto.
  - unfold active in H. rewrite St in H. cbn in H.
    destruct (IH H) as [?|(i & q & ? & ?)]; [left; cbn [State_eqb]; lia|].
    right. exists (S i), q. auto.
Qed.

(** One round of the monitor loop on a sound pool: when the loop goes on,
    work was taken away; when it stops, every job is in a final state. *)
Lemma refilled_progress st :
  sound st ->
  sound (refilled st)
  /\ (if existsb active (map (polled (fadd (clock st) (sleep_sec st))) (procs st))
      then (work_left (procs (refilled st)) < work_left (procs st))%nat
      else Forall terminal (procs (refilled st))).
Proof.
  intros (Ha & Hb & Hc). unfold refilled. cbv zeta.
  set (now := fadd (clock st) (sleep_sec st)).
  set (ps := map (polled now) (procs st)).
  destruct (polled_work now (procs st) Hb) as (Hb' & Hle & Hlt). fold ps in Hb', Hle, Hlt.
  assert (Ha' : forall i proc, nth_error ps i = Some proc ->
                  (status proc = WAITING <-> (_proc st <= i)%nat)).
  { intros i proc Hi. unfold ps in Hi. rewrite nth_error_map in Hi.
    destruct (nth_error (procs st) i) as [q|] eqn:Q; [|discriminate].
    injection Hi as <-.
    assert (Hq : healthy q) by (rewrite Forall_forall in Hb; eapply Hb, nth_error_In, Q).
    destruct (check_status_work q now Hq) as (_ & _ & _ & ->). now apply Ha. }
  assert (Hs : sound (set_procs (set_clock st now) ps)) by (split; [exact Ha' | split; assumption]).
  pose proof (fill_slots_spec (count_state RUNNING ps) (set_procs (set_clock st now) ps)) as A.
  destruct (fill_slots _ _) as [count' st'].
  destruct (fill_loop_work _ _ _ _ _ Hs A) as (Hs' & Hle' & Hlt' & Hid).
  cbn [procs _proc n_process set_procs set_clock snd] in *.
  split; [exact Hs'|].
  destruct (existsb active ps) eqn:E.
  - destruct (existsb_active_true ps E) as [Hr | (i & proc & Hi & Hw)].
    + specialize (Hlt Hr). lia.
    + destruct (Z.eq_dec (count_state RUNNING ps) 0) as [Z0|Nz].
      * assert (_proc st < List.length ps)%nat.
        { apply (Ha' i proc Hi) in Hw.
          assert (i < List.length ps)%nat by (apply nth_error_Some; congruence). lia. }
        specialize (Hlt' ltac:(lia) ltac:(assumption)). lia.
      * pose proof (count_state_nonneg RUNNING ps).
        specialize (Hlt ltac:(lia)). lia.
  - pose proof (existsb_active_false ps E) as T.
    rewrite Hid; [exact T|].
    destruct (le_lt_dec (List.length ps) (_proc st)) as [?|Lt]; [assumption|].
    destruct (nth_error ps (_proc st)) as [proc|] eqn:Q;
      [|apply nth_error_None in Q; lia].
    assert (W : status proc = WAITING) by (apply (Ha' _ _ Q); lia).
    rewrite Forall_forall in T.
    destruct (T proc (nth_error_In _ _ Q)); congruence.
Qed.

Lemma sound_console st c : sound st -> sound (set_console st c).
Proof. intros H. exact H. Qed.

(** The exception of the loop over the jobs is the one of a poll step. *)
Lemma poll_all_raises now : forall ps p_remain count why,
  poll_all ps now p_remain count = inl why ->
  exists proc, In proc ps
               /\ snd (check_status_and_process_output proc now) = Some why.
Proof.
  induction ps as [|proc ps IH]; intros p_remain count why H; [discriminate|].
  cbn [poll_all] in H.
  destruct (check_status_and_process_output proc now) as [proc' [w|]] eqn:E.
  - injection H as <-. exists proc. rewrite E. split; [now left | reflexivity].
  - match type of H with
    | match poll_all ps now ?p ?c with _ => _ end = _ =>
        destruct (poll_all ps now p c) as [w|[[rest p'] c']] eqn:E';
          [|discriminate]
    end.
    injection H as <-. destruct (IH _ _ _ E') as (q & Hq & Hw).
    exists q. split; [now right | exact Hw].
Qed.

(** Where the exception of a round comes from. *)
Lemma tick_raises st why : tick st = inl why -> round_raises st why.
Proof.
  unfold tick, round_raises, refilled.
  destruct (sleep (sleep_sec st)) as [w|]; [intros [= <-]; now left|].
  cbn [procs clock set_clock]. cbv zeta.
  destruct (poll_all (procs st) (fadd (clock st) (sleep_sec st)) false 0)
    as [w|[[ps p] count]] eqn:E.
  - intros [= <-]. right. left. exact (poll_all_raises _ _ _ _ _ E).
  - apply poll_all_spec in E. injection E as -> -> ->. cbn [orb Z.add].
    destruct (fill_slots _ _) as [c st1]. cbn [snd].
    destruct (print_output_summary (procs st1)) as [w|s]; [|discriminate].
    intros [= <-]. right. right. reflexivity.
Qed.

(** On a sound pool the monitor loop ends within as many rounds as there
    is work left, plus one: it returns, with every job in a final state, or
    the exception of a round ends it. *)
Lemma monitor_output_loop_ends st0 : forall fuel st,
  reachable st0 st -> sound st -> (work_left (procs st) < fuel)%nat ->
  exists r, monitor_output_loop fuel st = Some r
            /\ match r with
               | Ok st' => reachable st0 st' /\ Forall terminal (procs st')
               | Stopped why =>
                   exists st1, reachable st0 st1 /\ tick st1 = inl why
               end.
Proof.
  induction fuel as [|fuel IH]; intros st R Hs Hf; [lia|].
  cbn [monitor_output_loop].
  destruct (tick st) as [why|[p_remain st1]] eqn:T.
  - exists (Stopped why). split; [reflexivity|]. eauto.
  - destruct (refilled_progress st Hs) as [Hs' Hp].
    destruct (tick_spec _ _ _ T) as (Ep & s & _ & E1).
    rewrite <- Ep in Hp.
    assert (R1 : reachable st0 st1) by exact (reach_tick st0 st p_remain st1 R T).
    assert (S1 : sound st1) by (rewrite E1; now apply sound_console).
    assert (P1 : procs st1 = procs (refilled st)) by (now rewrite E1).
    destruct p_remain.
    + apply IH; [exact R1 | exact S1 | rewrite P1; lia].
    + exists (Ok st1). split; [reflexivity|]. split; [exact R1 | now rewrite P1].
Qed.

Lemma count_terminal ps :
  Forall terminal ps ->
  count_state WAITING ps = 0 /\ count_state RUNNING ps = 0.
Proof.
  induction 1 as [|proc ps [Hp|Hp] _ [IH1 IH2]];
    rewrite ?count_state_cons, ?Hp, ?IH1, ?IH2; auto.
Qed.

(** C2, as the code has it. When every child the pool may spawn exits, the
    monitor loop does not go on for ever. With enough fuel it returns, and
    then every job is FINISH or ERROR, none WAITING or RUNNING; or it is ended
    by the exception of one of its rounds: [sleep] refusing the interval, the
    output of a child that cannot be decoded, or a status line that cannot be
    formatted. *)
Theorem monitor_loop_terminates st0 :
  initial st0 -> 1 <= n_process st0 -> children_exit st0 ->
  exists fuel r,
    monitor_output_loop fuel (gen_init_processes st0) = Some r
    /\ match r with
       | Ok st =>
           Forall terminal (procs st)
           /\ count_state WAITING (procs st) = 0
           /\ count_state RUNNING (procs st) = 0
       | Stopped why =>
           exists st, reachable st0 st /\ round_raises st why
       end.
Proof.
  intros Hi Hn Hx.
  pose proof (gen_init_sound st0 Hi Hx Hn) as Hs.
  destruct (monitor_output_loop_ends st0
              (S (work_left (procs (gen_init_processes st0)))) _
              (reach_init st0) Hs (Nat.lt_succ_diag_r _))
    as (r & Hl & Hr).
  exists (S (work_left (procs (gen_init_processes st0)))), r.
  split; [exact Hl|]. destruct r as [st|why].
  - destruct Hr as [_ Ht]. split; [exact Ht|]. now apply count_terminal.
  - destruct Hr as (st & R & T). exists st. split; [exact R|].
    now apply tick_raises.
Qed.

Lemma monitor_loop_terminates_witness :
  initial sample_pool /\ 1 <= n_process sample_pool /\ children_exit sample_pool
  /\ monitor_output_loop 5 (gen_init_processes sample_pool)
     = Some (Ok (after_tick (after_tick (after_tick
                   (after_tick (gen_init_processes sample_pool))))))
  /\ exists fuel r,
       monitor_output_loop fuel (gen_init_processes sample_pool) = Some r
       /\ match r with
          | Ok st =>
              Forall terminal (procs st)
              /\ count_state WAITING (procs st) = 0
              /\ count_state RUNNING (procs st) = 0
          | Stopped why =>
              exists st, reachable sample_pool st /\ round_raises st why
          end.
Proof.
  assert (Hi : initial sample_pool) by (split; [reflexivity | repeat constructor]).
  assert (Hn : 1 <= n_process sample_pool) by (simpl; lia).
  assert (Hx : children_exit sample_pool).
  { repeat constructor; intros child H; try discriminate;
      injection H as <-; discriminate. }
  split; [exact Hi|]. split; [exact Hn|]. split; [exact Hx|].
  split; [vm_compute; reflexivity|].
  exact (monitor_loop_terminates sample_pool Hi Hn Hx).
Defined.

(** C2, as it is worded. With the interval -1 (the command line accepts it)
    every child of the sample pool exits, and yet the loop never returns:
    its first [sleep] raises, with two jobs RUNNING and one WAITING. *)
Lemma negative_interval_ends_the_loop : ~ loop_as_claimed.
Proof.
  intros H.
  destruct (H (sample_pool_sleeping (SFopp (of_int 1)))) as (fuel & st & E & _).
  - split; [reflexivity | repeat constructor].
  - simpl. lia.
  - repeat constructor; intros child C; try discriminate;
      injection C as <-; discriminate.
  - destruct fuel as [|fuel]; [discriminate|].
    cbn [monitor_output_loop] in E.
    assert (T : tick (gen_init_processes (sample_pool_sleeping (SFopp (of_int 1))))
                = inl (Raised "ValueError")) by (vm_compute; reflexivity).
    rewrite T in E. discriminate.
Qed.

(** The sample pool, round by round: two slots, the failed launch costs
    none of them, a freed slot is filled in the round that frees it. With a
    negative interval the first round raises; with output that is not text in
    UTF-8 the round that reads it raises, the job already FINISH. *)
Example sample_pool_run :
  map status (procs (gen_init_processes sample_pool))
  = [ERROR; RUNNING; RUNNING; WAITING]
  /\ map status (procs (after_tick (gen_init_processes sample_pool)))
     = [ERROR; RUNNING; FINISH; RUNNING]
  /\ option_map (fun r => match r with
                          | Ok st => map status (procs st)
                          | Stopped _ => []
                          end)
       (monitor_output_loop 5 (gen_init_processes sample_pool))
     = Some [ERROR; FINISH; FINISH; FINISH]
  /\ monitor_output_loop 3 (gen_init_processes sample_pool) = None
  /\ monitor_output_loop 5
       (gen_init_processes (sample_pool_sleeping (SFopp (of_int 1))))
     = Some (Stopped (Raised "ValueError"))
  /\ (let garbled :=
        mkProgram (Some (mkPopen (Some 0%nat) 0 [Undecodable])) RUNNING fzero ""
                  "a.dat" "a_dat" fzero 0 None in
      map status (map fst [check_status_and_process_output garbled (of_int 1)])
      = [FINISH]
      /\ monitor_output_loop 5
           (mkPool [garbled] 1 1 1 (of_int 1) fzero None None None false [])
         = Some (Stopped (Raised "UnicodeDecodeError"))).
Proof. repeat split; vm_compute; reflexivity. Qed.

(** ** The summary of a round *)

Lemma in_state_cons s proc ps :
  in_state s (proc :: ps)
  = if State_eqb s (status proc) then proc :: in_state s ps else in_state s ps.
Proof. reflexivity. Qed.

Lemma reporting_cons proc ps :
  reporting (proc :: ps)
  = if State_eqb RUNNING (status proc) && truthy_float (running_eta proc)
    then proc :: reporting ps else reporting ps.
Proof.
  unfold reporting. rewrite in_state_cons.
  destruct (State_eqb RUNNING (status proc)); [|reflexivity].
  cbn [filter andb]. reflexivity.
Qed.

Lemma count_state_in_state s ps :
  count_state s ps = Z.of_nat (List.length (in_state s ps)).
Proof. reflexivity. Qed.

(** The accumulators after the loop of [print_output_summary]. *)
Lemma tally_from ps : forall t,
  let r := fold_left tally_step ps t in
  n_waiting r = n_waiting t + count_state WAITING ps
  /\ n_running r = n_running t + count_state RUNNING ps
  /\ n_finished r = n_finished t + count_state FINISH ps
  /\ n_error r = n_error t + count_state ERROR ps
  /\ running_eta_c r = running_eta_c t + Z.of_nat (List.length (reporting ps))
  /\ running_perc_sum r
     = fold_left Z.add (map running_perc (in_state RUNNING ps)) (running_perc_sum t)
  /\ running_eta_sum r
     = fold_left fadd (map running_eta (reporting ps)) (running_eta_sum t)
  /\ finish_time r
     = fold_left fadd (map time (in_state FINISH ps)) (finish_time t).
Proof.
  induction ps as [|proc ps IH]; intros t; cbv zeta.
  - cbn [fold_left in_state reporting filter map List.length].
    unfold count_state. cbn [filter List.length Z.of_nat].
    repeat split; lia.
  - cbn [fold_left]. specialize (IH (tally_step t proc)). cbv zeta in IH.
    destruct IH as (Hw & Hr & Hf & He & Hc & Hp & Ht & Hft).
    rewrite Hw, Hr, Hf, He, Hc, Hp, Ht, Hft.
    rewrite !count_state_cons, reporting_cons, !in_state_cons.
    unfold tally_step.
    destruct (status proc) eqn:St; cbn [State_eqb andb];
      [ | destruct (truthy_float (running_eta proc)) eqn:Eq | | ];
      cbn [n_waiting n_running n_finished n_error running_eta_c running_perc_sum
           running_eta_sum finish_time map fold_left List.length];
      repeat split; try lia; reflexivity.
Qed.

Lemma fmean_spec xs :
  fmean xs
  = if Z.of_nat (List.length xs) =? 0 then fzero
    else fdiv (fsum xs) (of_int (Z.of_nat (List.length xs))).
Proof. destruct xs; reflexivity. Qed.

Lemma imean_spec ns :
  imean ns
  = if Z.of_nat (List.length ns) =? 0 then inr fzero
    else truediv (isum ns) (Z.of_nat (List.length ns)).
Proof. destruct ns; reflexivity. Qed.

(** The summary of a round, by populations. *)
Lemma print_output_summary_spec ps :
  print_output_summary ps
  = match imean (map running_perc (in_state RUNNING ps)) with
    | inl why => inl why
    | inr perc =>
        match status_line (summary_by_state ps perc) with
        | inl why => inl why
        | inr _ => inr (summary_by_state ps perc)
        end
    end.
Proof.
  unfold print_output_summary, tally, summary_by_state.
  destruct (tally_from ps (mkTally fzero 0 fzero 0 0 0 0 0))
    as (Hw & Hr & Hf & He & Hc & Hp & Ht & Hft).
  cbn [n_waiting n_running n_finished n_error running_eta_c running_perc_sum
       running_eta_sum finish_time] in *.
  rewrite Z.add_0_l in Hw, Hr, Hf, He, Hc.
  rewrite Hw, Hr, Hf, He, Hc, Hp, Ht, Hft.
  rewrite imean_spec, !fmean_spec, !length_map, !count_state_in_state.
  reflexivity.
Qed.

Lemma status_line_raises s why :
  status_line s = inl why ->
  py_round (running_perc_avg s) = inl why
  \/ duration (running_eta_avg s) = inl why
  \/ duration (finished_avg s) = inl why.
Proof.
  unfold status_line.
  destruct (py_round (running_perc_avg s)); [intros [= <-]; auto|].
  destruct (duration (running_eta_avg s)); [intros [= <-]; auto|].
  destruct (duration (finished_avg s)); [intros [= <-]; auto | discriminate].
Qed.

(** C7, as the code has it. The summary of a round holds the numbers of
    WAITING, RUNNING, FINISH and ERROR jobs; the average percent over all
    RUNNING jobs (0 when none runs); the average ETA over the RUNNING jobs
    with a nonzero ETA (0 when there is none); the average elapsed time over
    the FINISH jobs (0 when none has finished). The averages are floats,
    the sums taken in job order; no summary is printed when the division of
    the percents overflows or a rounded average cannot be shown. *)
Theorem summary_reports ps :
  match print_output_summary ps with
  | inr s =>
      waiting s = count_state WAITING ps
      /\ running s = count_state RUNNING ps
      /\ finished s = count_state FINISH ps
      /\ error s = count_state ERROR ps
      /\ inr (running_perc_avg s) = imean (map running_perc (in_state RUNNING ps))
      /\ running_eta_avg s = fmean (map running_eta (reporting ps))
      /\ finished_avg s = fmean (map time (in_state FINISH ps))
  | inl why =>
      imean (map running_perc (in_state RUNNING ps)) = inl why
      \/ (exists perc,
            imean (map running_perc (in_state RUNNING ps)) = inr perc
            /\ py_round perc = inl why)
      \/ duration (fmean (map running_eta (reporting ps))) = inl why
      \/ duration (fmean (map time (in_state FINISH ps))) = inl why
  end.
Proof.
  rewrite print_output_summary_spec.
  destruct (imean (map running_perc (in_state RUNNING ps))) as [why|perc] eqn:E;
    [now left|].
  destruct (status_line (summary_by_state ps perc)) as [why|l] eqn:L.
  - apply status_line_raises in L.
    cbn [summary_by_state running_perc_avg running_eta_avg finished_avg] in L.
    destruct L as [L | [L | L]]; [right; left; eauto | auto | auto].
  - cbn [summary_by_state waiting running finished error running_perc_avg
         running_eta_avg finished_avg].
    repeat split; reflexivity.
Qed.

(** C7, as it is worded. With two RUNNING jobs, one at 50 percent without
    an ETA and one at 30 percent with an ETA of 10 seconds, the summary
    shows 40 percent, the average over both, not the 30 of the one job that
    reports an ETA. *)
Lemma percent_average_not_over_reporting_jobs : ~ summary_as_claimed.
Proof.
  intros H.
  specialize (H [running_job 50 fzero; running_job 30 (of_int 10)] _ eq_refl).
  vm_compute in H. discriminate.
Qed.

Example status_line_sample :
  match print_output_summary
          [running_job 50 fzero; running_job 30 (of_int 10);
           running_job 25 (of_int 15)] with
  | inr s => status_line s = inr [0; 3; 35; 12; 0; 0; 0]
  | inl _ => False
  end
  /\ print_output_summary
       [running_job 50 fzero; running_job 30 (S754_infinity false)]
     = inl (Raised "OverflowError").
Proof. split; vm_compute; reflexivity. Qed.

(** ** Cleaning up: properties *)

(** The three passes, block by block. *)
Lemma passes_spec {W : Type} (os : OS W) st w errs :
  let r := passes os st w errs in
  errors r = errs
  /\ exists w1 r1 w2 o2 r2 w3 r3,
       concatenate os st w = (w1, concatenated r, r1)
       /\ match r1 with
          | Some why => copied r = None /\ removed r = [] /\ raised r = Some why
          | None =>
              copy_all os st w1 = (w2, o2, r2) /\ copied r = o2
              /\ match r2 with
                 | Some why => removed r = [] /\ raised r = Some why
                 | None =>
                     if remove st
                     then remove_dir os FINISH (procs st) w2 = (w3, removed r, r3)
                          /\ raised r = r3
                     else removed r = [] /\ raised r = None
                 end
          end.
Proof.
  cbv zeta. unfold passes.
  destruct (concatenate os st w) as [[w1 o1] [why|]] eqn:Co.
  { split; [reflexivity|]. exists w1, (Some why), w, None, None, w, None.
    repeat split. }
  destruct (copy_all os st w1) as [[w2 o2] [why|]] eqn:Cp.
  { split; [reflexivity|]. exists w1, None, w2, o2, (Some why), w, None.
    repeat split. exact Cp. }
  destruct (remove st) eqn:R.
  - destruct (remove_dir os FINISH (procs st) w2) as [[w3 gone] r3] eqn:Rm.
    split; [reflexivity|]. exists w1, None, w2, o2, None, w3, r3.
    repeat split; [exact Cp | exact Rm].
  - split; [reflexivity|]. exists w1, None, w2, o2, None, w, None.
    repeat split. exact Cp.
Qed.

(** The pass: not asked for, stopped by the guard, or carried out. *)
Lemma check_and_cleanup_cases {W : Type} (os : OS W) st w :
  let errs :=
    map artifact
        (filter (fun proc => State_eqb FINISH (status proc)
                             && negb (isfile os w (artifact proc)))
                (procs st)) in
  (truthy (output_file st) || truthy (final_dir st) || remove st = false
   /\ check_and_cleanup os st w = mkCleanup [] None None [] None w)
  \/ (truthy (output_file st) || truthy (final_dir st) || remove st = true
      /\ truthy (csv st) = true /\ errs <> []
      /\ check_and_cleanup os st w = mkCleanup errs None None [] None w)
  \/ (truthy (output_file st) || truthy (final_dir st) || remove st = true
      /\ (truthy (csv st) = false \/ errs = [])
      /\ check_and_cleanup os st w = passes os st w errs).
Proof.
  cbv zeta. unfold check_and_cleanup.
  destruct (truthy (output_file st) || truthy (final_dir st) || remove st);
    [|left; split; reflexivity].
  right. destruct (truthy (csv st)); cbn [andb negb].
  - destruct (map artifact _) as [|e errs]; cbn [negb].
    + right. auto.
    + left. repeat split. discriminate.
  - right. auto.
Qed.

Lemma errors_spec {W : Type} (os : OS W) st w :
  truthy (output_file st) || truthy (final_dir st) || remove st = true ->
  errors (check_and_cleanup os st w)
  = map artifact
      (filter (fun proc => State_eqb FINISH (status proc)
                           && negb (isfile os w (artifact proc)))
              (procs st)).
Proof.
  intros H.
  destruct (check_and_cleanup_cases os st w) as [[Q _] | [(_ & _ & _ & ->) | (_ & _ & ->)]];
    [congruence | reflexivity | apply passes_spec].
Qed.

(** What the loop of a pass handles are artifacts of FINISH jobs. *)
Lemma transfer_finish {W : Type} (os : OS W) op : forall ps w w' l r,
  transfer os op ps w = (w', l, r) ->
  forall a, In a l ->
    exists proc, In proc ps /\ status proc = FINISH /\ artifact proc = a.
Proof.
  induction ps as [|proc ps IH]; intros w w' l r H a Ha; cbn [transfer] in H.
  - injection H as _ <- _. destruct Ha.
  - destruct (State_eqb FINISH (status proc)) eqn:S; cbn [andb] in H.
    + destruct (isfile os w (artifact proc)).
      * destruct (op w (artifact proc)) as [why|w1].
        -- injection H as _ <- _. destruct Ha.
        -- destruct (transfer os op ps w1) as [[w2 l2] r2] eqn:T.
           injection H as _ <- _. destruct Ha as [<- | Ha].
           ++ exists proc. apply State_eqb_eq in S. auto using in_eq.
           ++ destruct (IH _ _ _ _ T a Ha) as (q & Hq & R). exists q. auto using in_cons.
      * destruct (IH _ _ _ _ H a Ha) as (q & Hq & R). exists q. auto using in_cons.
    + destruct (IH _ _ _ _ H a Ha) as (q & Hq & R). exists q. auto using in_cons.
Qed.

Lemma keeps_refl {W : Type} (os : OS W) ps w : keeps os ps w w.
Proof. intros proc _. reflexivity. Qed.

Lemma keeps_trans {W : Type} (os : OS W) ps w1 w2 w3 :
  keeps os ps w1 w2 -> keeps os ps w2 w3 -> keeps os ps w1 w3.
Proof. intros H1 H2 proc Hin. now rewrite (H2 proc Hin), (H1 proc Hin). Qed.

Lemma verified_keeps {W : Type} (os : OS W) all w w' ps :
  keeps os all w w' -> incl ps all ->
  filter (verified os w') ps = filter (verified os w) ps.
Proof.
  intros K I. apply filter_ext_in. intros proc Hin. unfold verified.
  now rewrite (K proc (I proc Hin)).
Qed.

Lemma starts_nil {A : Type} (l : list A) : starts [] l.
Proof. now exists l. Qed.

Lemma starts_cons {A : Type} (x : A) l l' : starts l l' -> starts (x :: l) (x :: l').
Proof. intros [rest ->]. now exists rest. Qed.

Lemma starts_In {A : Type} (l l' : list A) x : starts l l' -> In x l -> In x l'.
Proof. intros [rest ->] H. apply in_app_iff. now left. Qed.

(** The loop of a pass whose operation disturbs no artifact: it handles the
    FINISH jobs whose artifact was there at the start, in job order, up to
    the exception that ends it, if any. *)
Lemma transfer_kept {W : Type} (os : OS W) op (all : list Program) :
  (forall w1 w2 src, op w1 src = inr w2 -> keeps os all w1 w2) ->
  forall ps w w' l r,
    incl ps all -> transfer os op ps w = (w', l, r) ->
    keeps os all w w'
    /\ starts l (map artifact (filter (verified os w) ps))
    /\ (r = None -> l = map artifact (filter (verified os w) ps)).
Proof.
  intros Hop. induction ps as [|proc ps IH]; intros w w' l r I H;
    cbn [transfer] in H.
  - injection H as <- <- <-. split; [apply keeps_refl|].
    split; [apply starts_nil | reflexivity].
  - assert (I' : incl ps all) by (intros q Hq; apply I; now right).
    change (State_eqb FINISH (status proc) && isfile os w (artifact proc))
      with (verified os w proc) in H.
    cbn [filter]. destruct (verified os w proc).
    + destruct (op w (artifact proc)) as [why|w1] eqn:O.
      * injection H as <- <- <-. split; [apply keeps_refl|].
        split; [apply starts_nil | discriminate].
      * destruct (transfer os op ps w1) as [[w2 l2] r2] eqn:T.
        injection H as <- <- <-.
        destruct (IH _ _ _ _ I' T) as (K & St & E).
        pose proof (Hop _ _ _ O) as K1.
        rewrite (verified_keeps os all w w1 ps K1 I') in St, E.
        split; [exact (keeps_trans os all _ _ _ K1 K)|].
        cbn [map]. split; [now apply starts_cons|].
        intros R. now rewrite (E R).
    + exact (IH _ _ _ _ I' H).
Qed.

Lemma concatenate_kept {W : Type} (os : OS W) st w w' o r :
  undisturbed os st -> concatenate os st w = (w', o, r) ->
  keeps os (procs st) w w'
  /\ (forall l, o = Some l ->
        starts l (map artifact (filter (verified os w) (procs st)))
        /\ (r = None -> l = map artifact (filter (verified os w) (procs st))))
  /\ (truthy (output_file st) = true -> r = None -> o <> None).
Proof.
  intros U. unfold concatenate.
  destruct (output_file st) as [out|] eqn:Eo;
    [|intros [= <- <- <-]; split; [apply keeps_refl|];
      split; [discriminate | discriminate]].
  destruct (truthy (Some out));
    [|intros [= <- <- <-]; split; [apply keeps_refl|];
      split; [discriminate | discriminate]].
  destruct (open_wb os w out) as [why|w1] eqn:O.
  { intros [= <- <- <-]. split; [apply keeps_refl|].
    split; [discriminate | discriminate]. }
  destruct (transfer os _ (procs st) w1) as [[w2 l2] r2] eqn:T.
  intros [= <- <- <-].
  pose proof (U _ _ (step_open os st w w1 out Eo O)) as K1.
  destruct (transfer_kept os _ (procs st)
              (fun a b src Hs => U _ _ (step_append os st a b out src Eo Hs))
              _ _ _ _ _ (incl_refl _) T) as (K & St & E).
  rewrite (verified_keeps os (procs st) w w1 _ K1 (incl_refl _)) in St, E.
  split; [exact (keeps_trans os _ _ _ _ K1 K)|]. split.
  - intros l [= <-]. auto.
  - discriminate.
Qed.

Lemma copy_all_kept {W : Type} (os : OS W) st w w' o r :
  undisturbed os st -> copy_all os st w = (w', o, r) ->
  keeps os (procs st) w w'
  /\ (forall l, o = Some l ->
        starts l (map artifact (filter (verified os w) (procs st)))
        /\ (r = None -> l = map artifact (filter (verified os w) (procs st))))
  /\ (truthy (final_dir st) = true -> r = None -> o <> None).
Proof.
  intros U. unfold copy_all.
  destruct (final_dir st) as [d|] eqn:Ed;
    [|intros [= <- <- <-]; split; [apply keeps_refl|];
      split; [discriminate | discriminate]].
  destruct (truthy (Some d));
    [|intros [= <- <- <-]; split; [apply keeps_refl|];
      split; [discriminate | discriminate]].
  destruct (makedirs os w d) as [why|w1] eqn:O.
  { intros [= <- <- <-]. split; [apply keeps_refl|].
    split; [discriminate | discriminate]. }
  destruct (transfer os _ (procs st) w1) as [[w2 l2] r2] eqn:T.
  intros [= <- <- <-].
  pose proof (U _ _ (step_makedirs os st w w1 d Ed O)) as K1.
  destruct (transfer_kept os _ (procs st)
              (fun a b src Hs => U _ _ (step_copy os st a b d src Ed Hs))
              _ _ _ _ _ (incl_refl _) T) as (K & St & E).
  rewrite (verified_keeps os (procs st) w w1 _ K1 (incl_refl _)) in St, E.
  split; [exact (keeps_trans os _ _ _ _ K1 K)|]. split.
  - intros l [= <-]. auto.
  - discriminate.
Qed.

Lemma concatenate_finish {W : Type} (os : OS W) st w w' l r :
  concatenate os st w = (w', Some l, r) ->
  forall a, In a l ->
    exists proc, In proc (procs st) /\ status proc = FINISH /\ artifact proc = a.
Proof.
  unfold concatenate. destruct (output_file st) as [out|]; [|discriminate].
  destruct (truthy (Some out)); [|discriminate].
  destruct (open_wb os w out) as [why|w1]; [discriminate|].
  destruct (transfer os _ (procs st) w1) as [[w2 l2] r2] eqn:T.
  intros [= <- <- <-]. exact (transfer_finish os _ _ _ _ _ _ T).
Qed.

Lemma copy_all_finish {W : Type} (os : OS W) st w w' l r :
  copy_all os st w = (w', Some l, r) ->
  forall a, In a l ->
    exists proc, In proc (procs st) /\ status proc = FINISH /\ artifact proc = a.
Proof.
  unfold copy_all. destruct (final_dir st) as [d|]; [|discriminate].
  destruct (truthy (Some d)); [|discriminate].
  destruct (makedirs os w d) as [why|w1]; [discriminate|].
  destruct (transfer os _ (procs st) w1) as [[w2 l2] r2] eqn:T.
  intros [= <- <- <-]. exact (transfer_finish os _ _ _ _ _ _ T).
Qed.

(** C8, as the code has it. When concatenation, copying or removal was
    asked for, every FINISH job whose artifact is missing when the pass
    starts is reported. Only artifacts of FINISH jobs are ever concatenated
    or copied. With a CSV file, one missing artifact stops the pass: nothing
    is concatenated, copied or removed. Otherwise the pass goes on, and as
    long as its own file operations make no artifact appear or disappear,
    what it concatenates and what it copies is the beginning of the list of
    the artifacts that were there at the start, in job order, and the whole
    list when no file operation raises: the job with the missing artifact is
    left out, the others are handled. *)
Theorem cleanup_isolates_missing_artifact {W : Type} (os : OS W) st w :
  let r := check_and_cleanup os st w in
  let kept := map artifact (filter (verified os w) (procs st)) in
  (truthy (output_file st) || truthy (final_dir st) || remove st = true ->
   forall missing,
     In missing (procs st) -> status missing = FINISH ->
     isfile os w (artifact missing) = false ->
     In (artifact missing) (errors r))
  /\ (forall l a,
        concatenated r = Some l \/ copied r = Some l -> In a l ->
        exists proc, In proc (procs st) /\ status proc = FINISH
                     /\ artifact proc = a)
  /\ (undisturbed os st ->
      (forall l, concatenated r = Some l \/ copied r = Some l -> starts l kept)
      /\ (forall missing l,
            isfile os w (artifact missing) = false ->
            concatenated r = Some l \/ copied r = Some l ->
            ~ In (artifact missing) l)
      /\ (truthy (csv st) = false \/ errors r = [] -> raised r = None ->
          (truthy (output_file st) = true -> concatenated r = Some kept)
          /\ (truthy (final_dir st) = true -> copied r = Some kept)))
  /\ (truthy (csv st) = true -> errors r <> [] ->
      concatenated r = None /\ copied r = None /\ removed r = []
      /\ raised r = None /\ world r = w).
Proof.
  cbv zeta.
  pose proof (errors_spec os st w) as He.
  destruct (check_and_cleanup_cases os st w)
    as [[Q E] | [(Q & C & N & E) | (Q & C & E)]]; cbv zeta in *.
  - rewrite E, Q. cbn [errors concatenated copied removed raised world].
    split; [discriminate|].
    split; [intros l a [H | H]; discriminate|].
    split.
    + intros _. split; [intros l [H | H]; discriminate|].
      split; [intros missing l _ [H | H]; discriminate|].
      intros _ _. apply orb_false_iff in Q as [Q _].
      apply orb_false_iff in Q as [Q1 Q2]. rewrite Q1, Q2.
      split; discriminate.
    + intros _ H. now destruct H.
  - rewrite E. cbn [errors concatenated copied removed raised world].
    split.
    { intros _ missing Hin Hs Hm. apply in_map, filter_In.
      split; [exact Hin|]. rewrite Hs, Hm. reflexivity. }
    split; [intros l a [H | H]; discriminate|].
    split.
    + intros _. split; [intros l [H | H]; discriminate|].
      split; [intros missing l _ [H | H]; discriminate|].
      intros [H | H] _; congruence.
    + intros _ _. repeat split.
  - rewrite E.
    destruct (passes_spec os st w
                (map artifact
                   (filter (fun proc => State_eqb FINISH (status proc)
                                        && negb (isfile os w (artifact proc)))
                           (procs st))))
      as (Er & w1 & r1 & w2 & o2 & r2 & w3 & r3 & Co & Rest).
    cbv zeta in Er. rewrite Er.
    set (r := passes os st w _) in *.
    split.
    { intros _ missing Hin Hs Hm. apply in_map, filter_In.
      split; [exact Hin|]. rewrite Hs, Hm. reflexivity. }
    split.
    { intros l a Hl Ha. destruct Hl as [Hl | Hl].
      - rewrite Hl in Co. exact (concatenate_finish os st w w1 l r1 Co a Ha).
      - destruct r1 as [why|]; [destruct Rest; congruence|].
        destruct Rest as (Cp & Ec & _). rewrite Hl in Ec. subst o2.
        exact (copy_all_finish os st w1 w2 l r2 Cp a Ha). }
    split.
    + intros U.
      destruct (concatenate_kept os st w w1 _ r1 U Co) as (K1 & S1 & N1).
      assert (St : forall l, concatenated r = Some l \/ copied r = Some l ->
                   starts l (map artifact (filter (verified os w) (procs st)))).
      { intros l [Hl | Hl]; [exact (proj1 (S1 l Hl))|].
        destruct r1 as [why|]; [destruct Rest; congruence|].
        destruct Rest as (Cp & Ec & _). rewrite Hl in Ec. subst o2.
        destruct (copy_all_kept os st w1 w2 _ r2 U Cp) as (_ & S2 & _).
        rewrite (verified_keeps os (procs st) w w1 _ K1 (incl_refl _)) in S2.
        exact (proj1 (S2 l eq_refl)). }
      split; [exact St|]. split.
      * intros missing l Hm Hl Hin.
        apply (starts_In _ _ _ (St l Hl)) in Hin.
        apply in_map_iff in Hin as (proc & Ep & Hin).
        apply filter_In in Hin as [_ V]. unfold verified in V.
        apply andb_true_iff in V as [_ V]. congruence.
      * intros _ Hr.
        destruct r1 as [why|]; [destruct Rest as (_ & _ & ?); congruence|].
        destruct Rest as (Cp & Ec & R2).
        destruct r2 as [why|]; [destruct R2; congruence|].
        destruct (copy_all_kept os st w1 w2 _ None U Cp) as (_ & S2 & N2).
        rewrite (verified_keeps os (procs st) w w1 _ K1 (incl_refl _)) in S2.
        split; intros T.
        -- destruct (concatenated r) as [l|] eqn:El;
             [|now destruct (N1 T eq_refl)].
           now rewrite (proj2 (S1 l eq_refl) eq_refl).
        -- rewrite Ec. destruct o2 as [l|];
             [|now destruct (N2 T eq_refl)].
           now rewrite (proj2 (S2 l eq_refl) eq_refl).
    + intros Hc Hn. destruct C as [C | C]; congruence.
Qed.

(** C8, as it is worded: in a pool set up from a CSV file, the missing
    artifact of job b keeps the artifact of job a out of the output file. *)
Lemma csv_run_aborts_on_missing_artifact : ~ cleanup_as_claimed.
Proof.
  intros H.
  destruct (H csv_pool only_a (finished_job "b") (finished_job "a"))
    as (_ & Hc & _); try reflexivity; [right; left; reflexivity | left; reflexivity |].
  destruct (Hc eq_refl) as (l & E & _). vm_compute in E. discriminate.
Qed.

Lemma disk_undisturbed : undisturbed disk flat_pool.
Proof.
  intros w w' [out Ho Hop | out src Ho Hop | d Hd Hop | d src Hd Hop] proc Hin;
    cbn in Ho || cbn in Hd;
    first [injection Ho as <- | injection Hd as <-];
    cbn [disk open_wb copyfileobj makedirs copy] in Hop; cbv zeta in Hop;
    try destruct (mem "final" (dirs w));
    repeat match type of Hop with
           | (if ?b then _ else _) = _ => destruct b; try discriminate
           | match ?o with Some _ => _ | None => _ end = _ =>
               destruct o; try discriminate
           end;
    injection Hop as <-;
    destruct Hin as [<- | [<- | []]]; reflexivity.
Qed.

Lemma cleanup_isolates_missing_artifact_witness :
  truthy (csv flat_pool) = false
  /\ isfile disk only_a (artifact (finished_job "b")) = false
  /\ undisturbed disk flat_pool
  /\ raised (check_and_cleanup disk flat_pool only_a) = None
  /\ In "b_dat/b.dat" (errors (check_and_cleanup disk flat_pool only_a))
  /\ concatenated (check_and_cleanup disk flat_pool only_a) = Some ["a_dat/a.dat"]
  /\ copied (check_and_cleanup disk flat_pool only_a) = Some ["a_dat/a.dat"].
Proof.
  pose proof (cleanup_isolates_missing_artifact disk flat_pool only_a)
    as (A & _ & C & _).
  split; [reflexivity|]. split; [reflexivity|].
  split; [exact disk_undisturbed|]. split; [reflexivity|]. split.
  - apply (A eq_refl (finished_job "b")); [right; left|..]; reflexivity.
  - destruct (C disk_undisturbed) as (_ & _ & F).
    destruct (F (or_introl eq_refl) eq_refl) as [Co Cp].
    split; [exact (Co eq_refl) | exact (Cp eq_refl)].
Defined.

(** Two runs of the pass that the file system decides. With the output
    file asked for at the place of the missing artifact, opening it creates
    that file: job b is reported missing, and then concatenated and copied
    like job a. With an output file that cannot be written, the exception of
    [open] ends the pass: nothing is copied or removed. *)
Example cleanup_and_the_file_system :
  (let r := check_and_cleanup disk clash_pool only_a in
   errors r = ["b_dat/b.dat"]
   /\ concatenated r = Some ["a_dat/a.dat"; "b_dat/b.dat"]
   /\ copied r = Some ["a_dat/a.dat"; "b_dat/b.dat"]
   /\ raised r = None)
  /\ (let r := check_and_cleanup disk flat_pool locked_output in
      errors r = ["b_dat/b.dat"]
      /\ concatenated r = None /\ copied r = None /\ removed r = []
      /\ raised r = Some (Raised "PermissionError")
      /\ world r = locked_output).
Proof. repeat split; vm_compute; reflexivity. Qed.

(** ** Setting the pool up: properties *)

Lemma flat_jobs_spec host t_process :
  List.length (flat_jobs host t_process) = Z.to_nat t_process
  /\ Forall (fun proc => status proc = WAITING) (flat_jobs host t_process).
Proof.
  unfold flat_jobs. split.
  - now rewrite length_map, length_seq.
  - apply Forall_forall. intros proc H.
    apply in_map_iff in H as (i & <- & _). reflexivity.
Qed.

Lemma csv_jobs_spec host : forall rows filename_list acc count ps n,
  csv_jobs host rows filename_list acc count = inr (ps, n) ->
  Forall (fun proc => status proc = WAITING) acc ->
  Forall (fun proc => status proc = WAITING) ps
  /\ n - Z.of_nat (List.length ps) = count - Z.of_nat (List.length acc).
Proof.
  induction rows as [|row rows IH]; intros fl acc count ps n H Hacc;
    cbn [csv_jobs] in H.
  - injection H as <- <-. auto.
  - destruct (csv_row row " " None fl) as [[[params filename] fl']|];
      [|discriminate].
    destruct filename as [[|c f]|]; try discriminate.
    apply IH in H.
    + rewrite length_app in H. cbn [List.length] in H. split; [apply H | lia].
    + apply Forall_app. split; [exact Hacc | repeat constructor].
Qed.

(** C9. When set-up succeeds, the pool it returns has the limit
    min(L, T), L the configured limit and T the number of jobs (the
    [t_process] option, or the rows of the CSV file); in particular T
    itself when T is below L. No job has been launched at that point, and
    the number of RUNNING jobs stays within min(L, T) for the whole run. *)
Theorem setup_lowers_limit args host st :
  setup_proc args host = Ok st ->
  exists L,
    configured_limit args host = Some L
    /\ 1 <= L
    /\ t_process st = Z.of_nat (List.length (procs st))
    /\ n_process st = Z.min L (t_process st)
    /\ (t_process st < L -> n_process st = t_process st)
    /\ initial st
    /\ (forall st', reachable st st' ->
          count_state RUNNING (procs st') <= Z.min L (t_process st)).
Proof.
  unfold setup_proc. intros H.
  destruct (configured_limit args host) as [L|]; [|discriminate].
  destruct (L <? 1) eqn:HL; [discriminate|]. apply Z.ltb_ge in HL.
  match type of H with
  | match ?j with _ => _ end = _ => destruct j as [stop|[ps T]] eqn:J
  end; [discriminate|].
  destruct (T <? L) eqn:HT;
    [apply Z.ltb_lt in HT | apply Z.ltb_ge in HT];
    (match type of H with
     | (if ?g then _ else _) = _ => destruct g eqn:G; [discriminate|]
     end);
    apply orb_false_iff in G as [G1 G2];
    apply Z.leb_gt in G1; apply Z.leb_gt in G2;
    (destruct (compile_ok host); [|discriminate]);
    injection H as <-;
    cbn [n_process t_process procs _proc];
    (assert (Hps : T = Z.of_nat (List.length ps)
                   /\ Forall (fun proc => status proc = WAITING) ps);
     [ destruct (truthy (Args.csv_input args));
       [ destruct (truthy_int (Args.t_process args)); [discriminate|];
         destruct (csv_rows host) as [rows|]; [|discriminate];
         apply csv_jobs_spec in J; [|apply Forall_nil];
         cbn [List.length] in J; destruct J; split; [lia | assumption]
       | injection J as <- <-;
         match goal with
         | |- context [flat_jobs host ?t] =>
             destruct (flat_jobs_spec host t) as [Hl Hw]
         end;
         split; [rewrite Hl; lia | exact Hw] ]
     | ]);
    destruct Hps as [Hlen Hw];
    exists L; repeat split; try lia; try assumption;
    intros st' R;
    match type of R with
    | reachable ?s _ =>
        destruct (reachable_bound s st') as [B _];
          [split; [reflexivity | exact Hw] | cbn [n_process]; lia | exact R |
           cbn [n_process] in B; lia]
    end.
Qed.

Lemma setup_lowers_limit_witness :
  exists st,
    setup_proc sample_args sample_host = Ok st
    /\ configured_limit sample_args sample_host = Some 8
    /\ t_process st = 3 /\ n_process st = 3.
Proof.
  eexists. split; [reflexivity|].
  destruct (setup_lowers_limit sample_args sample_host _ eq_refl)
    as (L & HL & _ & _ & Hn & _).
  split; [reflexivity|]. split; [reflexivity|].
  vm_compute in HL. injection HL as <-. exact Hn.
Defined.

(** Set-up hands over a pool that has launched nothing and has a slot. *)
Lemma setup_proc_initial args host st :
  setup_proc args host = Ok st -> initial st /\ 1 <= n_process st.
Proof.
  unfold setup_proc. intros H.
  destruct (configured_limit args host) as [L|]; [|discriminate].
  destruct (L <? 1); [discriminate|].
  match type of H with
  | match ?j with _ => _ end = _ => destruct j as [why|[ps T]] eqn:J
  end; [discriminate|].
  match type of H with
  | (if ?g then _ else _) = _ => destruct g eqn:G; [discriminate|]
  end.
  apply orb_false_iff in G as [G _]. apply Z.leb_gt in G.
  destruct (compile_ok host); [|discriminate].
  injection H as <-. split; [split; [reflexivity|] | cbn [n_process]; lia].
  cbn [procs].
  destruct (truthy (Args.csv_input args)).
  - destruct (truthy_int (Args.t_process args)); [discriminate|].
    destruct (csv_rows host) as [rows|]; [|discriminate].
    now apply csv_jobs_spec in J; [|apply Forall_nil].
  - injection J as <- _. apply flat_jobs_spec.
Qed.

(** The whole run, from the command line on: when set-up succeeds and
    every child exits, the monitor loop ends: it returns with every job in a
    final state, or the exception of a round ends it. *)
Lemma run_terminates args host st0 :
  setup_proc args host = Ok st0 -> children_exit st0 ->
  exists fuel r,
    monitor_output_loop fuel (gen_init_processes st0) = Some r
    /\ match r with
       | Ok st => reachable st0 st /\ Forall terminal (procs st)
       | Stopped why => exists st1, reachable st0 st1 /\ tick st1 = inl why
       end.
Proof.
  intros H Hx. destruct (setup_proc_initial args host st0 H) as [Hi Hn].
  pose proof (gen_init_sound st0 Hi Hx Hn) as Hs.
  exists (S (work_left (procs (gen_init_processes st0)))).
  apply monitor_output_loop_ends;
    [apply reach_init | exact Hs | apply Nat.lt_succ_diag_r].
Qed.

(** Two rows with one file name stop set-up before any job exists; rows
    with different names give one job each, with the other columns as
    parameters. *)
Example setup_csv_rows :
  setup_proc csv_args duplicate_rows
  = Stopped (SysExit "error: you must specify unique filenames for each row in the CSV file")
  /\ match setup_proc csv_args two_rows with
     | Ok st =>
         map (fun proc => (filename proc, dir_ proc, params proc, status proc))
             (procs st)
         = [("foo.dat", "foo_dat", " source_x=0.1 ", WAITING);
            ("bar.dat", "bar_dat", " source_x=0.2 ", WAITING)]
         /\ n_process st = 2 /\ t_process st = 2
     | Stopped _ => False
     end.
Proof. split; [reflexivity | repeat split; reflexivity]. Qed.

Example setup_flat_jobs :
  match setup_proc sample_args sample_host with
  | Ok st =>
      map filename (procs st) = ["sim_data_1.dat"; "sim_data_2.dat"; "sim_data_3.dat"]
      /\ map dir_ (procs st) = ["sim_data_1_dat"; "sim_data_2_dat"; "sim_data_3_dat"]
  | Stopped _ => False
  end.
Proof. split; reflexivity. Qed.

(** ** The pool: order of admission, moves of a job, idle slots *)

Lemma check_status_waiting self now :
  status (polled now self) = WAITING
  <-> status self = WAITING.
Proof.
  pose proof (check_status_cases self now) as C.
  destruct (status self) eqn:S; try (rewrite C, S; tauto).
  destruct (process self) as [child|]; [|rewrite C, S; tauto].
  rewrite C. destruct (fst (poll child)); split; discriminate.
Qed.

Lemma process_output_descriptor self output :
  descriptor (process_output self output) = descriptor self.
Proof.
  unfold process_output.
  destruct (re_match trace_re output), (re_match percent_re output); reflexivity.
Qed.

Lemma drain_descriptor out : forall self,
  descriptor (fst (fst (drain self out))) = descriptor self.
Proof.
  induction out as [|[output|] out IH]; intros self; cbn [drain fst];
    [reflexivity | | reflexivity].
  destruct (output =? "")%string; [reflexivity|].
  now rewrite IH, process_output_descriptor.
Qed.

Lemma check_status_descriptor self now :
  descriptor (polled now self) = descriptor self.
Proof.
  destruct (State_eqb RUNNING (status self)) eqn:E.
  - apply State_eqb_eq in E. symmetry in E.
    destruct (process self) as [child|] eqn:P.
    + unfold polled. rewrite (check_status_running_eq self now child E P).
      cbv zeta. cbn [fst].
      match goal with
      | |- context [drain ?j ?o] => pose proof (drain_descriptor o j) as D
      end.
      destruct (fst (poll child)); exact D.
    + unfold polled, check_status_and_process_output. now rewrite E, P.
  - rewrite check_status_idle; [reflexivity|].
    intros H. rewrite H in E. discriminate.
Qed.

Lemma invoke_process_descriptor self now :
  descriptor (invoke_process self now) = descriptor self.
Proof. unfold invoke_process. destruct (spawn self); reflexivity. Qed.

Lemma invoke_process_not_waiting self now :
  status (invoke_process self now) <> WAITING.
Proof. unfold invoke_process. destruct (spawn self); discriminate. Qed.

Lemma Forall2_compose {A} (R1 R2 R3 : A -> A -> Prop) :
  (forall a b c, R1 a b -> R2 b c -> R3 a c) ->
  forall l1 l2 l3, Forall2 R1 l1 l2 -> Forall2 R2 l2 l3 -> Forall2 R3 l1 l3.
Proof.
  intros T l1 l2 l3 H. revert l3.
  induction H as [|a b l1 l2 Hab _ IH]; intros l3 H3; inversion H3; subst;
    constructor; eauto.
Qed.

(** A launch followed by anything the admission loop does is a launch. *)
Lemma moved_after_launch now a b c :
  (b = a \/ (status a = WAITING /\ b = invoke_process a now)) ->
  (c = b \/ (status b = WAITING /\ c = invoke_process b now)) ->
  c = a \/ (status a = WAITING /\ c = invoke_process a now).
Proof.
  intros [-> | [S ->]] [-> | [S' ->]]; auto.
  now apply invoke_process_not_waiting in S'.
Qed.

Lemma next_proc_ordered st job now :
  ordered st -> nth_error (procs st) (_proc st) = Some job ->
  ordered (set__proc (set_procs st (set_nth (_proc st) (invoke_process job now)
                                            (procs st)))
                     (S (_proc st))).
Proof.
  intros Ho E. unfold ordered. cbn [procs _proc set__proc set_procs].
  intros i proc Hi. destruct (Nat.eq_dec (_proc st) i) as [Eq|Ne].
  - subst i. rewrite (nth_error_set_nth_eq _ _ _ _ E) in Hi. injection Hi as <-.
    split; [intros W; now apply invoke_process_not_waiting in W | lia].
  - rewrite nth_error_set_nth_neq in Hi by assumption.
    rewrite (Ho i proc Hi). lia.
Qed.

Lemma Forall2_launch_refl now ps :
  Forall2 (fun a b => b = a \/ (status a = WAITING /\ b = invoke_process a now))
          ps ps.
Proof. induction ps; constructor; auto. Qed.

Lemma Forall2_launch_set_nth now : forall ps i job,
  nth_error ps i = Some job -> status job = WAITING ->
  Forall2 (fun a b => b = a \/ (status a = WAITING /\ b = invoke_process a now))
          ps (set_nth i (invoke_process job now) ps).
Proof.
  induction ps as [|p ps IH]; intros [|i] job H S; cbn [nth_error set_nth] in *;
    try discriminate.
  - injection H as ->. constructor; [auto | apply Forall2_launch_refl].
  - constructor; [auto | now apply IH].
Qed.

(** The admission loop on an ordered pool: the pool stays ordered, each job
    is left alone or launched from WAITING, the count it returns is the
    number of RUNNING jobs when the count it was given was, and it stops
    with the limit reached or the generator exhausted. *)
Lemma fill_loop_ordered : forall fuel count st count' st',
  ordered st -> fill_loop fuel count st = Some (count', st') ->
  ordered st'
  /\ clock st' = clock st /\ n_process st' = n_process st
  /\ Forall2 (fun a b => b = a \/ (status a = WAITING
                                   /\ b = invoke_process a (clock st)))
             (procs st) (procs st')
  /\ (count_state RUNNING (procs st) = count ->
      count_state RUNNING (procs st') = count')
  /\ (n_process st <= count' \/ (List.length (procs st') <= _proc st')%nat).
Proof.
  induction fuel as [|fuel IH]; intros count st count' st' Ho H; cbn [fill_loop] in H.
  - destruct (count <? n_process st) eqn:L; [discriminate|].
    injection H as <- <-. apply Z.ltb_ge in L.
    split; [exact Ho|]. split; [reflexivity|]. split; [reflexivity|].
    split; [apply Forall2_launch_refl|]. split; [auto | left; lia].
  - destruct (count <? n_process st) eqn:L.
    + destruct (nth_error (procs st) (_proc st)) as [job|] eqn:E.
      * rewrite (next_proc_some count st job E) in H.
        pose proof (next_proc_ordered st job (clock st) Ho E) as Ho'.
        assert (W : status job = WAITING) by (apply (Ho _ _ E); lia).
        destruct (IH _ _ _ _ Ho' H) as (Ho'' & Hc & Hn & Hf & Hr & Hs).
        cbn [procs _proc clock n_process set__proc set_procs] in *.
        split; [exact Ho''|]. split; [exact Hc|]. split; [exact Hn|].
        split; [|split; [|exact Hs]].
        -- eapply Forall2_compose; [apply (moved_after_launch (clock st)) | | exact Hf].
           now apply Forall2_launch_set_nth.
        -- intros Hcount. apply Hr.
           rewrite (count_state_set_nth RUNNING _ _ _ job E), W.
           pose proof (invoke_process_cases job (clock st)) as C.
           destruct (spawn job) as [child|].
           ++ destruct C as [-> _]. cbn [State_eqb]. lia.
           ++ rewrite C. cbn [status set_status State_eqb]. lia.
      * rewrite (next_proc_none count st E) in H. injection H as <- <-.
        apply nth_error_None in E.
        split; [exact Ho|]. split; [reflexivity|]. split; [reflexivity|].
        split; [apply Forall2_launch_refl|]. split; [auto | right; lia].
    + injection H as <- <-. apply Z.ltb_ge in L.
      split; [exact Ho|]. split; [reflexivity|]. split; [reflexivity|].
      split; [apply Forall2_launch_refl|]. split; [auto | left; lia].
Qed.

Lemma Forall2_map_r {A B} (f : A -> B) (l : list A) :
  Forall2 (fun a b => b = f a) l (map f l).
Proof. induction l; constructor; auto. Qed.

Lemma Forall2_map_eq {A B} (R : A -> A -> Prop) (f : A -> B) :
  (forall a b, R a b -> f b = f a) ->
  forall l l', Forall2 R l l' -> map f l' = map f l.
Proof.
  intros H l l' F. induction F as [|a b l l' Hab _ IH]; cbn [map]; [reflexivity|].
  now rewrite (H a b Hab), IH.
Qed.

Lemma Forall2_impl {A} (R1 R2 : A -> A -> Prop) :
  (forall a b, R1 a b -> R2 a b) ->
  forall l l', Forall2 R1 l l' -> Forall2 R2 l l'.
Proof. intros H l l' F. induction F; constructor; auto. Qed.

Lemma initial_ordered st : initial st -> ordered st.
Proof.
  intros [Hc Hw] i proc Hi. rewrite Hc. rewrite Forall_forall in Hw.
  split; [lia|]. intros _. eapply Hw, nth_error_In, Hi.
Qed.

Lemma count_waiting_none ps :
  Forall (fun proc => status proc <> WAITING) ps -> count_state WAITING ps = 0.
Proof.
  induction ps as [|proc ps IH]; intros F; [reflexivity|].
  inversion F as [|? ? Hp Hps]; subst.
  rewrite count_state_cons, (IH Hps).
  destruct (status proc) eqn:S; cbn [State_eqb]; try reflexivity. congruence.
Qed.

Lemma ordered_no_waiting st :
  ordered st -> (List.length (procs st) <= _proc st)%nat ->
  count_state WAITING (procs st) = 0.
Proof.
  intros Ho Hl. apply count_waiting_none.
  apply Forall_forall. intros proc Hin W.
  apply In_nth_error in Hin as [i Hi].
  assert (i < List.length (procs st))%nat by (apply nth_error_Some; congruence).
  apply (Ho i proc Hi) in W. lia.
Qed.

(** One round of the monitor loop on an ordered pool. *)
Lemma refilled_ordered st :
  ordered st ->
  let now := fadd (clock st) (sleep_sec st) in
  ordered (refilled st)
  /\ n_process (refilled st) = n_process st
  /\ Forall2 (moved now) (procs st) (procs (refilled st))
  /\ (n_process st <= count_state RUNNING (procs (refilled st))
      \/ count_state WAITING (procs (refilled st)) = 0).
Proof.
  intros Ho. cbv zeta. unfold refilled. cbv zeta.
  set (now := fadd (clock st) (sleep_sec st)).
  set (ps := map (polled now) (procs st)).
  assert (Ho' : ordered (set_procs (set_clock st now) ps)).
  { intros i proc Hi. cbn [procs _proc set_procs set_clock] in *.
    unfold ps in Hi. rewrite nth_error_map in Hi.
    destruct (nth_error (procs st) i) as [q|] eqn:Q; [|discriminate].
    injection Hi as <-. rewrite check_status_waiting. now apply Ho. }
  pose proof (fill_slots_spec (count_state RUNNING ps) (set_procs (set_clock st now) ps)) as A.
  destruct (fill_slots _ _) as [count' st'].
  destruct (fill_loop_ordered _ _ _ _ _ Ho' A) as (Ho'' & _ & Hn & Hf & Hr & Hs).
  cbn [procs _proc clock n_process set_procs set_clock snd] in *.
  split; [exact Ho''|]. split; [exact Hn|]. split.
  - eapply Forall2_compose; [| apply Forall2_map_r | exact Hf].
    intros a b c -> [-> | [W ->]]; [left; reflexivity|].
    apply check_status_waiting in W. right. split; [exact W|].
    rewrite check_status_idle; [reflexivity | congruence].
  - rewrite (Hr eq_refl). destruct Hs as [Hs | Hs]; [left; exact Hs|].
    right. now apply ordered_no_waiting.
Qed.

Lemma tick_ordered st p_remain st' :
  tick st = inr (p_remain, st') -> ordered st ->
  let now := fadd (clock st) (sleep_sec st) in
  ordered st'
  /\ n_process st' = n_process st
  /\ Forall2 (moved now) (procs st) (procs st')
  /\ p_remain = existsb active (map (polled now) (procs st))
  /\ (n_process st <= count_state RUNNING (procs st')
      \/ count_state WAITING (procs st') = 0).
Proof.
  intros T Ho. cbv zeta.
  destruct (tick_spec _ _ _ T) as (Ep & s & _ & ->).
  destruct (refilled_ordered st Ho) as (Ho' & Hn & F & Hs).
  cbn [procs n_process set_console]. auto.
Qed.

Lemma gen_init_ordered st :
  initial st ->
  ordered (gen_init_processes st)
  /\ n_process (gen_init_processes st) = n_process st
  /\ Forall2 (fun a b => b = a \/ (status a = WAITING
                                   /\ b = invoke_process a (clock st)))
             (procs st) (procs (gen_init_processes st))
  /\ (n_process st <= count_state RUNNING (procs (gen_init_processes st))
      \/ count_state WAITING (procs (gen_init_processes st)) = 0).
Proof.
  intros Hi. unfold gen_init_processes.
  pose proof (fill_slots_spec 0 st) as A. destruct (fill_slots 0 st) as [count' st'].
  destruct (fill_loop_ordered _ _ _ _ _ (initial_ordered st Hi) A)
    as (Ho & _ & Hn & Hf & Hr & Hs).
  cbn [snd]. split; [exact Ho|]. split; [exact Hn|]. split; [exact Hf|].
  rewrite (Hr (count_running_initial st Hi)).
  destruct Hs as [Hs | Hs]; [left; exact Hs | right; now apply ordered_no_waiting].
Qed.

(** X1. Jobs are launched in job order and none is taken twice: at every
    state of a run, the jobs that have left WAITING are exactly the jobs the
    generator has yielded, the first [_proc] ones of the pool. *)
Theorem launched_in_job_order st0 st :
  initial st0 -> reachable st0 st ->
  forall i proc, nth_error (procs st) i = Some proc ->
    (status proc = WAITING <-> (_proc st <= i)%nat).
Proof.
  intros Hi R. change (ordered st). induction R as [|st p st' R IH T].
  - now apply gen_init_ordered.
  - now apply (tick_ordered st p st' T).
Qed.

Lemma launched_in_job_order_witness :
  initial sample_pool
  /\ _proc (after_tick (gen_init_processes sample_pool)) = 4%nat
  /\ (forall i proc,
        nth_error (procs (after_tick (gen_init_processes sample_pool))) i = Some proc ->
        (status proc = WAITING
         <-> (_proc (after_tick (gen_init_processes sample_pool)) <= i)%nat)).
Proof.
  assert (Hi : initial sample_pool) by (split; [reflexivity | repeat constructor]).
  split; [exact Hi|]. split; [vm_compute; reflexivity|].
  exact (launched_in_job_order sample_pool _ Hi (reach_after _ _ (reach_init _))).
Defined.

Lemma moved_legal now a b :
  moved now a b ->
  legal (status a) (status b) /\ (terminal a -> b = a)
  /\ descriptor b = descriptor a.
Proof.
  intros [-> | [W ->]].
  - split; [|split; [|apply check_status_descriptor]].
    + pose proof (check_status_cases a now) as C. unfold legal.
      destruct (status a) eqn:S; try (rewrite C, S; auto).
      destruct (process a) as [child|]; [|rewrite C, S; auto].
      rewrite C. destruct (fst (poll child)); auto.
    + intros [T | T]; apply check_status_idle; congruence.
  - split; [|split; [|apply invoke_process_descriptor]].
    + unfold legal. rewrite W. right. left. split; [reflexivity|].
      unfold invoke_process. destruct (spawn a); auto.
    + intros [T | T]; congruence.
Qed.

(** X2. In one round of the monitor loop a job only moves along
    WAITING to RUNNING, WAITING to ERROR or RUNNING to FINISH, or stays; a
    job that is FINISH or ERROR is left exactly as it is, elapsed time and
    last percent included. *)
Theorem round_moves_are_legal st p_remain st' :
  ordered st -> tick st = inr (p_remain, st') ->
  Forall2 (fun before after =>
             legal (status before) (status after)
             /\ (terminal before -> after = before))
          (procs st) (procs st').
Proof.
  intros Ho T. destruct (tick_ordered st p_remain st' T Ho) as (_ & _ & F & _).
  eapply Forall2_impl; [|exact F].
  intros a b M. destruct (moved_legal _ a b M) as (L & Tm & _). auto.
Qed.

Lemma round_moves_are_legal_witness :
  ordered (gen_init_processes sample_pool)
  /\ tick (gen_init_processes sample_pool)
     = inr (true, after_tick (gen_init_processes sample_pool))
  /\ Forall2 (fun before after =>
                legal (status before) (status after)
                /\ (terminal before -> after = before))
             (procs (gen_init_processes sample_pool))
             (procs (after_tick (gen_init_processes sample_pool))).
Proof.
  assert (Ho : ordered (gen_init_processes sample_pool)).
  { apply gen_init_ordered. split; [reflexivity | repeat constructor]. }
  assert (T : tick (gen_init_processes sample_pool)
              = inr (true, after_tick (gen_init_processes sample_pool)))
    by (vm_compute; reflexivity).
  split; [exact Ho|]. split; [exact T|].
  exact (round_moves_are_legal _ _ _ Ho T).
Defined.

(** X3. No job is added, dropped or re-described during a run: at every
    state the pool holds the jobs it started with, in the same order, each
    with its parameters, file name, directory and launch behaviour. *)
Theorem descriptors_never_change st0 st :
  initial st0 -> reachable st0 st ->
  map descriptor (procs st) = map descriptor (procs st0)
  /\ List.length (procs st) = List.length (procs st0).
Proof.
  intros Hi R.
  assert (H : ordered st /\ map descriptor (procs st) = map descriptor (procs st0)).
  { induction R as [|st p st' R [Ho IH] T].
    - destruct (gen_init_ordered st0 Hi) as (Ho & _ & F & _). split; [exact Ho|].
      eapply Forall2_map_eq; [|exact F].
      intros a b [-> | [_ ->]]; [reflexivity | apply invoke_process_descriptor].
    - destruct (tick_ordered st p st' T Ho) as (Ho' & _ & F & _). split; [exact Ho'|].
      rewrite <- IH. eapply Forall2_map_eq; [|exact F].
      intros a b M. now destruct (moved_legal _ a b M) as (_ & _ & D). }
  destruct H as [_ H]. split; [exact H|].
  apply (f_equal (@List.length _)) in H. now rewrite !length_map in H.
Qed.

Lemma descriptors_never_change_witness :
  initial sample_pool
  /\ map status (procs (after_tick (gen_init_processes sample_pool)))
     = [ERROR; RUNNING; FINISH; RUNNING]
  /\ map descriptor (procs (after_tick (gen_init_processes sample_pool)))
     = map descriptor (procs sample_pool).
Proof.
  assert (Hi : initial sample_pool) by (split; [reflexivity | repeat constructor]).
  split; [exact Hi|]. split; [vm_compute; reflexivity|].
  exact (proj1 (descriptors_never_change sample_pool _ Hi
                  (reach_after _ _ (reach_init _)))).
Defined.

(** X4. No slot stays idle while a job waits: after the initial batch and
    at the end of every round, either the number of RUNNING jobs is the
    limit, or no job is WAITING. *)
Theorem no_idle_slot_while_jobs_wait st0 st :
  initial st0 -> 0 <= n_process st0 -> reachable st0 st ->
  count_state RUNNING (procs st) = n_process st0
  \/ count_state WAITING (procs st) = 0.
Proof.
  intros Hi Hn R.
  destruct (reachable_bound st0 st Hi Hn R) as [B E].
  assert (H : ordered st
              /\ (n_process st0 <= count_state RUNNING (procs st)
                  \/ count_state WAITING (procs st) = 0)).
  { clear B E. induction R as [|st p st' R [Ho _] T].
    - destruct (gen_init_ordered st0 Hi) as (Ho & _ & _ & Hs). auto.
    - destruct (reachable_bound st0 st Hi Hn R) as [_ E].
      destruct (tick_ordered st p st' T Ho) as (Ho' & _ & _ & _ & Hs).
      rewrite E in Hs. auto. }
  destruct H as [_ [H | H]]; [left; lia | right; exact H].
Qed.

Lemma no_idle_slot_while_jobs_wait_witness :
  initial sample_pool /\ 0 <= n_process sample_pool
  /\ map status (procs (after_tick (gen_init_processes sample_pool)))
     = [ERROR; RUNNING; FINISH; RUNNING]
  /\ (count_state RUNNING (procs (after_tick (gen_init_processes sample_pool)))
      = n_process sample_pool
      \/ count_state WAITING (procs (after_tick (gen_init_processes sample_pool))) = 0).
Proof.
  assert (Hi : initial sample_pool) by (split; [reflexivity | repeat constructor]).
  assert (Hn : 0 <= n_process sample_pool) by (simpl; lia).
  split; [exact Hi|]. split; [exact Hn|]. split; [vm_compute; reflexivity|].
  exact (no_idle_slot_while_jobs_wait sample_pool _ Hi Hn
           (reach_after _ _ (reach_init _))).
Defined.

Lemma hung_polled proc now :
  hung proc -> hung (polled now proc).
Proof.
  intros (S & child & P & X).
  destruct (check_status_running_job proc now child S P) as (S' & (rest & P') & _).
  unfold poll in S', P'. rewrite X in S', P'. cbn [fst snd] in S', P'.
  split; [exact S'|]. eexists. split; [exact P'|]. exact X.
Qed.

Lemma Exists_Forall2 {A} (P : A -> Prop) (R : A -> A -> Prop) :
  (forall a b, R a b -> P a -> P b) ->
  forall l l', Forall2 R l l' -> Exists P l -> Exists P l'.
Proof.
  intros H l l' F. induction F as [|a b l l' Hab _ IH]; intros E;
    inversion E; subst; [left; eauto | right; auto].
Qed.

(** X5. The loop has no way out of a child that never exits: on an
    ordered pool with a RUNNING job whose child never exits, the monitor
    loop does not return, however long it is run; only an exception ends
    it. *)
Theorem hung_child_hangs_the_loop st :
  ordered st -> Exists hung (procs st) ->
  forall fuel st', monitor_output_loop fuel st <> Some (Ok st').
Proof.
  intros Ho Hh fuel. revert st Ho Hh.
  induction fuel as [|fuel IH]; intros st Ho Hh st'; [discriminate|].
  cbn [monitor_output_loop].
  destruct (tick st) as [why|[p_remain st1]] eqn:T; [discriminate|].
  destruct (tick_ordered st p_remain st1 T Ho) as (Ho' & _ & F & P & _).
  assert (Hh' : Exists hung (procs st1)).
  { eapply Exists_Forall2; [|exact F | exact Hh].
    intros a b [-> | [W _]] Ha; [now apply hung_polled|].
    destruct Ha as [S _]. congruence. }
  assert (E : p_remain = true).
  { rewrite P. apply existsb_exists.
    apply Exists_exists in Hh as (proc & Hin & Hp).
    exists (polled (fadd (clock st) (sleep_sec st)) proc).
    split; [apply in_map_iff; exists proc; split; [reflexivity | exact Hin]|].
    destruct (hung_polled proc (fadd (clock st) (sleep_sec st)) Hp) as [S _].
    unfold active. rewrite S. reflexivity. }
  rewrite E. now apply IH.
Qed.

Lemma hung_child_hangs_the_loop_witness :
  ordered hung_pool /\ Exists hung (procs hung_pool)
  /\ monitor_output_loop 100 hung_pool = None
  /\ forall st', monitor_output_loop 1000 hung_pool <> Some (Ok st').
Proof.
  assert (Ho : ordered hung_pool).
  { intros [|[|i]] proc H; cbn in H; try discriminate.
    injection H as <-. cbn. split; [discriminate | lia]. }
  assert (Hh : Exists hung (procs hung_pool)).
  { left. split; [reflexivity|]. eexists. split; reflexivity. }
  split; [exact Ho|]. split; [exact Hh|]. split; [vm_compute; reflexivity|].
  exact (hung_child_hangs_the_loop hung_pool Ho Hh 1000%nat).
Defined.

(** ** The progress parser: what it ignores *)

(** X6. Ordinary output is ignored: a line that is empty or starts with
    anything but the letter T or a digit changes nothing in the job. *)
Theorem other_lines_are_ignored (self : Program) (line : string) :
  match line with
  | EmptyString => True
  | String c _ => c <> "T"%char /\ is_digit c = false
  end ->
  process_output self line = self.
Proof.
  intros H. unfold process_output.
  destruct line as [|c rest]; [now destruct self|].
  destruct H as [HT Hd].
  assert (E1 : re_match trace_re (String c rest) = None).
  { unfold re_match, trace_re. rewrite run_Seq, run_Bol. cbv beta.
    cbn [Lit]. rewrite run_Seq. cbn [run cset_match].
    destruct (Ascii.eqb_spec "T"%char c); [congruence | reflexivity]. }
  assert (E2 : re_match percent_re (String c rest) = None).
  { unfold re_match, percent_re. rewrite run_Seq, run_Bol. cbv beta.
    rewrite run_Seq. cbn [run cset_match]. now rewrite Hd. }
  now rewrite E1, E2.
Qed.

Lemma other_lines_are_ignored_witness :
  process_output (set_running_eta sample_job (of_int 7)) "Detector: psd_I=1.2e-05"
  = set_running_eta sample_job (of_int 7).
Proof.
  apply other_lines_are_ignored. split; [discriminate | reflexivity].
Defined.

(** No repetition of [p] leads to a success of the rest. *)
Lemma star_none p : forall b pos g k,
  (forall b1 b2, b = (b1 ++ b2)%string -> all (cset_match p) b1 = true ->
     k (pos + String.length b1)%nat b2 g = None) ->
  star p pos b g k = None.
Proof.
  induction b as [|c b IH]; intros pos g k H.
  - specialize (H "" "" eq_refl eq_refl). cbn in H. rewrite Nat.add_0_r in H.
    exact H.
  - cbn [star].
    assert (H0 : k pos (String c b) g = None).
    { specialize (H "" (String c b) eq_refl eq_refl). cbn in H.
      now rewrite Nat.add_0_r in H. }
    destruct (cset_match p c) eqn:Hc; [|exact H0].
    rewrite IH; [exact H0|].
    intros b1 b2 E A. specialize (H (String c b1) b2). cbn in H.
    rewrite Nat.add_succ_r in H. apply H; [now rewrite E | now rewrite Hc, A].
Qed.

(** A run of digits inside digits followed by something else ends inside
    the digits. *)
Lemma digits_split pct : forall rest b1 b2,
  all is_digit pct = true -> stops Digit rest = true ->
  all is_digit b1 = true -> (b1 ++ b2)%string = (pct ++ rest)%string ->
  exists s, b2 = (s ++ rest)%string /\ all is_digit s = true.
Proof.
  induction pct as [|d pct IH]; intros rest b1 b2 Hp Hr H1 E.
  - cbn in E. destruct b1 as [|c b1].
    + exists "". split; [now rewrite <- E | reflexivity].
    + cbn in E. subst rest. cbn in Hr, H1.
      apply andb_true_iff in H1 as [H1 _]. now rewrite H1 in Hr.
  - cbn in Hp. apply andb_true_iff in Hp as [Hd Hp].
    destruct b1 as [|c b1]; cbn in E.
    + exists (String d pct). split; [now rewrite E | cbn; now rewrite Hd, Hp].
    + injection E as _ E. cbn in H1. apply andb_true_iff in H1 as [_ H1].
      now apply (IH rest b1 b2).
Qed.

(** After the integer of a bare percent line, only one blank (and the final
    newline) lets the pattern end. *)
Lemma percent_tail_none rest pos g k :
  rest <> " " -> rest <> String " " (String newline "") ->
  stops Digit rest = true ->
  forall s, all is_digit s = true ->
    run (Lit " " Eol) pos (s ++ rest) g k = None.
Proof.
  intros N1 N2 Hr s Hs. destruct s as [|d s].
  - cbn [append Lit]. rewrite run_Seq.
    destruct rest as [|c rest]; [reflexivity|]. cbn [run cset_match].
    destruct (Ascii.eqb_spec " "%char c) as [<-|]; [|reflexivity].
    destruct rest as [|c2 [|c3 rest]]; try reflexivity; [congruence|].
    destruct (Ascii.eqb_spec c2 newline) as [->|]; [congruence | reflexivity].
  - cbn in Hs. apply andb_true_iff in Hs as [Hd _].
    cbn [append Lit]. rewrite run_Seq. cbn [run cset_match].
    now rewrite (digit_not_blank d Hd).
Qed.

(** X7. A line that starts with an integer counts as a percent line only
    when exactly one blank (and the final newline) follows the integer:
    with anything else after it, or nothing, the job is left unchanged. So
    "55" and "55" with a bare newline are ignored. *)
Theorem integer_without_blank_is_ignored (self : Program) pct rest :
  is_number pct -> stops Digit rest = true ->
  rest <> " " -> rest <> String " " (String newline "") ->
  process_output self (pct ++ rest) = self.
Proof.
  intros Hp Hr N1 N2. unfold process_output.
  rewrite (trace_re_digit_none pct rest Hp).
  assert (E : re_match percent_re (pct ++ rest) = None).
  { destruct Hp as [Hne Hd]. destruct pct as [|d pct]; [congruence|].
    cbn in Hd. apply andb_true_iff in Hd as [Hd Hpct].
    unfold re_match, percent_re. rewrite run_Seq, run_Bol. cbv beta.
    rewrite run_Seq. cbn [run append cset_match]. rewrite Hd.
    apply star_none. intros b1 b2 E A.
    symmetry in E. destruct (digits_split pct rest b1 b2 Hpct Hr A E) as (s & -> & Hs).
    now apply percent_tail_none. }
  now rewrite E.
Qed.

Lemma integer_without_blank_is_ignored_witness :
  is_number "55"
  /\ process_output sample_job "55" = sample_job
  /\ process_output sample_job ("55" ++ String newline "") = sample_job.
Proof.
  assert (H : is_number "55") by (split; [discriminate | reflexivity]).
  split; [exact H|]. split.
  - apply (integer_without_blank_is_ignored sample_job "55" "" H);
      [reflexivity | discriminate | discriminate].
  - apply (integer_without_blank_is_ignored sample_job "55" (String newline "") H);
      [reflexivity | discriminate | discriminate].
Defined.

(** ** The job runner: reading the output *)

Lemma drain_lines : forall ls self rest,
  Forall (fun l => l <> "") ls ->
  drain self (map Text ls ++ Text "" :: rest)
  = (fold_left process_output ls self, rest, None)
  /\ drain self (map Text ls) = (fold_left process_output ls self, [], None)
  /\ drain self (map Text ls ++ Undecodable :: rest)
     = (fold_left process_output ls self, rest, Some (Raised "UnicodeDecodeError")).
Proof.
  induction ls as [|l ls IH]; intros self rest F; [repeat split; reflexivity|].
  inversion F as [|? ? Hl Hls]; subst. cbn [map app drain fold_left].
  apply String.eqb_neq in Hl. rewrite Hl. now apply IH.
Qed.

(** X8. A poll step of a RUNNING job whose child is still alive parses the
    lines it reads in the order they were written, each on top of what the
    one before left, and stops at the first empty read: the lines after it
    stay unread for the next round. The job stays RUNNING, and the step
    raises nothing. *)
Theorem poll_parses_lines_in_order self now n code ls rest :
  status self = RUNNING ->
  process self = Some (mkPopen (Some (S n)) code (map Text ls ++ Text "" :: rest)) ->
  Forall (fun l => l <> "") ls ->
  check_status_and_process_output self now
  = (set_process (fold_left process_output ls self)
                 (Some (mkPopen (Some n) code rest)),
     None).
Proof.
  intros S P F. unfold check_status_and_process_output. rewrite S, P.
  cbn [poll exits_after returncode stdout].
  destruct (drain_lines ls self rest F) as [-> _]. reflexivity.
Qed.

Lemma poll_parses_lines_in_order_witness :
  let self := set_status
                (set_process sample_job
                   (Some (mkPopen (Some 2%nat) 0
                            (map Text ["Trace ETA 53 [s] % 20"; "30 "]
                             ++ Text "" :: [Text "40 "]))))
                RUNNING in
  let self' := fst (check_status_and_process_output self (of_int 1)) in
  running_eta self' = of_int 53 /\ running_perc self' = 30
  /\ process self' = Some (mkPopen (Some 1%nat) 0 [Text "40 "]).
Proof.
  cbv zeta.
  rewrite (poll_parses_lines_in_order
             (set_status
                (set_process sample_job
                   (Some (mkPopen (Some 2%nat) 0
                            (map Text ["Trace ETA 53 [s] % 20"; "30 "]
                             ++ Text "" :: [Text "40 "]))))
                RUNNING)
             (of_int 1) 1%nat 0 ["Trace ETA 53 [s] % 20"; "30 "] [Text "40 "]
             eq_refl eq_refl);
    [repeat split; vm_compute; reflexivity | repeat constructor; discriminate].
Defined.

(** ** The summary: every job is counted once *)

Lemma count_states_total ps :
  count_state WAITING ps + count_state RUNNING ps + count_state FINISH ps
  + count_state ERROR ps = Z.of_nat (List.length ps).
Proof.
  induction ps as [|proc ps IH]; [reflexivity|].
  rewrite !count_state_cons. cbn [List.length].
  destruct (status proc); cbn [State_eqb]; lia.
Qed.

(** X9. The four counts of the status line add up to the number of jobs
    of the pool: every job is counted, and in one state only. *)
Theorem summary_counts_every_job ps s :
  print_output_summary ps = inr s ->
  waiting s + running s + finished s + error s = Z.of_nat (List.length ps)
  /\ 0 <= waiting s /\ 0 <= running s /\ 0 <= finished s /\ 0 <= error s.
Proof.
  rewrite print_output_summary_spec.
  destruct (imean _) as [why|perc]; [discriminate|].
  destruct (status_line _); [discriminate|]. intros [= <-].
  cbn [summary_by_state waiting running finished error].
  pose proof (count_states_total ps).
  pose proof (count_state_nonneg WAITING ps).
  pose proof (count_state_nonneg RUNNING ps).
  pose proof (count_state_nonneg FINISH ps).
  pose proof (count_state_nonneg ERROR ps).
  lia.
Qed.

Lemma summary_counts_every_job_witness :
  exists s,
    print_output_summary (procs (after_tick (gen_init_processes sample_pool)))
    = inr s
    /\ waiting s + running s + finished s + error s = 4
    /\ [waiting s; running s; finished s; error s] = [0; 2; 1; 1].
Proof.
  eexists. split; [vm_compute; reflexivity|].
  split; [|vm_compute; reflexivity].
  exact (proj1 (summary_counts_every_job
                  (procs (after_tick (gen_init_processes sample_pool))) _ eq_refl)).
Defined.

(** ** Removing directories *)

(** What [remove_dir] removes are directories of jobs in the given state. *)
Lemma remove_dir_jobs {W : Type} (os : OS W) state : forall ps w w' gone r,
  remove_dir os state ps w = (w', gone, r) ->
  forall d, In d gone ->
    exists proc, In proc ps /\ status proc = state /\ dir_ proc = d.
Proof.
  induction ps as [|proc ps IH]; intros w w' gone r H d Hd; cbn [remove_dir] in H.
  - injection H as _ <- _. destruct Hd.
  - destruct (State_eqb state (status proc)) eqn:S; cbn [andb] in H.
    + destruct (isdir os w (dir_ proc)).
      * destruct (rmtree os w (dir_ proc)) as [why|w1].
        -- injection H as _ <- _. destruct Hd.
        -- destruct (remove_dir os state ps w1) as [[w2 g2] r2] eqn:T.
           injection H as _ <- _. destruct Hd as [<- | Hd].
           ++ exists proc. apply State_eqb_eq in S. auto using in_eq.
           ++ destruct (IH _ _ _ _ T d Hd) as (q & Hq & R). exists q. auto using in_cons.
      * destruct (IH _ _ _ _ H d Hd) as (q & Hq & R). exists q. auto using in_cons.
    + destruct (IH _ _ _ _ H d Hd) as (q & Hq & R). exists q. auto using in_cons.
Qed.

(** On a file system where removing a tree removes its root and creates
    nothing, [remove_dir] removes directories that were there, each once. *)
Lemma remove_dir_laws {W : Type} (os : OS W) state :
  removes_trees os ->
  forall ps w w' gone r,
    remove_dir os state ps w = (w', gone, r) ->
    NoDup gone
    /\ (forall d, In d gone -> isdir os w d = true)
    /\ (forall d, isdir os w' d = true -> isdir os w d = true).
Proof.
  intros L. induction ps as [|proc ps IH]; intros w w' gone r H;
    cbn [remove_dir] in H.
  - injection H as <- <- _. split; [constructor|]. split; [intros d []| auto].
  - destruct (State_eqb state (status proc) && isdir os w (dir_ proc)) eqn:C;
      [|exact (IH _ _ _ _ H)].
    apply andb_true_iff in C as [_ C].
    destruct (rmtree os w (dir_ proc)) as [why|w1] eqn:R.
    + injection H as <- <- _. split; [constructor|]. split; [intros d []| auto].
    + destruct (remove_dir os state ps w1) as [[w2 g2] r2] eqn:T.
      injection H as <- <- _.
      destruct (IH _ _ _ _ T) as (N & D & M).
      destruct (L _ _ _ R) as [G K].
      split; [|split].
      * constructor; [|exact N]. intros Hin. apply D in Hin. congruence.
      * intros d [<- | Hd]; [exact C | apply K, D, Hd].
      * intros d Hd. apply K, M, Hd.
Qed.

(** X10. The clean-up pass removes directories of FINISH jobs only: the
    directory of an ERROR job stays, unless a FINISH job uses the same one.
    On a file system where removing a tree removes its root and creates no
    directory, each directory is removed once, and [remove_dir] only removes
    directories that were there when it started. *)
Theorem only_finished_directories_are_removed {W : Type} (os : OS W) st w :
  let r := check_and_cleanup os st w in
  (forall d, In d (removed r) ->
     exists proc, In proc (procs st) /\ status proc = FINISH /\ dir_ proc = d)
  /\ (forall failed,
        status failed = ERROR ->
        (forall proc, In proc (procs st) -> status proc = FINISH ->
                      dir_ proc <> dir_ failed) ->
        ~ In (dir_ failed) (removed r))
  /\ (removes_trees os ->
      NoDup (removed r)
      /\ forall state ps w0 w' gone raised,
           remove_dir os state ps w0 = (w', gone, raised) ->
           forall d, In d gone ->
             isdir os w0 d = true
             /\ exists proc, In proc ps /\ status proc = state /\ dir_ proc = d).
Proof.
  cbv zeta.
  assert (H : removed (check_and_cleanup os st w) = []
              \/ exists w2 w3 r3,
                   remove_dir os FINISH (procs st) w2
                   = (w3, removed (check_and_cleanup os st w), r3)).
  { destruct (check_and_cleanup_cases os st w)
      as [[_ ->] | [(_ & _ & _ & ->) | (_ & _ & ->)]]; [now left | now left |].
    match goal with
    | |- context [passes os st w ?e] =>
        destruct (passes_spec os st w e)
          as (_ & w1 & r1 & w2 & o2 & r2 & w3 & r3 & _ & Rest)
    end.
    cbv zeta in Rest.
    destruct r1 as [why|]; [left; apply Rest|].
    destruct Rest as (_ & _ & Rest).
    destruct r2 as [why|]; [left; apply Rest|].
    destruct (remove st); [right; exists w2, w3, r3; apply Rest | left; apply Rest]. }
  assert (I : forall d, In d (removed (check_and_cleanup os st w)) ->
                exists proc, In proc (procs st) /\ status proc = FINISH
                             /\ dir_ proc = d).
  { intros d Hd. destruct H as [E | (w2 & w3 & r3 & E)].
    - rewrite E in Hd. destruct Hd.
    - exact (remove_dir_jobs os FINISH _ _ _ _ _ E d Hd). }
  split; [exact I|]. split.
  - intros failed Hs Hd Hin. apply I in Hin as (proc & Hp & S & D).
    exact (Hd proc Hp S D).
  - intros L. split.
    + destruct H as [E | (w2 & w3 & r3 & E)]; [rewrite E; constructor|].
      exact (proj1 (remove_dir_laws os FINISH L _ _ _ _ _ E)).
    + intros state ps w0 w' gone r' E d Hd. split.
      * exact (proj1 (proj2 (remove_dir_laws os state L _ _ _ _ _ E)) d Hd).
      * exact (remove_dir_jobs os state _ _ _ _ _ E d Hd).
Qed.

Lemma mem_filter f x : forall l,
  mem x (filter f l) = mem x l && f x.
Proof.
  unfold mem. induction l as [|y l IH]; cbn [filter existsb]; [reflexivity|].
  destruct (f y) eqn:Fy; cbn [existsb]; rewrite IH.
  - destruct (String.eqb_spec x y) as [->|]; cbn [orb]; [|reflexivity].
    rewrite Fy. now destruct (existsb (String.eqb y) l).
  - destruct (String.eqb_spec x y) as [->|]; cbn [orb]; [|reflexivity].
    rewrite Fy. now rewrite !andb_false_r.
Qed.

Lemma disk_removes_trees : removes_trees disk.
Proof.
  intros w d w' H. cbn [disk rmtree] in H.
  destruct (mem d (dirs w)); [|discriminate]. cbn [negb] in H.
  destruct (mem d (locked w)); [discriminate|]. injection H as <-.
  cbn [disk isdir dirs]. split.
  - rewrite mem_filter. unfold below. rewrite String.eqb_refl.
    cbn [orb negb]. apply andb_false_r.
  - intros d'. rewrite mem_filter. intros E.
    now apply andb_true_iff in E as [E _].
Qed.

Lemma only_finished_directories_are_removed_witness :
  let st := mkPool [finished_job "a";
                    set_status (Program_init "" "e.dat" "e_dat" None) ERROR;
                    finished_job "a"]
                   3 3 3 (of_int 1) (of_int 3) None None None true [] in
  let w := mkDisk ["a_dat/a.dat"] ["a_dat"; "e_dat"] [] in
  removes_trees disk
  /\ removed (check_and_cleanup disk st w) = ["a_dat"]
  /\ dirs (world (check_and_cleanup disk st w)) = ["e_dat"]
  /\ NoDup (removed (check_and_cleanup disk st w))
  /\ ~ In "e_dat" (removed (check_and_cleanup disk st w)).
Proof.
  cbv zeta. split; [exact disk_removes_trees|].
  split; [vm_compute; reflexivity|]. split; [vm_compute; reflexivity|].
  match goal with
  | |- NoDup (removed (check_and_cleanup disk ?st ?w)) /\ _ =>
      destruct (only_finished_directories_are_removed disk st w) as (_ & E & N)
  end.
  split; [exact (proj1 (N disk_removes_trees))|].
  apply (E (set_status (Program_init "" "e.dat" "e_dat" None) ERROR) eq_refl).
  intros proc [<- | [<- | [<- | []]]] S; discriminate.
Defined.

(** ** Setting the pool up: names, edge cases *)

Lemma csv_row_spec : forall items params fn fl params' fn' fl',
  csv_row items params fn fl = Some (params', fn', fl') ->
  NoDup fl ->
  NoDup fl' /\ incl fl fl'
  /\ (fn' = fn \/ exists f, fn' = Some f /\ In f fl' /\ ~ In f fl).
Proof.
  induction items as [|[key value] items IH];
    intros params fn fl params' fn' fl' H N; cbn [csv_row] in H.
  - injection H as <- <- <-. split; [exact N|]. split; [apply incl_refl | auto].
  - destruct (key =? "filename")%string.
    + destruct (existsb (String.eqb value) fl) eqn:E; [discriminate|].
      assert (Hn : ~ In value fl).
      { intros Hin.
        assert (existsb (String.eqb value) fl = true).
        { apply existsb_exists. exists value. split; [exact Hin | apply String.eqb_refl]. }
        congruence. }
      assert (N' : NoDup (fl ++ [value])%list).
      { apply NoDup_app; [exact N | repeat constructor; auto |].
        intros a Ha [<- | []]. auto. }
      destruct (IH _ _ _ _ _ _ H N') as (N'' & I & F).
      split; [exact N''|]. split.
      * intros a Ha. apply I, in_app_iff. auto.
      * right. destruct F as [-> | (f & -> & Hf & Hnf)].
        -- exists value. split; [reflexivity|]. split; [|exact Hn].
           apply I, in_app_iff. right. now left.
        -- exists f. split; [reflexivity|]. split; [exact Hf|].
           intros Hin. apply Hnf, in_app_iff. auto.
    + now apply (IH _ _ _ _ _ _ H).
Qed.

Lemma csv_jobs_names host : forall rows fl acc count ps n,
  csv_jobs host rows fl acc count = inr (ps, n) ->
  NoDup fl -> NoDup (map filename acc) ->
  Forall (fun proc => In (filename proc) fl /\ well_named host proc) acc ->
  NoDup (map filename ps)
  /\ Forall (well_named host) ps
  /\ List.length ps = (List.length acc + List.length rows)%nat.
Proof.
  induction rows as [|row rows IH]; intros fl acc count ps n H N Na Fa;
    cbn [csv_jobs] in H.
  - injection H as <- <-. split; [exact Na|]. split.
    + eapply Forall_impl; [|exact Fa]. now intros a [_ ?].
    + cbn [List.length]. lia.
  - destruct (csv_row row " " None fl) as [[[params fn] fl']|] eqn:R;
      [|discriminate].
    destruct (csv_row_spec _ _ _ _ _ _ _ R N) as (N' & I & F).
    destruct fn as [[|c f]|]; try discriminate.
    destruct F as [F | (f' & E & Hin & Hnew)]; [discriminate|].
    injection E as <-.
    apply IH in H; [| exact N' | |].
    + destruct H as (Hn & Hw & Hl). split; [exact Hn|]. split; [exact Hw|].
      rewrite Hl, length_app. cbn [List.length]. lia.
    + rewrite map_app. cbn [map filename Program_init].
      apply NoDup_app; [exact Na | repeat constructor; auto |].
      intros a Ha [<- | []]. apply Hnew.
      apply in_map_iff in Ha as (p & <- & Hp).
      rewrite Forall_forall in Fa. now apply Fa.
    + apply Forall_app. split.
      * eapply Forall_impl; [|exact Fa]. intros a [Ha Hw]. split; [now apply I | exact Hw].
      * constructor; [|constructor]. split; [exact Hin|].
        split; [discriminate | split; reflexivity].
Qed.

Lemma append_cancel_r (z : string) : forall x y : string,
  (x ++ z)%string = (y ++ z)%string -> x = y.
Proof.
  assert (L : forall x : string, String.length (x ++ z) = (String.length x + String.length z)%nat)
    by (intros x; apply length_append).
  induction x as [|a x IH]; intros [|b y] E; cbn [append] in *.
  - reflexivity.
  - apply (f_equal String.length) in E. cbn [String.length] in E.
    rewrite L in E. lia.
  - apply (f_equal String.length) in E. cbn [String.length] in E.
    rewrite L in E. lia.
  - injection E as -> E. f_equal. now apply IH.
Qed.

Lemma py_str_inj a b : py_str a = py_str b -> a = b.
Proof.
  unfold py_str. intros E. apply DecimalZ.to_int_inj.
  assert (G : forall z, Z.to_int z <> Decimal.Pos Decimal.Nil
                        /\ Z.to_int z <> Decimal.Neg Decimal.Nil).
  { intros [|p|p]; cbn; split; try discriminate;
      intros [= H]; now apply DecimalPos.Unsigned.to_uint_nonnil in H. }
  apply (f_equal NilZero.int_of_string) in E.
  rewrite !NilZero.isi in E by apply G. now injection E.
Qed.

Lemma uint_digits d : all is_digit (NilEmpty.string_of_uint d) = true.
Proof. induction d; cbn [NilEmpty.string_of_uint all]; auto. Qed.

Lemma py_str_digits n : 0 <= n -> all is_digit (py_str n) = true.
Proof.
  intros H. unfold py_str. destruct n as [|p|p]; [reflexivity | | lia].
  cbn [Z.to_int NilZero.string_of_int]. unfold NilZero.string_of_uint.
  destruct (Pos.to_uint p) eqn:E; try (rewrite <- E; apply uint_digits).
  reflexivity.
Qed.

Lemma replace_dot_digits s : all is_digit s = true -> replace_dot s = s.
Proof.
  induction s as [|c s IH]; cbn [all replace_dot]; [reflexivity|].
  intros H. apply andb_true_iff in H as [Hc Hs]. rewrite (IH Hs).
  destruct (Ascii.eqb_spec c "."%char) as [->|]; [discriminate | reflexivity].
Qed.

Lemma replace_dot_append a b :
  replace_dot (a ++ b) = (replace_dot a ++ replace_dot b)%string.
Proof. induction a as [|c a IH]; cbn; [reflexivity | now rewrite IH]. Qed.

Lemma NoDup_map_inj {A B} (f : A -> B) l :
  (forall x y, In x l -> In y l -> f x = f y -> x = y) ->
  NoDup l -> NoDup (map f l).
Proof.
  intros Hf N. induction N as [|x l Hx N IH]; cbn [map]; constructor.
  - intros Hin. apply in_map_iff in Hin as (y & E & Hy).
    assert (y = x) by (apply Hf; [now right | now left | exact E]).
    subst y. contradiction.
  - apply IH. intros a b Ha Hb. apply Hf; now right.
Qed.

Lemma flat_jobs_names host t_process :
  NoDup (map filename (flat_jobs host t_process))
  /\ NoDup (map dir_ (flat_jobs host t_process))
  /\ Forall (well_named host) (flat_jobs host t_process).
Proof.
  unfold flat_jobs. rewrite !map_map. cbn [filename dir_ Program_init].
  assert (Inj : forall x y : nat,
            ("sim_data_" ++ py_str (Z.of_nat x + 1) ++ ".dat")%string
            = ("sim_data_" ++ py_str (Z.of_nat y + 1) ++ ".dat")%string -> x = y).
  { intros x y E. cbn [append] in E. injection E as E.
    apply append_cancel_r, py_str_inj in E. lia. }
  split; [|split].
  - apply NoDup_map_inj; [intros x y _ _; apply Inj | apply seq_NoDup].
  - apply NoDup_map_inj; [|apply seq_NoDup].
    intros x y _ _ E. apply Inj.
    rewrite !replace_dot_append in E.
    rewrite !(replace_dot_digits (py_str _)) in E by (apply py_str_digits; lia).
    cbn [replace_dot Ascii.eqb Bool.eqb append] in E. injection E as E.
    apply append_cancel_r in E. now rewrite E.
  - apply Forall_forall. intros proc H. apply in_map_iff in H as (i & <- & _).
    split; [discriminate | split; reflexivity].
Qed.

(** X11. A pool that set-up hands over has at least one job and at least
    one slot, no more slots than jobs, and jobs with pairwise different,
    non-empty file names; each job's directory is its file name with the
    points turned into underscores. *)
Theorem setup_gives_distinct_names args host st :
  setup_proc args host = Ok st ->
  procs st <> []
  /\ 1 <= n_process st <= t_process st
  /\ NoDup (map filename (procs st))
  /\ Forall (well_named host) (procs st).
Proof.
  unfold setup_proc. intros H.
  destruct (configured_limit args host) as [L|]; [|discriminate].
  destruct (L <? 1) eqn:HL; [discriminate|]. apply Z.ltb_ge in HL.
  match type of H with
  | match ?j with _ => _ end = _ => destruct j as [why|[ps T]] eqn:J
  end; [discriminate|].
  match type of H with
  | (if ?g then _ else _) = _ => destruct g eqn:G; [discriminate|]
  end.
  apply orb_false_iff in G as [G1 G2]. apply Z.leb_gt in G1, G2.
  destruct (compile_ok host); [|discriminate].
  injection H as <-. cbn [procs n_process t_process].
  assert (Hps : T = Z.of_nat (List.length ps)
                /\ NoDup (map filename ps) /\ Forall (well_named host) ps).
  { destruct (truthy (Args.csv_input args)).
    - destruct (truthy_int (Args.t_process args)); [discriminate|].
      destruct (csv_rows host) as [rows|]; [|discriminate].
      pose proof (csv_jobs_spec _ _ _ _ _ _ _ J (Forall_nil _)) as [_ Hl].
      apply csv_jobs_names in J; [|constructor|constructor|constructor].
      cbn [List.length] in Hl. destruct J as (N & W & _).
      split; [lia | auto].
    - injection J as <- <-.
      match goal with
      | |- context [flat_jobs host ?t] =>
          destruct (flat_jobs_spec host t) as [Hl _];
          destruct (flat_jobs_names host t) as (N & _ & W)
      end.
      split; [rewrite Hl; lia | auto]. }
  destruct Hps as (Hl & N & W).
  split; [intros ->; cbn in Hl; lia|].
  split; [destruct (T <? L) eqn:HT; [apply Z.ltb_lt in HT | apply Z.ltb_ge in HT]; lia|].
  auto.
Qed.

Lemma setup_gives_distinct_names_witness :
  match setup_proc csv_args two_rows with
  | Ok st => NoDup (map filename (procs st)) /\ procs st <> []
  | Stopped _ => False
  end.
Proof.
  destruct (setup_proc csv_args two_rows) as [st|why] eqn:E; [|discriminate].
  destruct (setup_gives_distinct_names csv_args two_rows st E) as (Hne & _ & N & _).
  split; assumption.
Defined.

(** X12. Without a CSV file the jobs also get pairwise different
    directories. With a CSV file they need not: the file names a.b and a_b
    pass set-up and share the directory a_b. *)
Theorem flat_jobs_have_own_directories args host st :
  setup_proc args host = Ok st -> truthy (Args.csv_input args) = false ->
  NoDup (map dir_ (procs st)).
Proof.
  unfold setup_proc. intros H C. rewrite C in H.
  destruct (configured_limit args host) as [L|]; [|discriminate].
  destruct (L <? 1); [discriminate|].
  match type of H with
  | (if ?g then _ else _) = _ => destruct g; [discriminate|]
  end.
  destruct (compile_ok host); [|discriminate].
  injection H as <-. cbn [procs]. apply flat_jobs_names.
Qed.

Lemma flat_jobs_have_own_directories_witness :
  match setup_proc sample_args sample_host with
  | Ok st => NoDup (map dir_ (procs st))
  | Stopped _ => False
  end.
Proof.
  destruct (setup_proc sample_args sample_host) as [st|why] eqn:E; [|discriminate].
  exact (flat_jobs_have_own_directories sample_args sample_host st E eq_refl).
Defined.

Example csv_jobs_can_share_a_directory :
  match setup_proc csv_args point_rows with
  | Ok st => map filename (procs st) = ["a.b"; "a_b"]
             /\ map dir_ (procs st) = ["a_b"; "a_b"]
  | Stopped _ => False
  end.
Proof. split; reflexivity. Qed.

(** X13. Without a CSV file, when [t_process] is not given or is 0, the
    pool gets as many jobs as the configured limit: 0 does not mean no job. *)
Theorem default_job_count args host st :
  setup_proc args host = Ok st ->
  truthy (Args.csv_input args) = false ->
  truthy_int (Args.t_process args) = false ->
  exists L, configured_limit args host = Some L
            /\ t_process st = L /\ n_process st = L
            /\ Z.of_nat (List.length (procs st)) = L.
Proof.
  unfold setup_proc. intros H C T. rewrite C in H.
  destruct (configured_limit args host) as [L|]; [|discriminate].
  destruct (L <? 1) eqn:HL; [discriminate|]. apply Z.ltb_ge in HL.
  assert (E : match Args.t_process args with
              | Some v => if v =? 0 then L else v
              | None => L
              end = L).
  { destruct (Args.t_process args) as [v|]; [|reflexivity].
    cbn [truthy_int] in T. apply negb_false_iff in T. now rewrite T. }
  rewrite E in H. rewrite Z.ltb_irrefl in H.
  match type of H with
  | (if ?g then _ else _) = _ => destruct g; [discriminate|]
  end.
  destruct (compile_ok host); [|discriminate].
  injection H as <-. exists L. cbn [t_process n_process procs].
  repeat split. destruct (flat_jobs_spec host L) as [-> _]. lia.
Qed.

Lemma default_job_count_witness :
  match setup_proc (with_t_process sample_args (Some 0)) sample_host with
  | Ok st => t_process st = 8 /\ n_process st = 8
  | Stopped _ => False
  end.
Proof.
  destruct (setup_proc (with_t_process sample_args (Some 0)) sample_host)
    as [st|why] eqn:E; [|discriminate].
  destruct (default_job_count _ _ st E eq_refl eq_refl) as (L & HL & Ht & Hn & _).
  vm_compute in HL. injection HL as <-. split; assumption.
Defined.

(** X14. Set-up does not survive an empty job list: with a CSV file that
    has no row, or with a negative [t_process], it ends in the ValueError of
    the logarithm, before anything is compiled or launched. *)
Theorem setup_raises_without_jobs args host L :
  configured_limit args host = Some L -> 1 <= L ->
  (truthy (Args.csv_input args) = true ->
   truthy_int (Args.t_process args) = false ->
   csv_rows host = Some [] ->
   setup_proc args host = Stopped (Raised "ValueError"))
  /\ (truthy (Args.csv_input args) = false ->
      forall t, Args.t_process args = Some t -> t < 0 ->
      setup_proc args host = Stopped (Raised "ValueError")).
Proof.
  intros HL H1. unfold setup_proc. rewrite HL.
  assert (E : (L <? 1) = false) by (apply Z.ltb_ge; lia). rewrite E.
  split.
  - intros C T R. rewrite C, T, R. cbn [csv_jobs].
    assert (E0 : (0 <? L) = true) by (apply Z.ltb_lt; lia).
    rewrite E0. reflexivity.
  - intros C t Ht Hneg. rewrite C, Ht.
    assert (E0 : (t =? 0) = false) by (apply Z.eqb_neq; lia). rewrite E0.
    assert (E1 : (t <? L) = true) by (apply Z.ltb_lt; lia). rewrite E1.
    assert (E2 : (t <=? 0) = true) by (apply Z.leb_le; lia). rewrite E2.
    reflexivity.
Qed.

Lemma setup_raises_without_jobs_witness :
  setup_proc (with_t_process sample_args (Some (-3))) sample_host
  = Stopped (Raised "ValueError").
Proof.
  apply (proj2 (setup_raises_without_jobs
                  (with_t_process sample_args (Some (-3))) sample_host 8
                  eq_refl ltac:(lia)) eq_refl (-3) eq_refl).
  lia.
Defined.

(** ** The console: properties *)

Lemma ends_with_append c s :
  ConsolePrint.ends_with c (s ++ String c "") = true.
Proof.
  induction s as [|a s IH]; cbn [append ConsolePrint.ends_with].
  - apply Ascii.eqb_refl.
  - destruct (s ++ String c "")%string eqn:E; [now destruct s | exact IH].
Qed.

Lemma append_assoc3 (a b c : string) :
  (a ++ b ++ c)%string = ((a ++ b) ++ c)%string.
Proof. now rewrite append_assoc. Qed.

Lemma console_inv_step c call :
  console_inv c -> console_inv (ConsolePrint.step c call).
Proof.
  intros H. destruct c as [nl scr]. unfold console_inv in *.
  destruct call as [|args_|args_]; destruct nl;
    cbn [ConsolePrint.step ConsolePrint.newline ConsolePrint.print
         ConsolePrint.status ConsolePrint._nl ConsolePrint.screen negb] in *;
    try exact H;
    unfold ConsolePrint.fresh_line, ConsolePrint.line_feed,
           ConsolePrint.carriage_return;
    try right; rewrite ?append_assoc3; apply ends_with_append.
Qed.

Lemma console_inv_after calls : console_inv (ConsolePrint.after calls).
Proof.
  unfold ConsolePrint.after.
  assert (G : forall c, console_inv c -> console_inv (fold_left ConsolePrint.step calls c)).
  { induction calls as [|call calls IH]; intros c H; [exact H|].
    cbn [fold_left]. apply IH, console_inv_step, H. }
  apply G. left. reflexivity.
Qed.

(** X15. Whatever was written before, a message printed through the
    console starts on a fresh line: a status line before it is closed with
    a line feed first, so the message does not overwrite it. A status
    written after a status follows it with no line feed between, and so
    overwrites it. *)
Theorem message_never_overwrites_status calls args_ :
  let c := ConsolePrint.after calls in
  (exists before,
     ConsolePrint.screen (ConsolePrint.print c args_)
     = (before ++ ConsolePrint.joined args_ ++ ConsolePrint.line_feed)%string
     /\ ConsolePrint.fresh_line before)
  /\ (forall first,
        ConsolePrint.screen
          (ConsolePrint.status (ConsolePrint.status c first) args_)
        = (ConsolePrint.screen (ConsolePrint.status c first)
           ++ ConsolePrint.joined args_ ++ ConsolePrint.carriage_return)%string).
Proof.
  cbv zeta. pose proof (console_inv_after calls) as H.
  destruct (ConsolePrint.after calls) as [nl scr]. unfold console_inv in H.
  cbn [ConsolePrint._nl ConsolePrint.screen] in H. split.
  - destruct nl;
      cbn [ConsolePrint.print ConsolePrint.newline ConsolePrint._nl
           ConsolePrint.screen negb].
    + exists scr. split; [reflexivity | exact H].
    + exists (scr ++ ConsolePrint.line_feed)%string. split; [reflexivity|].
      right. apply ends_with_append.
  - intros first. destruct nl; reflexivity.
Qed.

Example console_session :
  ConsolePrint.screen
    (ConsolePrint.after
       [ConsolePrint.Print ["Start"]; ConsolePrint.Status ["1 running"];
        ConsolePrint.Status ["2 running"]; ConsolePrint.Print ["ERROR"; "x"];
        ConsolePrint.Newline])
  = ("Start" ++ ConsolePrint.line_feed
     ++ "1 running" ++ ConsolePrint.carriage_return
     ++ "2 running" ++ ConsolePrint.carriage_return ++ ConsolePrint.line_feed
     ++ "ERROR x" ++ ConsolePrint.line_feed)%string.
Proof. reflexivity. Qed.

(** ** Names derived from the simulation file: properties *)

Lemma replace_go_absent old new : forall s,
  occurs old s = false -> replace_go old new 0 s = s.
Proof.
  induction s as [|c s IH]; intros H; [reflexivity|].
  cbn [occurs] in H. apply orb_false_iff in H as [Hp Ho].
  cbn [replace_go]. now rewrite Hp, (IH Ho).
Qed.

Lemma replace_go_suffix new : forall base,
  pointless base = true ->
  replace_go ".instr" new 0 (base ++ ".instr") = (base ++ new)%string.
Proof.
  induction base as [|c base IH]; intros H.
  - cbn. now rewrite append_nil_r.
  - unfold pointless in H. cbn [all] in H. apply andb_true_iff in H as [Hc Hb].
    cbn [append replace_go String.prefix].
    destruct (ascii_dec "."%char c) as [<-|N]; [discriminate|].
    now rewrite (IH Hb).
Qed.

(** X16. For a simulation file named base.instr, base without a point,
    the C file and the executable are base.c and base.out, and the command
    of a job starts with ./base.out. For a name in which .instr does not
    occur, both derived names are the simulation file itself, which is
    therefore the file set-up deletes before it compiles. *)
Theorem derived_file_names args :
  (forall base, pointless base = true ->
     Args.sim_file args = (base ++ ".instr")%string ->
     sim_file_c args = (base ++ ".c")%string
     /\ sim_file_out args = (base ++ ".out")%string
     /\ forall n_events self,
          gen_command (Args.sim_file args) n_events self
          = ("./" ++ base ++ ".out" ++ " -n " ++ py_str n_events
             ++ " -d " ++ dir_ self ++ " filename="
             ++ path_join (dir_ self) (filename self) ++ params self)%string)
  /\ (occurs ".instr" (Args.sim_file args) = false ->
      sim_file_c args = Args.sim_file args
      /\ sim_file_out args = Args.sim_file args).
Proof.
  unfold sim_file_c, sim_file_out, gen_command, py_replace. split.
  - intros base Hb ->. rewrite !(replace_go_suffix _ base Hb).
    split; [reflexivity|]. split; [reflexivity|].
    intros n_events self. now rewrite <- !append_assoc.
  - intros H. now rewrite !(replace_go_absent _ _ _ H).
Qed.

Lemma derived_file_names_witness :
  sim_file_c sample_args = "sim.c" /\ sim_file_out sample_args = "sim.out"
  /\ sim_file_out (Args.mk "sim.txt" 1 None false None None None None None fzero false)
     = "sim.txt".
Proof.
  destruct (proj1 (derived_file_names sample_args) "sim" eq_refl eq_refl)
    as (Hc & Ho & _).
  split; [exact Hc|]. split; [exact Ho|].
  exact (proj2 (proj2 (derived_file_names
                         (Args.mk "sim.txt" 1 None false None None None None None fzero false))
                      eq_refl)).
Defined.

(** ** The whole program: properties *)

Lemma setup_proc_spawn args host st :
  setup_proc args host = Ok st ->
  Forall (fun proc => spawn proc = launch host (filename proc)) (procs st).
Proof.
  unfold setup_proc. intros H.
  destruct (configured_limit args host) as [L|]; [|discriminate].
  destruct (L <? 1); [discriminate|].
  match type of H with
  | match ?j with _ => _ end = _ => destruct j as [why|[ps T]] eqn:J
  end; [discriminate|].
  match type of H with
  | (if ?g then _ else _) = _ => destruct g; [discriminate|]
  end.
  destruct (compile_ok host); [|discriminate].
  injection H as <-. cbn [procs].
  assert (W : Forall (well_named host) ps).
  { destruct (truthy (Args.csv_input args)).
    - destruct (truthy_int (Args.t_process args)); [discriminate|].
      destruct (csv_rows host) as [rows|]; [|discriminate].
      now apply csv_jobs_names in J; [|constructor|constructor|constructor].
    - injection J as <- _. apply flat_jobs_names. }
  eapply Forall_impl; [|exact W]. now intros a (_ & _ & ?).
Qed.

Lemma reachable_descriptors st0 st :
  initial st0 -> reachable st0 st ->
  ordered st /\ map descriptor (procs st) = map descriptor (procs st0).
Proof.
  intros Hi R. induction R as [|st p st' R [Ho IH] T].
  - destruct (gen_init_ordered st0 Hi) as (Ho & _ & F & _). split; [exact Ho|].
    eapply Forall2_map_eq; [|exact F].
    intros a b [-> | [_ ->]]; [reflexivity | apply invoke_process_descriptor].
  - destruct (tick_ordered st p st' T Ho) as (Ho' & _ & F & _). split; [exact Ho'|].
    rewrite <- IH. eapply Forall2_map_eq; [|exact F].
    intros a b M. now destruct (moved_legal _ a b M) as (_ & _ & D).
Qed.

(** X17. On a machine where every child that can be launched exits,
    [main] comes to an end. It returns, after the clean-up pass on a pool in
    which every job is FINISH or ERROR, with the jobs set-up created; or it
    is ended by set-up, by the exception of a round of the monitor loop, by
    the exception of a file operation of the clean-up pass, or by a total
    time that cannot be shown. *)
Theorem main_ends {W : Type} args host (os : OS W) w :
  (forall name child, launch host name = Some child -> exits child) ->
  exists fuel r,
    main fuel args host os w = Some r
    /\ match r with
       | Failed why =>
           setup_proc args host = Stopped why
           \/ exists st0,
                setup_proc args host = Ok st0
                /\ ((exists st, reachable st0 st /\ round_raises st why)
                    \/ exists st,
                         reachable st0 st /\ Forall terminal (procs st)
                         /\ (raised (check_and_cleanup os st w) = Some why
                             \/ duration (fsub (clock st) (clock st0)) = inl why))
       | Done st report elapsed =>
           Forall terminal (procs st)
           /\ report = check_and_cleanup os st w
           /\ raised report = None
           /\ exists st0,
                setup_proc args host = Ok st0
                /\ reachable st0 st
                /\ map filename (procs st) = map filename (procs st0)
                /\ duration (fsub (clock st) (clock st0)) = inr elapsed
       end.
Proof.
  intros Hx. unfold main.
  destruct (setup_proc args host) as [st0|why] eqn:E;
    [|exists 0%nat, (Failed why); auto].
  destruct (setup_proc_initial args host st0 E) as [Hi Hn].
  assert (Hc : children_exit st0).
  { unfold children_exit. pose proof (setup_proc_spawn args host st0 E) as Sp.
    eapply Forall_impl; [|exact Sp].
    intros proc Hs child Hp. rewrite Hs in Hp. exact (Hx _ _ Hp). }
  destruct (run_terminates args host st0 E Hc) as (fuel & r & Hl & Hr).
  exists fuel. rewrite Hl. destruct r as [st|why].
  - destruct Hr as [R Ht].
    destruct (raised (check_and_cleanup os st w)) as [why|] eqn:Er.
    { exists (Failed why). split; [reflexivity|]. right. exists st0.
      split; [reflexivity|]. right. exists st. auto. }
    destruct (duration (fsub (clock st) (clock st0))) as [why|elapsed] eqn:Ed.
    { exists (Failed why). split; [reflexivity|]. right. exists st0.
      split; [reflexivity|]. right. exists st. auto. }
    exists (Done st (check_and_cleanup os st w) elapsed).
    split; [reflexivity|]. split; [exact Ht|]. split; [reflexivity|].
    split; [exact Er|]. exists st0. split; [reflexivity|]. split; [exact R|].
    split; [|exact Ed].
    destruct (reachable_descriptors st0 st Hi R) as [_ D].
    apply (f_equal (map (fun d : string * string * string * option Popen =>
                           snd (fst (fst d))))) in D.
    rewrite !map_map in D. exact D.
  - exists (Failed why). split; [reflexivity|]. right. exists st0.
    split; [reflexivity|]. left.
    destruct Hr as (st1 & R & T). exists st1. split; [exact R|].
    now apply tick_raises.
Qed.

Lemma main_ends_witness :
  (forall name child, launch sample_host name = Some child -> exits child)
  /\ (exists st report,
        main 10 sample_args sample_host disk only_a = Some (Done st report 2))
  /\ main 10 (with_sleep_sec sample_args (SFopp (of_int 1))) sample_host disk only_a
     = Some (Failed (Raised "ValueError"))
  /\ exists fuel r, main fuel sample_args sample_host disk only_a = Some r.
Proof.
  assert (Hx : forall name child, launch sample_host name = Some child -> exits child).
  { intros name child H. injection H as <-. discriminate. }
  split; [exact Hx|].
  split; [eexists; eexists; vm_compute; reflexivity|].
  split; [vm_compute; reflexivity|].
  destruct (main_ends sample_args sample_host disk only_a Hx) as (fuel & r & H & _).
  exists fuel, r. exact H.
Defined.

Example main_sample :
  match main 10 sample_args sample_host disk only_a with
  | Some (Done st report elapsed) =>
      map status (procs st) = [FINISH; FINISH; FINISH]
      /\ List.length (console st) = 2%nat
      /\ report = mkCleanup [] None None [] None only_a
      /\ elapsed = 2
  | _ => False
  end.
Proof. vm_compute. repeat split; reflexivity. Qed.

(** ** The last status line *)

Lemma loop_leaves_its_summary : forall fuel st st',
  monitor_output_loop fuel st = Some (Ok st') ->
  exists s rest,
    console st' = s :: rest /\ print_output_summary (procs st') = inr s.
Proof.
  induction fuel as [|fuel IH]; intros st st' H; [discriminate|].
  cbn [monitor_output_loop] in H.
  destruct (tick st) as [why|[p_remain st1]] eqn:T; [discriminate|].
  destruct p_remain; [exact (IH _ _ H)|].
  injection H as <-. destruct (tick_spec _ _ _ T) as (_ & s & Hs & ->).
  cbn [console procs set_console]. eauto.
Qed.

(** X18. When every child exits, the monitor loop ends, and when it
    returns, the status line it printed last shows no job waiting, none
    running, and as many finished jobs and errors together as the pool has
    jobs. When the exception of a round ends the loop, no such line need
    have been printed. *)
Theorem last_status_line_accounts_for_all st0 :
  initial st0 -> 1 <= n_process st0 -> children_exit st0 ->
  exists fuel r,
    monitor_output_loop fuel (gen_init_processes st0) = Some r
    /\ match r with
       | Ok st =>
           exists last rest,
             console st = last :: rest
             /\ waiting last = 0 /\ running last = 0
             /\ finished last + error last = Z.of_nat (List.length (procs st0))
       | Stopped why => exists st, reachable st0 st /\ round_raises st why
       end.
Proof.
  intros Hi Hn Hx.
  pose proof (gen_init_sound st0 Hi Hx Hn) as Hs.
  destruct (monitor_output_loop_ends st0
              (S (work_left (procs (gen_init_processes st0)))) _
              (reach_init st0) Hs (Nat.lt_succ_diag_r _)) as (r & Hl & Hr).
  exists (S (work_left (procs (gen_init_processes st0)))), r.
  split; [exact Hl|]. destruct r as [st|why].
  - destruct Hr as [R Ht].
    destruct (loop_leaves_its_summary _ _ _ Hl) as (last & rest & Hc & Hp).
    exists last, rest. split; [exact Hc|].
    rewrite print_output_summary_spec in Hp.
    destruct (imean _) as [why|perc]; [discriminate|].
    destruct (status_line _); [discriminate|]. injection Hp as <-.
    cbn [summary_by_state waiting running finished error].
    destruct (count_terminal _ Ht) as [Wt Rn].
    pose proof (count_states_total (procs st)) as T.
    destruct (reachable_descriptors st0 st Hi R) as [_ D].
    apply (f_equal (@List.length _)) in D. rewrite !length_map in D.
    rewrite <- D. lia.
  - destruct Hr as (st1 & R & T). exists st1. split; [exact R|].
    now apply tick_raises.
Qed.

Lemma last_status_line_accounts_for_all_witness :
  initial sample_pool /\ 1 <= n_process sample_pool /\ children_exit sample_pool
  /\ match monitor_output_loop 5 (gen_init_processes sample_pool) with
     | Some (Ok st) =>
         map (fun s => [waiting s; running s; finished s; error s]) (console st)
         = [[0; 0; 3; 1]; [0; 1; 2; 1]; [0; 1; 2; 1]; [0; 2; 1; 1]]
     | _ => False
     end
  /\ exists fuel r,
       monitor_output_loop fuel (gen_init_processes sample_pool) = Some r
       /\ match r with
          | Ok st =>
              exists last rest,
                console st = last :: rest
                /\ waiting last = 0 /\ running last = 0
                /\ finished last + error last
                   = Z.of_nat (List.length (procs sample_pool))
          | Stopped why => exists st, reachable sample_pool st /\ round_raises st why
          end.
Proof.
  assert (Hi : initial sample_pool) by (split; [reflexivity | repeat constructor]).
  assert (Hn : 1 <= n_process sample_pool) by (simpl; lia).
  assert (Hx : children_exit sample_pool).
  { repeat constructor; intros child H; try discriminate;
      injection H as <-; discriminate. }
  split; [exact Hi|]. split; [exact Hn|]. split; [exact Hx|].
  split; [vm_compute; reflexivity|].
  exact (last_status_line_accounts_for_all sample_pool Hi Hn Hx).
Defined.

(** X19. With at least as many slots as jobs, the initial batch launches
    every job: no job is WAITING once it is done. *)
Theorem enough_slots_start_every_job st0 :
  initial st0 ->
  Z.of_nat (List.length (procs st0)) <= n_process st0 ->
  count_state WAITING (procs (gen_init_processes st0)) = 0
  /\ _proc (gen_init_processes st0) = List.length (procs st0).
Proof.
  intros Hi Hl.
  destruct (gen_init_ordered st0 Hi) as (Ho & _ & F & Hs).
  pose proof (Forall2_length F) as L.
  pose proof (count_states_total (procs (gen_init_processes st0))) as T.
  pose proof (count_state_nonneg WAITING (procs (gen_init_processes st0))).
  pose proof (count_state_nonneg FINISH (procs (gen_init_processes st0))).
  pose proof (count_state_nonneg ERROR (procs (gen_init_processes st0))).
  assert (W : count_state WAITING (procs (gen_init_processes st0)) = 0)
    by (destruct Hs as [Hs | Hs]; lia).
  split; [exact W|].
  assert (Hle : (_proc (gen_init_processes st0)
                 <= List.length (procs (gen_init_processes st0)))%nat).
  { unfold gen_init_processes.
    pose proof (fill_slots_spec 0 st0) as A. destruct (fill_slots 0 st0) as [c st'].
    cbn [snd]. destruct Hi as [Hc _].
    assert (G : forall fuel count s c' s',
              (_proc s <= List.length (procs s))%nat ->
              fill_loop fuel count s = Some (c', s') ->
              (_proc s' <= List.length (procs s'))%nat).
    { induction fuel as [|fuel IH]; intros count s c' s' Hb Hfl;
        cbn [fill_loop] in Hfl.
      - destruct (count <? n_process s); [discriminate | now injection Hfl as <- <-].
      - destruct (count <? n_process s); [|now injection Hfl as <- <-].
        destruct (nth_error (procs s) (_proc s)) as [job|] eqn:E.
        + rewrite (next_proc_some count s job E) in Hfl.
          apply IH in Hfl; [exact Hfl|].
          cbn [procs _proc set__proc set_procs]. rewrite length_set_nth.
          apply Nat.le_succ_l, nth_error_Some. congruence.
        + rewrite (next_proc_none count s E) in Hfl. now injection Hfl as <- <-. }
    apply (G _ _ _ _ _ ltac:(rewrite Hc; lia) A). }
  destruct (le_lt_dec (List.length (procs (gen_init_processes st0)))
                      (_proc (gen_init_processes st0))) as [Hge | Hlt]; [lia|].
  exfalso.
  destruct (nth_error (procs (gen_init_processes st0)) (_proc (gen_init_processes st0)))
    as [proc|] eqn:E; [|apply nth_error_None in E; lia].
  assert (Wp : status proc = WAITING) by (apply (Ho _ _ E); lia).
  assert (Fw : ~ Forall (fun q => status q <> WAITING) (procs (gen_init_processes st0))).
  { intros Fa. rewrite Forall_forall in Fa.
    exact (Fa proc (nth_error_In _ _ E) Wp). }
  apply Fw. clear - W.
  induction (procs (gen_init_processes st0)) as [|q ps IH]; [constructor|].
  rewrite count_state_cons in W. pose proof (count_state_nonneg WAITING ps).
  destruct (status q) eqn:S; cbn [State_eqb] in W;
    constructor; try congruence; try (apply IH; lia); lia.
Qed.

Lemma enough_slots_start_every_job_witness :
  let st0 := mkPool (procs sample_pool) 0 4 4 (of_int 1) fzero None None None
                    false [] in
  initial st0
  /\ map status (procs (gen_init_processes st0)) = [ERROR; RUNNING; RUNNING; RUNNING]
  /\ count_state WAITING (procs (gen_init_processes st0)) = 0.
Proof.
  cbv zeta.
  assert (Hi : initial (mkPool (procs sample_pool) 0 4 4 (of_int 1) fzero None None
                               None false []))
    by (split; [reflexivity | repeat constructor]).
  split; [exact Hi|]. split; [reflexivity|].
  exact (proj1 (enough_slots_start_every_job _ Hi ltac:(cbn; lia))).
Defined.

(** ** The average percent stays in range *)

Lemma shr_1_within N mrs : within (2 * N) mrs -> within N (shr_1 mrs).
Proof.
  destruct mrs as [m r s]. unfold within. cbn [shr_m shr_r shr_s].
  intros [[H0 H1] H2].
  destruct m as [|[p|p|]|p]; cbn [shr_1 shr_m shr_r shr_s orb]; [| | | |lia].
  - split; [lia|]. intros E. apply H2 in E. lia.
  - split; [lia|]. intros _. lia.
  - split; [lia|]. intros E. apply H2 in E. lia.
  - split; [lia|]. intros _. lia.
Qed.

Lemma pow2_xO p : 2 ^ Zpos p~0 = 2 ^ Zpos p * 2 ^ Zpos p.
Proof.
  replace (Zpos p~0) with (Zpos p + Zpos p) by lia.
  now rewrite Z.pow_add_r by lia.
Qed.

Lemma pow2_xI p : 2 ^ Zpos p~1 = 2 * (2 ^ Zpos p * 2 ^ Zpos p).
Proof.
  replace (Zpos p~1) with (1 + (Zpos p + Zpos p)) by lia.
  now rewrite !Z.pow_add_r, Z.pow_1_r by lia.
Qed.

Lemma iter_shr_1_within : forall p N mrs,
  within (2 ^ Zpos p * N) mrs -> within N (iter_pos shr_1 p mrs).
Proof.
  induction p as [p IH|p IH|]; intros N mrs H; cbn [iter_pos].
  - apply IH, IH, shr_1_within.
    replace (2 * (2 ^ Zpos p * (2 ^ Zpos p * N))) with (2 ^ Zpos p~1 * N); [exact H|].
    rewrite pow2_xI. ring.
  - apply IH, IH.
    replace (2 ^ Zpos p * (2 ^ Zpos p * N)) with (2 ^ Zpos p~0 * N); [exact H|].
    rewrite pow2_xO. ring.
  - apply shr_1_within. exact H.
Qed.

Lemma digits2_pos_le : forall p d, Zpos p < 2 ^ d -> 0 <= d -> Zpos (digits2_pos p) <= d.
Proof.
  induction p as [p IH|p IH|]; intros d H Hd; cbn [digits2_pos].
  - destruct (Z.eq_dec d 0) as [->|]; [cbn in H; lia|].
    rewrite Pos2Z.inj_succ. specialize (IH (d - 1)).
    replace d with (1 + (d - 1)) in H by lia. rewrite Z.pow_add_r, Z.pow_1_r in H by lia.
    lia.
  - destruct (Z.eq_dec d 0) as [->|]; [cbn in H; lia|].
    rewrite Pos2Z.inj_succ. specialize (IH (d - 1)).
    replace d with (1 + (d - 1)) in H by lia. rewrite Z.pow_add_r, Z.pow_1_r in H by lia.
    lia.
  - destruct (Z.eq_dec d 0) as [->|]; [cbn in H; lia|]. lia.
Qed.

Lemma Zdigits2_le m d : 0 <= m < 2 ^ d -> 0 <= d -> Zdigits2 m <= d.
Proof.
  intros [H0 H] Hd. destruct m as [|p|p]; cbn [Zdigits2]; [lia | | lia].
  now apply digits2_pos_le.
Qed.

Lemma within_of_loc N m l :
  0 <= m <= N -> (l <> loc_Exact -> m < N) ->
  within N (shr_record_of_loc m l).
Proof.
  intros H0 H1. unfold within.
  destruct l as [|[]]; cbn [shr_record_of_loc shr_m shr_r shr_s orb];
    (split; [exact H0|]); intros E; try discriminate; apply H1; discriminate.
Qed.

Lemma shr_m_of_loc m l : shr_m (shr_record_of_loc m l) = m.
Proof. now destruct l as [|[]]. Qed.

Lemma pow2_split a b : 0 <= a -> 0 <= b -> 2 ^ (a + b) = 2 ^ a * 2 ^ b.
Proof. intros. now rewrite Z.pow_add_r. Qed.

(** Shifting to the exponent of the format keeps a mantissa within the
    bound [B], a number of the format, scaled to the exponent. *)
Lemma shr_fexp_within B m e l :
  0 < B < 2 ^ 53 -> e <= 0 ->
  within (B * 2 ^ (- e)) (shr_record_of_loc m l) ->
  e <= snd (shr_fexp 53 1024 m e l) <= 0
  /\ within (B * 2 ^ (- snd (shr_fexp 53 1024 m e l)))
            (fst (shr_fexp 53 1024 m e l)).
Proof.
  intros HB He Hw. unfold shr_fexp, shr.
  assert (Hm : 0 <= m < 2 ^ (53 - e)).
  { destruct Hw as [[H0 H1] _]. rewrite shr_m_of_loc in H0, H1.
    split; [exact H0|].
    replace (53 - e) with (53 + - e) by lia. rewrite pow2_split by lia.
    assert (0 < 2 ^ (- e)) by (apply Z.pow_pos_nonneg; lia). nia. }
  pose proof (Zdigits2_le m (53 - e) Hm ltac:(lia)) as Hd.
  assert (Hf : fexp 53 1024 (Zdigits2 m + e) <= 0).
  { unfold fexp, emin. lia. }
  destruct (fexp 53 1024 (Zdigits2 m + e) - e) as [|p|p] eqn:En;
    cbn [fst snd]; try (split; [lia | exact Hw]).
  split; [lia|]. apply iter_shr_1_within.
  replace (2 ^ Zpos p * (B * 2 ^ (- (e + Zpos p)))) with (B * 2 ^ (- e)); [exact Hw|].
  replace (- e) with (Zpos p + - (e + Zpos p)) at 1 by lia.
  rewrite pow2_split by lia. ring.
Qed.

Lemma round_within N mrs :
  within N mrs ->
  0 <= round_nearest_even (shr_m mrs) (loc_of_shr_record mrs) <= N.
Proof.
  destruct mrs as [m r s]. unfold within. cbn [shr_m shr_r shr_s].
  intros [H0 H1].
  destruct r, s; cbn [loc_of_shr_record round_nearest_even orb] in *;
    try destruct (Z.even m); try specialize (H1 eq_refl); lia.
Qed.

(** Rounding a non-negative number that is at most [B], a number of the
    format, gives a float that is at most [B]. *)
Lemma binary_round_aux_le B mx ex lx :
  0 < B < 2 ^ 53 -> ex <= 0 ->
  within (B * 2 ^ (- ex)) (shr_record_of_loc mx lx) ->
  match binary_round_aux 53 1024 false mx ex lx with
  | S754_zero false => True
  | S754_finite false m e => e <= 0 /\ Zpos m <= B * 2 ^ (- e)
  | _ => False
  end.
Proof.
  intros HB He Hw. unfold binary_round_aux.
  destruct (shr_fexp_within B mx ex lx HB He Hw) as [E1 W1].
  destruct (shr_fexp 53 1024 mx ex lx) as [mrs1 e1]. cbn [fst snd] in E1, W1.
  pose proof (round_within _ _ W1) as R.
  set (m2 := round_nearest_even (shr_m mrs1) (loc_of_shr_record mrs1)) in *.
  assert (W2 : within (B * 2 ^ (- e1)) (shr_record_of_loc m2 loc_Exact))
    by (apply within_of_loc; [exact R | congruence]).
  destruct (shr_fexp_within B m2 e1 loc_Exact HB ltac:(lia) W2) as [E2 W3].
  destruct (shr_fexp 53 1024 m2 e1 loc_Exact) as [mrs2 e2]. cbn [fst snd] in E2, W3.
  destruct W3 as [[H0 H1] _].
  destruct (shr_m mrs2) as [|m|m]; [exact I | | lia].
  assert (L : (e2 <=? 1024 - 53) = true) by (apply Z.leb_le; lia).
  rewrite L. split; [lia | exact H1].
Qed.

Lemma new_location_exact nb : new_location nb 0 = loc_Exact.
Proof. unfold new_location. now destruct (Z.even nb). Qed.

(** The float nearest to a / b is at most [B] when a / b is. *)
Lemma fdiv_exact_le B a b :
  0 < B < 2 ^ 53 -> 0 < a <= B * b -> 0 < b ->
  match fdiv (exact a) (exact b) with
  | S754_zero false => True
  | S754_finite false m e => e <= 0 /\ Zpos m <= B * 2 ^ (- e)
  | _ => False
  end.
Proof.
  intros HB Ha Hb.
  destruct a as [|pa|pa]; [lia | | lia]. destruct b as [|pb|pb]; [lia | | lia].
  cbn [exact fdiv SFdiv xorb]. unfold SFdiv_core_binary.
  set (e' := Z.min (fexp 53 1024 (Zdigits2 (Zpos pa) + 0 - (Zdigits2 (Zpos pb) + 0))) (0 - 0)).
  assert (He : e' <= 0) by (unfold e'; lia).
  assert (Hs : 0 - 0 - e' = - e') by lia. rewrite Hs.
  set (m' := match - e' with
             | 0 => Zpos pa
             | Zpos _ => Z.shiftl (Zpos pa) (- e')
             | Zneg _ => 0
             end).
  assert (Hm : m' = Zpos pa * 2 ^ (- e')).
  { unfold m'. destruct (- e') as [|p|p] eqn:E; [cbn; lia | | lia].
    now rewrite Z.shiftl_mul_pow2 by lia. }
  pose proof (Z_div_mod m' (Zpos pb) ltac:(lia)) as D.
  destruct (Z.div_eucl m' (Zpos pb)) as [q r]. destruct D as [D Hr].
  apply binary_round_aux_le; [exact HB | exact He|].
  assert (P : 0 < 2 ^ (- e')) by (apply Z.pow_pos_nonneg; lia).
  apply within_of_loc.
  - split; nia.
  - intros N. assert (r <> 0) by (intros ->; now rewrite new_location_exact in N).
    nia.
Qed.

Lemma isum_from ns : forall acc, fold_left Z.add ns acc = acc + isum ns.
Proof.
  unfold isum. induction ns as [|n ns IH]; intros acc; cbn [fold_left]; [lia|].
  rewrite IH, (IH (0 + n)). lia.
Qed.

Lemma isum_bounds ns :
  Forall (fun n => 0 <= n <= 100) ns ->
  0 <= isum ns <= 100 * Z.of_nat (List.length ns).
Proof.
  induction 1 as [|n ns Hn _ IH]; [cbn; lia|].
  unfold isum. cbn [fold_left List.length]. rewrite isum_from. lia.
Qed.

(** A float that is at most 100, scaled as the lemmas above give it, has a
    value and a rounded value between 0 and 100. *)
Lemma percent_float_range m e :
  e <= 0 -> Zpos m <= 100 * 2 ^ (- e) ->
  (0 <= value (S754_finite false m e) <= 100)%Q
  /\ 0 <= round_half_even m e <= 100.
Proof.
  intros He Hm. unfold value, round_half_even.
  assert (P : 0 < 2 ^ (- e)) by (apply Z.pow_pos_nonneg; lia).
  destruct (0 <=? e) eqn:E.
  - apply Z.leb_le in E. assert (e = 0) by lia. subst e.
    cbn in Hm |- *. unfold Qle. cbn. lia.
  - split.
    + unfold Qle. cbn [Qnum Qden]. rewrite Z2Pos.id by exact P. lia.
    + pose proof (Z.div_mod (Zpos m) (2 ^ (- e)) ltac:(lia)) as D.
      pose proof (Z.mod_pos_bound (Zpos m) (2 ^ (- e)) P) as B.
      assert (Q0 : 0 <= Zpos m / 2 ^ (- e)) by (apply Z.div_pos; lia).
      assert (Q1 : Zpos m / 2 ^ (- e) <= 100) by nia.
      destruct (2 * (Zpos m mod 2 ^ (- e)) ?= 2 ^ (- e)) eqn:C;
        [apply Z.compare_eq in C | | apply Z.compare_gt_iff in C];
        try destruct (Z.even _); try lia; nia.
Qed.

(** X20. When the percent of every RUNNING job lies between 0 and 100, the
    division that gives the average percent does not raise, and the average,
    the float nearest to the quotient, lies between 0 and 100, and so does
    the rounded percent that is shown. *)
Theorem average_percent_in_range ps :
  Forall (fun proc => status proc = RUNNING -> 0 <= running_perc proc <= 100) ps ->
  exists perc,
    imean (map running_perc (in_state RUNNING ps)) = inr perc
    /\ finite perc = true
    /\ (0 <= value perc <= 100)%Q
    /\ (exists n, py_round perc = inr n /\ 0 <= n <= 100)
    /\ forall s, print_output_summary ps = inr s -> running_perc_avg s = perc.
Proof.
  intros H.
  assert (B : Forall (fun n => 0 <= n <= 100) (map running_perc (in_state RUNNING ps))).
  { apply Forall_forall. intros n Hn.
    apply in_map_iff in Hn as (proc & <- & Hin).
    unfold in_state in Hin. apply filter_In in Hin as [Hin S].
    apply State_eqb_eq in S. symmetry in S.
    rewrite Forall_forall in H. exact (H proc Hin S). }
  apply isum_bounds in B.
  assert (G : exists perc,
            imean (map running_perc (in_state RUNNING ps)) = inr perc
            /\ finite perc = true
            /\ (0 <= value perc <= 100)%Q
            /\ (exists n, py_round perc = inr n /\ 0 <= n <= 100)).
  { rewrite imean_spec.
    destruct (Z.of_nat _ =? 0) eqn:L.
    { exists fzero. split; [reflexivity|]. split; [reflexivity|].
      split; [split; unfold Qle; cbn; lia|]. exists 0. split; [reflexivity | lia]. }
    apply Z.eqb_neq in L. unfold truediv.
    rewrite (proj2 (Z.eqb_neq _ _) L).
    set (a := isum _) in *. set (b := Z.of_nat _) in *.
    destruct (Z.eq_dec a 0) as [E0|N0].
    { rewrite E0. destruct b as [|pb|pb]; [lia | | lia].
      exists fzero. split; [reflexivity|]. split; [reflexivity|].
      split; [split; unfold Qle; cbn; lia|]. exists 0. split; [reflexivity | lia]. }
    pose proof (fdiv_exact_le 100 a b ltac:(lia) ltac:(lia) ltac:(lia)) as F.
    destruct (fdiv (exact a) (exact b)) as [[|]|[|]| |[|] m e]; try contradiction.
    - exists (S754_zero false). split; [reflexivity|]. split; [reflexivity|].
      split; [split; unfold Qle; cbn; lia|]. exists 0. split; [reflexivity | lia].
    - destruct F as [He Hm].
      destruct (percent_float_range m e He Hm) as [V R].
      exists (S754_finite false m e). split; [reflexivity|]. split; [reflexivity|].
      split; [exact V|]. exists (round_half_even m e). split; [reflexivity | exact R]. }
  destruct G as (perc & E & F & V & R).
  exists perc. split; [exact E|]. split; [exact F|]. split; [exact V|].
  split; [exact R|].
  intros s Hs. rewrite print_output_summary_spec, E in Hs.
  destruct (status_line _); [discriminate|]. now injection Hs as <-.
Qed.

Lemma average_percent_in_range_witness :
  exists perc,
    imean (map running_perc
             (in_state RUNNING [running_job 50 fzero; running_job 30 (of_int 10)]))
    = inr perc
    /\ perc = of_int 40
    /\ (0 <= value perc <= 100)%Q.
Proof.
  destruct (average_percent_in_range
              [running_job 50 fzero; running_job 30 (of_int 10)])
    as (perc & E & _ & V & _).
  { repeat constructor; cbn; lia. }
  exists perc. split; [exact E|]. split; [|exact V].
  vm_compute in E. injection E as <-. vm_compute. reflexivity.
Defined.

(** ** What ends a round early *)

(** X21. The round sleeps before it polls: when [sleep] refuses the
    interval, the round raises at once, whatever the jobs are doing, and the
    monitor loop is ended by that exception in its first round, before any
    job is polled or launched and before any status line. A pool that set-up
    hands over has the interval of the command line, or one second when that
    is zero: nothing else is checked, so a negative interval gets through. *)
Theorem refused_interval_ends_the_first_round st why :
  sleep (sleep_sec st) = Some why ->
  tick st = inl why
  /\ (forall fuel, monitor_output_loop (S fuel) st = Some (Stopped why))
  /\ (forall args host,
        setup_proc args host = Ok st ->
        sleep_sec st = (if truthy_float (Args.sleep_sec args)
                        then Args.sleep_sec args else of_int 1)).
Proof.
  intros H.
  assert (T : tick st = inl why) by (unfold tick; now rewrite H).
  split; [exact T|]. split.
  - intros fuel. cbn [monitor_output_loop]. now rewrite T.
  - intros args host E. unfold setup_proc in E.
    destruct (configured_limit args host) as [L|]; [|discriminate].
    destruct (L <? 1); [discriminate|].
    match type of E with
    | match ?j with _ => _ end = _ => destruct j as [stop|[ps T']]
    end; [discriminate|].
    match type of E with
    | (if ?g then _ else _) = _ => destruct g; [discriminate|]
    end.
    destruct (compile_ok host); [|discriminate].
    injection E as <-. reflexivity.
Qed.

Lemma refused_interval_ends_the_first_round_witness :
  sleep (SFopp (of_int 1)) = Some (Raised "ValueError")
  /\ sleep (S754_infinity false) = Some (Raised "OverflowError")
  /\ sleep S754_nan = Some (Raised "ValueError")
  /\ sleep fzero = None
  /\ monitor_output_loop 3 (sample_pool_sleeping (SFopp (of_int 1)))
     = Some (Stopped (Raised "ValueError")).
Proof.
  repeat (split; [vm_compute; reflexivity|]).
  apply (proj1 (proj2 (refused_interval_ends_the_first_round
                         (sample_pool_sleeping (SFopp (of_int 1)))
                         (Raised "ValueError") eq_refl))).
Defined.

(** X22. Output that cannot be decoded ends the poll step of its job with
    the exception of [decode]: the lines read before it in that step have
    been parsed, the ones after it have not been read, and the job is FINISH
    already when its child has exited. The loop over the jobs stops there:
    the round raises, and no later job is polled. *)
Theorem undecodable_output_ends_the_poll_step self now exits code ls rest :
  status self = RUNNING ->
  process self = Some (mkPopen exits code (map Text ls ++ Undecodable :: rest)) ->
  Forall (fun l => l <> "") ls ->
  let r := check_status_and_process_output self now in
  snd r = Some (Raised "UnicodeDecodeError")
  /\ status (fst r) = match exits with Some O => FINISH | _ => RUNNING end
  /\ running_eta (fst r) = running_eta (fold_left process_output ls self)
  /\ running_perc (fst r) = running_perc (fold_left process_output ls self)
  /\ (forall ps p_remain count,
        poll_all (self :: ps) now p_remain count
        = inl (Raised "UnicodeDecodeError")).
Proof.
  intros S P F r.
  assert (E : r = check_status_and_process_output self now) by reflexivity.
  rewrite (check_status_running_eq self now _ S P) in E. cbv zeta in E.
  assert (D : forall j,
            drain j (stdout (snd (poll (mkPopen exits code
                                          (map Text ls ++ Undecodable :: rest)))))
            = (fold_left process_output ls j, rest,
               Some (Raised "UnicodeDecodeError"))).
  { intros j. destruct (drain_lines ls j rest F) as (_ & _ & <-).
    now destruct exits as [[|n]|]. }
  rewrite D in E. cbn [fst snd] in E.
  split; [now rewrite E|].
  assert (St : forall j, status (fold_left process_output ls j) = status j).
  { clear. induction ls as [|l ls IH]; intros j; cbn [fold_left]; [reflexivity|].
    rewrite IH. apply process_output_frame. }
  assert (Pa : forall j j',
            running_eta j = running_eta j' -> running_perc j = running_perc j' ->
            running_eta (fold_left process_output ls j)
            = running_eta (fold_left process_output ls j')
            /\ running_perc (fold_left process_output ls j)
               = running_perc (fold_left process_output ls j')).
  { clear. induction ls as [|l ls IH]; intros j j' He Hp; cbn [fold_left]; [auto|].
    apply IH; unfold process_output;
      destruct (re_match trace_re l), (re_match percent_re l);
      cbn [running_eta running_perc set_running_eta set_running_perc]; auto. }
  split; [|split; [|split]].
  - rewrite E. cbn [fst status set_process]. rewrite St.
    destruct exits as [[|n]|]; cbn [poll fst exits_after]; auto.
  - rewrite E. cbn [fst running_eta set_process].
    destruct exits as [[|n]|]; cbn [poll fst exits_after];
      try reflexivity; now apply Pa.
  - rewrite E. cbn [fst running_perc set_process].
    destruct exits as [[|n]|]; cbn [poll fst exits_after];
      try reflexivity; now apply Pa.
  - intros ps p_remain count. cbn [poll_all].
    fold r. rewrite E. reflexivity.
Qed.

Lemma undecodable_output_ends_the_poll_step_witness :
  let self :=
    mkProgram (Some (mkPopen (Some 0%nat) 0
                       (map Text ["Trace ETA 53 [s] % 20"] ++ Undecodable :: [Text "40 "])))
              RUNNING fzero "" "a.dat" "a_dat" fzero 0 None in
  let r := check_status_and_process_output self (of_int 1) in
  snd r = Some (Raised "UnicodeDecodeError")
  /\ status (fst r) = FINISH
  /\ running_perc (fst r) = 20
  /\ tick (mkPool [self] 1 1 1 (of_int 1) fzero None None None false [])
     = inl (Raised "UnicodeDecodeError").
Proof.
  cbv zeta.
  destruct (undecodable_output_ends_the_poll_step
              (mkProgram (Some (mkPopen (Some 0%nat) 0
                                  (map Text ["Trace ETA 53 [s] % 20"]
                                   ++ Undecodable :: [Text "40 "])))
                         RUNNING fzero "" "a.dat" "a_dat" fzero 0 None)
              (of_int 1) (Some 0%nat) 0 ["Trace ETA 53 [s] % 20"] [Text "40 "]
              eq_refl eq_refl)
    as (R & S & _ & _ & _).
  { repeat constructor. discriminate. }
  split; [exact R|]. split; [exact S|].
  split; vm_compute; reflexivity.
Defined.
